(** * Enhanced local search: a shallow embedding of [js/third-party/enhanced-search.js]

    The widget of the theme ([class EnhancedSearch]) is embedded as follows.
    - JavaScript Numbers are IEEE 754 binary64 values: Rocq's primitive [float].
      Counters and lengths, which are integers far below 2^53, are [nat].
    - JavaScript strings are sequences of UTF-16 code units: [list N].
    - The Unicode case tables of the runtime ([toLowerCase], the case folding
      of a regular expression with the [i] flag) are an interface, [Unicode].
    - [Array.prototype.sort] is the stable sort of ECMAScript 2019.
    - The asynchronous methods are cut at their [await]s; the widget and its
      suspended calls form a state on which the browser's events act. *)

From Stdlib Require Import ZArith NArith Floats Lia Bool List.
From Stdlib Require Uint63.
From Stdlib Require Import Ascii String Sorting.Sorted.
From stdpp Require Import base option list gmap.
Import ListNotations.
Set Warnings "-inexact-float".

(** * Numbers *)

Module JSNumber.
Local Open Scope Z_scope.

(** The positive values of binary64: the positive finite ones and [+Infinity]. *)
Definition SFpositive (r : spec_float) : Prop :=
  match r with
  | S754_finite false _ _ | S754_infinity false => True
  | _ => False
  end.

(** Order key of a positive value: exponent, then mantissa; the infinity on top. *)
Definition SFkey (r : spec_float) : Z * Z :=
  match r with
  | S754_finite _ m e => (e, Zpos m)
  | _ => (emax, 0)
  end.

Definition key_lt (k1 k2 : Z * Z) : Prop :=
  fst k1 < fst k2 \/ (fst k1 = fst k2 /\ snd k1 < snd k2).

(** The positive values whose exponent is at least [low]. *)
Definition SFabove (low : Z) (r : spec_float) : Prop :=
  match r with
  | S754_finite false _ e => low <= e
  | S754_infinity false => True
  | _ => False
  end.

(** The positive finite values whose exponent lies between [low] and [high]. *)
Definition SFbetween (low high : Z) (r : spec_float) : Prop :=
  match r with
  | S754_finite false _ e => low <= e <= high
  | _ => False
  end.

(** A sum that is still [+0] or has grown to a positive value. *)
Definition SFstarted (r : spec_float) : Prop :=
  r = S754_zero false \/ SFabove (-52) r.

(** [x > 0] as JavaScript evaluates it. *)
Definition positive_number (x : float) : Prop := (0 <? x)%float = true.

End JSNumber.

(** * Strings *)

Module JSString.
Local Open Scope N_scope.

(** A string is its sequence of UTF-16 code units. *)
Definition jsstring : Type := list N.

(** The string of an ASCII literal. *)
Definition js (s : String.string) : jsstring :=
  List.map N_of_ascii (list_ascii_of_string s).

(** [===] on strings. *)
Fixpoint eqb (s t : jsstring) : bool :=
  match s, t with
  | [], [] => true
  | a :: s', b :: t' => (a =? b) && eqb s' t'
  | _, _ => false
  end.

(** White space and line terminators: what [\s] matches and [trim] strips. *)
Definition isWhiteSpace (c : N) : bool :=
  ((9 <=? c) && (c <=? 13)) || (c =? 32) || (c =? 160) || (c =? 5760) ||
  ((8192 <=? c) && (c <=? 8202)) || (c =? 8232) || (c =? 8233) ||
  (c =? 8239) || (c =? 8287) || (c =? 12288) || (c =? 65279).

Fixpoint trimStart (s : jsstring) : jsstring :=
  match s with
  | c :: s' => if isWhiteSpace c then trimStart s' else s
  | [] => []
  end.

Definition trim (s : jsstring) : jsstring :=
  rev (trimStart (rev (trimStart s))).

Fixpoint startsWith (s p : jsstring) : bool :=
  match p, s with
  | [], _ => true
  | _ :: _, [] => false
  | a :: p', b :: s' => (a =? b) && startsWith s' p'
  end.

Fixpoint includes (s sub : jsstring) : bool :=
  startsWith s sub ||
  match s with
  | [] => false
  | _ :: s' => includes s' sub
  end.

(** [indexOf]: [None] stands for [-1]. *)
Fixpoint indexOf (s sub : jsstring) : option nat :=
  if startsWith s sub then Some 0%nat
  else match s with
       | [] => None
       | _ :: s' => option_map S (indexOf s' sub)
       end.

(** [substring(a, b)]: both ends are clamped to the length and swapped when
    they come in the wrong order. *)
Definition substring (s : jsstring) (a b : nat) : jsstring :=
  let a' := Nat.min a (length s) in
  let b' := Nat.min b (length s) in
  firstn (Nat.max a' b' - Nat.min a' b') (skipn (Nat.min a' b') s).

(** [split] on a regular expression that matches the maximal runs of the
    code units [sep] selects: the pieces between the runs, the empty piece
    before a leading run and after a trailing one included. *)
Fixpoint splitRuns (sep : N -> bool) (s cur : jsstring) (inRun : bool)
  : list jsstring :=
  match s with
  | [] => [rev cur]
  | c :: s' =>
      if sep c then
        if inRun then splitRuns sep s' cur true
        else rev cur :: splitRuns sep s' [] true
      else splitRuns sep s' (c :: cur) false
  end.

Definition split (sep : N -> bool) (s : jsstring) : list jsstring :=
  splitRuns sep s [] false.

(** [replace] with a global regular expression.  [matchAt s] is the length
    of the match of the expression at the start of [s], if it matches there;
    matches are taken leftmost and do not overlap, an empty match is followed
    by the code unit it stands before.  [skip] counts the code units of the
    current match that are still to be passed. *)
Fixpoint replaceFrom (matchAt : jsstring -> option nat)
    (subst : jsstring -> jsstring) (s : jsstring) (skip : nat) : jsstring :=
  match s with
  | [] =>
      match skip, matchAt [] with
      | O, Some _ => subst []
      | _, _ => []
      end
  | c :: s' =>
      match skip with
      | S k => replaceFrom matchAt subst s' k
      | O =>
          match matchAt s with
          | Some O => subst [] ++ c :: replaceFrom matchAt subst s' 0
          | Some (S k) => subst (firstn (S k) s) ++ replaceFrom matchAt subst s' k
          | None => c :: replaceFrom matchAt subst s' 0
          end
      end
  end.

Definition replaceAll (matchAt : jsstring -> option nat)
    (subst : jsstring -> jsstring) (s : jsstring) : jsstring :=
  replaceFrom matchAt subst s 0.

(** The case tables of the runtime. *)
Class Unicode := {
  toLowerCase : jsstring -> jsstring;
  (** the case folding of a code unit under the [i] flag *)
  canonicalize : N -> N
}.

(** The tables on ASCII letters, every other code unit left as it is. *)
Definition asciiLower (c : N) : N :=
  if (65 <=? c) && (c <=? 90) then c + 32 else c.

Definition asciiUpper (c : N) : N :=
  if (97 <=? c) && (c <=? 122) then c - 32 else c.

Definition ascii_tables : Unicode :=
  {| toLowerCase := List.map asciiLower; canonicalize := asciiUpper |}.

End JSString.
Export JSString.

(** * The data model *)

(** A record of the fetched JSON array; [title] and [content] may be missing. *)
Module DocumentRecord.
Record t := mk {
  title : option jsstring;
  content : option jsstring;
  url : jsstring
}.
End DocumentRecord.

(** An entry of the search index, as [preprocessSearchData] builds it. *)
Module IndexedDocument.
Record t := mk {
  id : nat;
  title : jsstring;
  content : jsstring;
  url : jsstring;
  titleLower : jsstring;
  contentLower : jsstring;
  weight : float
}.
End IndexedDocument.

(** A search result: the spread of the indexed document ([item]) and the
    three fields [performSearch] adds. *)
Module ResultItem.
Record t := mk {
  item : IndexedDocument.t;
  matchScore : float;
  highlightedTitle : jsstring;
  highlightedContent : jsstring
}.
End ResultItem.

(** [this.options], after the constructor has merged the defaults. *)
Record Options := {
  searchPath : jsstring;
  inputId : jsstring;
  resultId : jsstring;
  debounceTime : nat;
  maxResults : nat;
  minQueryLength : nat;
  preload : bool
}.

(** The object passed to the constructor: every key is optional. *)
Record UserOptions := {
  user_searchPath : option jsstring;
  user_inputId : option jsstring;
  user_resultId : option jsstring;
  user_debounceTime : option nat;
  user_maxResults : option nat;
  user_minQueryLength : option nat;
  user_preload : option bool
}.

(** [{ key: options.key || default, ..., ...options }]: the spread comes last,
    so a key that is present keeps the value given, falsy or not, and the
    default stands for a key that is absent.  [preload] has no default; it is
    only compared with [false]. *)
Definition mergeOptions (options : UserOptions) : Options :=
  {| searchPath := default (js "/search.json") (user_searchPath options);
     inputId := default (js "local-search-input") (user_inputId options);
     resultId := default (js "local-search-result") (user_resultId options);
     debounceTime := default 300 (user_debounceTime options);
     maxResults := default 50 (user_maxResults options);
     minQueryLength := default 2 (user_minQueryLength options);
     preload := default true (user_preload options) |}.

Definition noOptions : UserOptions :=
  {| user_searchPath := None; user_inputId := None; user_resultId := None;
     user_debounceTime := None; user_maxResults := None;
     user_minQueryLength := None; user_preload := None |}.

Definition defaultOptions : Options := mergeOptions noOptions.

(** [v || d] on an optional string: a missing value and the empty string are
    falsy. *)
Definition orElse (v : option jsstring) (d : jsstring) : jsstring :=
  match v with
  | Some (c :: s) => c :: s
  | _ => d
  end.

(** An integer-valued Number, from a count. *)
Definition number (n : nat) : float :=
  PrimFloat.of_uint63 (Uint63.of_Z (Z.of_nat n)).

(** * Building the index *)

Section Index.
Context {tables : Unicode}.
Local Open Scope float_scope.

(** [[^>]+>] at the start of [s], [n] code units of [[^>]+] read so far:
    the length of the match. *)
Fixpoint tagTail (s : jsstring) (n : nat) : option nat :=
  match s with
  | [] => None
  | c :: s' =>
      if (c =? 62)%N then match n with O => None | S _ => Some (S n) end
      else tagTail s' (S n)
  end.

(** [<[^>]+>] at the start of [s]: the length of the match. *)
Definition tagAt (s : jsstring) : option nat :=
  match s with
  | c :: s' => if (c =? 60)%N then option_map S (tagTail s' 0) else None
  | [] => None
  end.

(** [.replace(/<[^>]+>/g, '')] *)
Definition stripTags (s : jsstring) : jsstring :=
  replaceAll tagAt (fun _ => []) s.

Definition calculateWeight (item : DocumentRecord.t) : float :=
  let weight := 1 in
  let weight :=
    match DocumentRecord.title item with
    | Some (c :: s) => if (10 <? length (c :: s))%nat then weight + 0.1 else weight
    | _ => weight
    end in
  let contentLength := length (orElse (DocumentRecord.content item) []) in
  let weight := if (500 <? contentLength)%nat then weight + 0.2 else weight in
  let weight := if (1000 <? contentLength)%nat then weight + 0.3 else weight in
  weight.

Definition preprocessItem (index : nat) (item : DocumentRecord.t)
  : IndexedDocument.t :=
  {| IndexedDocument.id := index;
     IndexedDocument.title := orElse (DocumentRecord.title item) (js "Untitled");
     IndexedDocument.content := stripTags (orElse (DocumentRecord.content item) []);
     IndexedDocument.url := DocumentRecord.url item;
     IndexedDocument.titleLower := toLowerCase (orElse (DocumentRecord.title item) []);
     IndexedDocument.contentLower :=
       toLowerCase (stripTags (orElse (DocumentRecord.content item) []));
     IndexedDocument.weight := calculateWeight item |}.

Definition preprocessSearchData (data : list DocumentRecord.t)
  : list IndexedDocument.t :=
  imap preprocessItem data.

End Index.

(** * Searching *)

Section Search.
Context {tables : Unicode}.
Local Open Scope float_scope.

(** The separators of [/[\s\-]+/]. *)
Definition isSeparator (c : N) : bool := isWhiteSpace c || (c =? 45)%N.

(** [query.toLowerCase().split(/[\s\-]+/).filter(k => k.length > 0)] *)
Definition keywordsOf (query : jsstring) : list jsstring :=
  List.filter (fun k => (0 <? length k)%nat) (split isSeparator (toLowerCase query)).

(** One turn of the loop of [calculateMatchScore] on the variables
    [score], [titleMatches] and [contentMatches]. *)
Definition scoreStep (item : IndexedDocument.t)
    (vars : float * nat * nat) (keyword : jsstring) : float * nat * nat :=
  let '(score, titleMatches, contentMatches) := vars in
  let '(score, titleMatches) :=
    if includes (IndexedDocument.titleLower item) keyword then
      let score := score + 10 * IndexedDocument.weight item in
      let score :=
        if JSString.eqb (IndexedDocument.titleLower item) keyword
        then score + 20 else score in
      (score, S titleMatches)
    else (score, titleMatches) in
  let '(score, contentMatches) :=
    if includes (IndexedDocument.contentLower item) keyword then
      (score + 1 * IndexedDocument.weight item, S contentMatches)
    else (score, contentMatches) in
  (score, titleMatches, contentMatches).

Definition calculateMatchScore (item : IndexedDocument.t)
    (keywords : list jsstring) : float :=
  let '(score, titleMatches, contentMatches) :=
    fold_left (scoreStep item) keywords (0, 0%nat, 0%nat) in
  if (titleMatches =? 0)%nat && (contentMatches =? 0)%nat then 0
  else
    let coverage :=
      number (titleMatches + contentMatches) / number (length keywords) in
    score * coverage.

(** The literal [keyword] at the start of [s], letters compared as the
    [i] flag folds them. *)
Fixpoint startsWithFolded (s keyword : jsstring) : bool :=
  match keyword, s with
  | [], _ => true
  | _ :: _, [] => false
  | a :: keyword', b :: s' =>
      (canonicalize a =? canonicalize b)%N && startsWithFolded s' keyword'
  end.

(** The code units of [/[.*+?^${}()|[\]\\]/]. *)
Definition isSpecial (c : N) : bool :=
  existsb (N.eqb c) [46; 42; 43; 63; 94; 36; 123; 125; 40; 41; 124; 91; 93; 92]%N.

(** [string.replace(/[.*+?^${}()|[\]\\]/g, '\\$&')] *)
Definition escapeRegExp (string : jsstring) : jsstring :=
  flat_map (fun c => if isSpecial c then [92%N; c] else [c]) string.

(** The text a pattern of plain and escaped code units matches: a backslash
    makes the code unit after it stand for itself. *)
Fixpoint literalOf (pattern : jsstring) : jsstring :=
  match pattern with
  | [] => []
  | c :: pattern' =>
      match pattern' with
      | c' :: pattern'' => if (c =? 92)%N then c' :: literalOf pattern'' else c :: literalOf pattern'
      | [] => [c]
      end
  end.

(** [new RegExp(`(${escapeRegExp(keyword)})`, 'gi')] at the start of [s]:
    the length of the match. *)
Definition keywordAt (keyword s : jsstring) : option nat :=
  let text := literalOf (escapeRegExp keyword) in
  if startsWithFolded s text then Some (length text) else None.

Definition markOpen : jsstring :=
  js "<mark class=" ++ [34%N] ++ js "search-highlight" ++ [34%N] ++ js ">".
Definition markClose : jsstring := js "</mark>".

Definition highlightKeywords (text : jsstring) (keywords : list jsstring)
  : jsstring :=
  fold_left
    (fun highlighted keyword =>
       replaceAll (keywordAt keyword)
         (fun matched => markOpen ++ matched ++ markClose) highlighted)
    keywords text.

(** The loop of [getHighlightedExcerpt] on [firstMatchIndex] ([None]: [-1]). *)
Definition firstMatchStep (contentLower : jsstring)
    (firstMatchIndex : option nat) (keyword : jsstring) : option nat :=
  match indexOf contentLower keyword with
  | Some index =>
      match firstMatchIndex with
      | None => Some index
      | Some first => if (index <? first)%nat then Some index else Some first
      end
  | None => firstMatchIndex
  end.

Definition getHighlightedExcerpt (item : IndexedDocument.t)
    (keywords : list jsstring) (maxLength : nat) : jsstring :=
  let content := IndexedDocument.content item in
  match content with
  | [] => []
  | _ :: _ =>
      match fold_left (firstMatchStep (IndexedDocument.contentLower item))
              keywords None with
      | None =>
          highlightKeywords (substring content 0 maxLength) keywords ++ js "..."
      | Some firstMatchIndex =>
          let start := (firstMatchIndex - 50)%nat in
          let end_ := Nat.min (length content) (start + maxLength) in
          let excerpt := substring content start end_ in
          let excerpt := if (0 <? start)%nat then js "..." ++ excerpt else excerpt in
          let excerpt :=
            if (end_ <? length content)%nat then excerpt ++ js "..." else excerpt in
          highlightKeywords excerpt keywords
      end
  end.

(** The object pushed for a document that matched. *)
Definition resultOf (item : IndexedDocument.t) (keywords : list jsstring)
    (matchScore : float) : ResultItem.t :=
  {| ResultItem.item := item;
     ResultItem.matchScore := matchScore;
     ResultItem.highlightedTitle :=
       highlightKeywords (IndexedDocument.title item) keywords;
     ResultItem.highlightedContent := getHighlightedExcerpt item keywords 150 |}.

(** The [for ... of] loop of [performSearch] over what is left of the index,
    [results] being the array built so far. *)
Fixpoint scanLoop (options : Options) (keywords : list jsstring)
    (searchIndex : list IndexedDocument.t) (results : list ResultItem.t)
  : list ResultItem.t :=
  match searchIndex with
  | [] => results
  | item :: rest =>
      let matchScore := calculateMatchScore item keywords in
      let results :=
        if 0 <? matchScore then results ++ [resultOf item keywords matchScore]
        else results in
      if (maxResults options * 2 <=? length results)%nat then results
      else scanLoop options keywords rest results
  end.

(** The documents on which the body of that loop runs, that is, those
    [calculateMatchScore] is called on; [count] is [results.length]. *)
Fixpoint scannedDocuments (options : Options) (keywords : list jsstring)
    (searchIndex : list IndexedDocument.t) (count : nat)
  : list IndexedDocument.t :=
  match searchIndex with
  | [] => []
  | item :: rest =>
      let count :=
        if 0 <? calculateMatchScore item keywords then S count else count in
      if (maxResults options * 2 <=? count)%nat then [item]
      else item :: scannedDocuments options keywords rest count
  end.

(** [(a, b) => b.matchScore - a.matchScore] *)
Definition compareFn (a b : ResultItem.t) : float :=
  ResultItem.matchScore b - ResultItem.matchScore a.

(** [Array.prototype.sort(compare)], a stable sort: [x] stays before [y]
    unless [compare(x, y) > 0] (a [NaN] counts as [0]). *)
Fixpoint insertSorted {A} (compare : A -> A -> float) (x : A) (l : list A)
  : list A :=
  match l with
  | [] => [x]
  | y :: l' =>
      if 0 <? compare x y then y :: insertSorted compare x l' else x :: l
  end.

Definition sort {A} (compare : A -> A -> float) (l : list A) : list A :=
  fold_right (insertSorted compare) [] l.

Definition performSearch (options : Options) (query : jsstring)
    (searchIndex : list IndexedDocument.t) : list ResultItem.t :=
  let keywords := keywordsOf query in
  let results := scanLoop options keywords searchIndex [] in
  let results := sort compareFn results in
  firstn (maxResults options) results.

End Search.

(** * The widget *)

(** What the result container shows: its [innerHTML], by the method that
    wrote it. *)
Inductive View :=
| Blank                                   (* [''] *)
| LoadingState                            (* [showLoadingState] *)
| EmptyState (query : jsstring)           (* [showEmptyState(query)] *)
| ErrorState                              (* [showErrorState] *)
| ResultList (results : list ResultItem.t). (* [generateResultHTML(results)] *)

(** What a promise can be rejected with, or a [throw] can raise. *)
Inductive Error :=
| HttpError (status : nat)   (* [new Error(`HTTP ${status}: ...`)] *)
| AbortError                 (* the fetch was aborted *)
| NetworkError               (* the fetch failed *)
| SyntaxError                (* the body is not JSON *)
| TypeError.                 (* the JSON is not an array of records *)

(** [error.name === 'AbortError'] *)
Definition isAbortError (error : Error) : bool :=
  match error with AbortError => true | _ => false end.

(** The lines written to the console. *)
Inductive ConsoleLine :=
| WarnElementsNotFound
| LogPreloadFailed
| LogLoadingCancelled
| ErrorLoadFailed (error : Error)
| ErrorSearchFailed (error : Error).

(** The fields of [this]. *)
Record Widget := {
  options : Options;
  searchIndex : option (list IndexedDocument.t);
  searchCache : gmap jsstring (list ResultItem.t);
  isLoading : bool;
  currentQuery : jsstring;
  (** the controller, named by the call of [loadSearchIndex] that made it *)
  abortController : option nat;
  (** the input element, by its [value]; [None] when the page has none *)
  inputElement : option jsstring;
  (** the result container, by what it shows *)
  resultElement : option View
}.

(** Who awaits a call of [loadSearchIndex]. *)
Inductive Caller :=
| Preload                        (* [preloadSearchIndex] *)
| Search (query : jsstring).     (* [handleSearch], with its [query] *)

(** Where a call of [loadSearchIndex] is suspended. *)
Inductive Await :=
| AwaitTimer    (* in the waiting loop, on [setTimeout(resolve, 100)] *)
| AwaitFetch    (* on [fetch(...)] *)
| AwaitJson.    (* on [response.json()] *)

(** Calls of [fetch] and of [performSearch], recorded as they are made. *)
Inductive Effect :=
| Fetched (call : nat)
| Searched (query : jsstring).

(** The widget in its page: [this], the suspended calls of [loadSearchIndex]
    with their callers, the controllers aborted so far, whether the timer of
    the debounced handler is set, and what went out. *)
Record World := {
  this : Widget;
  calls : gmap nat (Caller * Await);
  nextCall : nat;
  aborted : list nat;
  debounceTimer : bool;
  console : list ConsoleLine;
  effects : list Effect;
  (** rejections of promises that nothing awaits *)
  unhandled : list Error
}.

Definition setWidget (f : Widget -> Widget) (w : World) : World :=
  {| this := f (this w); calls := calls w; nextCall := nextCall w;
     aborted := aborted w; debounceTimer := debounceTimer w;
     console := console w; effects := effects w; unhandled := unhandled w |}.

Definition set_searchIndex (v : option (list IndexedDocument.t)) (t : Widget) :=
  {| options := options t; searchIndex := v; searchCache := searchCache t;
     isLoading := isLoading t; currentQuery := currentQuery t;
     abortController := abortController t; inputElement := inputElement t;
     resultElement := resultElement t |}.

Definition set_searchCache (v : gmap jsstring (list ResultItem.t)) (t : Widget) :=
  {| options := options t; searchIndex := searchIndex t; searchCache := v;
     isLoading := isLoading t; currentQuery := currentQuery t;
     abortController := abortController t; inputElement := inputElement t;
     resultElement := resultElement t |}.

Definition set_isLoading (v : bool) (t : Widget) :=
  {| options := options t; searchIndex := searchIndex t;
     searchCache := searchCache t; isLoading := v;
     currentQuery := currentQuery t; abortController := abortController t;
     inputElement := inputElement t; resultElement := resultElement t |}.

Definition set_currentQuery (v : jsstring) (t : Widget) :=
  {| options := options t; searchIndex := searchIndex t;
     searchCache := searchCache t; isLoading := isLoading t;
     currentQuery := v; abortController := abortController t;
     inputElement := inputElement t; resultElement := resultElement t |}.

Definition set_abortController (v : option nat) (t : Widget) :=
  {| options := options t; searchIndex := searchIndex t;
     searchCache := searchCache t; isLoading := isLoading t;
     currentQuery := currentQuery t; abortController := v;
     inputElement := inputElement t; resultElement := resultElement t |}.

Definition set_inputElement (v : option jsstring) (t : Widget) :=
  {| options := options t; searchIndex := searchIndex t;
     searchCache := searchCache t; isLoading := isLoading t;
     currentQuery := currentQuery t; abortController := abortController t;
     inputElement := v; resultElement := resultElement t |}.

Definition set_resultElement (v : option View) (t : Widget) :=
  {| options := options t; searchIndex := searchIndex t;
     searchCache := searchCache t; isLoading := isLoading t;
     currentQuery := currentQuery t; abortController := abortController t;
     inputElement := inputElement t; resultElement := v |}.

Definition set_calls (v : gmap nat (Caller * Await)) (w : World) : World :=
  {| this := this w; calls := v; nextCall := nextCall w; aborted := aborted w;
     debounceTimer := debounceTimer w; console := console w;
     effects := effects w; unhandled := unhandled w |}.

Definition set_nextCall (v : nat) (w : World) : World :=
  {| this := this w; calls := calls w; nextCall := v; aborted := aborted w;
     debounceTimer := debounceTimer w; console := console w;
     effects := effects w; unhandled := unhandled w |}.

Definition set_aborted (v : list nat) (w : World) : World :=
  {| this := this w; calls := calls w; nextCall := nextCall w; aborted := v;
     debounceTimer := debounceTimer w; console := console w;
     effects := effects w; unhandled := unhandled w |}.

Definition set_debounceTimer (v : bool) (w : World) : World :=
  {| this := this w; calls := calls w; nextCall := nextCall w;
     aborted := aborted w; debounceTimer := v; console := console w;
     effects := effects w; unhandled := unhandled w |}.

Definition set_console (v : list ConsoleLine) (w : World) : World :=
  {| this := this w; calls := calls w; nextCall := nextCall w;
     aborted := aborted w; debounceTimer := debounceTimer w; console := v;
     effects := effects w; unhandled := unhandled w |}.

Definition set_effects (v : list Effect) (w : World) : World :=
  {| this := this w; calls := calls w; nextCall := nextCall w;
     aborted := aborted w; debounceTimer := debounceTimer w;
     console := console w; effects := v; unhandled := unhandled w |}.

Definition set_unhandled (v : list Error) (w : World) : World :=
  {| this := this w; calls := calls w; nextCall := nextCall w;
     aborted := aborted w; debounceTimer := debounceTimer w;
     console := console w; effects := effects w; unhandled := v |}.

(** ** Methods as computations on the world *)

(** How a piece of code ends: normally with a value, or by a [throw]. *)
Inductive Completion (A : Type) :=
| Normal (value : A)
| Throw (error : Error).
Arguments Normal {A} value.
Arguments Throw {A} error.

Definition M (A : Type) : Type := World -> Completion A * World.

Definition ret {A} (value : A) : M A := fun w => (Normal value, w).

Definition throw {A} (error : Error) : M A := fun w => (Throw error, w).

Definition bind {A B} (m : M A) (k : A -> M B) : M B :=
  fun w =>
    match m w with
    | (Normal value, w') => k value w'
    | (Throw error, w') => (Throw error, w')
    end.

Declare Scope js_scope.
Delimit Scope js_scope with js.
Notation "x <- m ;; k" := (bind m (fun x => k))
  (at level 100, m at next level, right associativity) : js_scope.
Notation "m ;;; k" := (bind m (fun _ => k))
  (at level 100, right associativity) : js_scope.
Local Open Scope js_scope.

Definition get {A} (field : Widget -> A) : M A := fun w => (Normal (field (this w)), w).

Definition assign (update : Widget -> Widget) : M unit :=
  fun w => (Normal tt, setWidget update w).

Definition consoleWrite (line : ConsoleLine) : M unit :=
  fun w => (Normal tt, set_console (console w ++ [line]) w).

Definition record (effect : Effect) : M unit :=
  fun w => (Normal tt, set_effects (effects w ++ [effect]) w).

(** [try { body } catch (error) { handler }] *)
Definition tryCatch {A} (body : M A) (handler : Error -> M A) : M A :=
  fun w =>
    match body w with
    | (Normal value, w') => (Normal value, w')
    | (Throw error, w') => handler error w'
    end.

(** What a call of an asynchronous function has come to: suspended on an
    [await], or returned. *)
Inductive Outcome (A : Type) :=
| Suspended (on : Await)
| Returned (value : A).
Arguments Suspended {A} on.
Arguments Returned {A} value.

(** [try { body } catch (error) { handler } finally { finalizer }] around a
    body that may suspend: the [catch] and the [finally] blocks run when the
    body is left, by a [return] or a [throw], not when it suspends. *)
Definition tryCatchFinally {A} (body : M (Outcome A)) (handler : Error -> M A)
    (finalizer : M unit) : M (Outcome A) :=
  fun w =>
    match body w with
    | (Normal (Suspended on), w') => (Normal (Suspended on), w')
    | (Normal (Returned value), w') =>
        (finalizer ;;; ret (Returned value)) w'
    | (Throw error, w') =>
        match handler error w' with
        | (Normal value, w'') => (finalizer ;;; ret (Returned value)) w''
        | (Throw error', w'') => (finalizer ;;; throw error') w''
        end
    end.

(** [await] on a promise that has settled. *)
Definition settle {A} (settled : Completion A) : M A := fun w => (settled, w).

(** A JSON value, as far as the widget can tell: an array of records, or
    something [preprocessSearchData] cannot map over. *)
Inductive JsonValue :=
| JsonArray (data : list DocumentRecord.t)
| JsonOther.

(** [response.ok] *)
Definition ok (status : nat) : bool := (200 <=? status)%nat && (status <=? 299)%nat.

Section Methods.
Context {tables : Unicode}.

(** [if (!this.resultElement) return; this.resultElement.innerHTML = ...] *)
Definition writeResult (view : View) : M unit :=
  assign (fun t =>
            match resultElement t with
            | Some _ => set_resultElement (Some view) t
            | None => t
            end).

Definition showLoadingState : M unit := writeResult LoadingState.
Definition showEmptyState (query : jsstring) : M unit := writeResult (EmptyState query).
Definition showErrorState : M unit := writeResult ErrorState.
Definition clearResults : M unit := writeResult Blank.

Definition displayResults (results : list ResultItem.t) (query : jsstring) : M unit :=
  match results with
  | [] => showEmptyState query
  | _ :: _ => writeResult (ResultList results)
  end.

Definition clearSearch : M unit :=
  assign (fun t =>
            match inputElement t with
            | Some _ => set_inputElement (Some []) t
            | None => t
            end) ;;;
  clearResults ;;;
  assign (set_currentQuery []).

(** The [catch] block of [loadSearchIndex]. *)
Definition loadSearchIndex_catch (error : Error)
  : M (option (list IndexedDocument.t)) :=
  if isAbortError error then
    consoleWrite LogLoadingCancelled ;;; ret None
  else
    consoleWrite (ErrorLoadFailed error) ;;;
    showErrorState ;;;
    throw error.

(** The [finally] block of [loadSearchIndex]. *)
Definition loadSearchIndex_finally : M unit :=
  assign (set_isLoading false) ;;;
  assign (set_abortController None).

(** [loadSearchIndex], from its call to its first [await] or its return.
    [call] names the call, and the controller it makes. *)
Definition loadSearchIndex (call : nat)
  : M (Outcome (option (list IndexedDocument.t))) :=
  index <- get searchIndex ;;
  match index with
  | Some index => ret (Returned (Some index))
  | None =>
      loading <- get isLoading ;;
      if loading then ret (Suspended AwaitTimer)
      else
        assign (set_isLoading true) ;;;
        showLoadingState ;;;
        tryCatchFinally
          (assign (set_abortController (Some call)) ;;;
           record (Fetched call) ;;;
           ret (Suspended AwaitFetch))
          loadSearchIndex_catch loadSearchIndex_finally
  end.

(** [loadSearchIndex] in its waiting loop, when the timer has fired. *)
Definition loadSearchIndex_afterTimer
  : M (Outcome (option (list IndexedDocument.t))) :=
  loading <- get isLoading ;;
  if loading then ret (Suspended AwaitTimer)
  else
    index <- get searchIndex ;;
    ret (Returned index).

(** [loadSearchIndex] when [fetch] has settled, with the status of the
    response or an error. *)
Definition loadSearchIndex_afterFetch (settled : Completion nat)
  : M (Outcome (option (list IndexedDocument.t))) :=
  tryCatchFinally
    (status <- settle settled ;;
     if negb (ok status) then throw (HttpError status)
     else ret (Suspended AwaitJson))
    loadSearchIndex_catch loadSearchIndex_finally.

(** [loadSearchIndex] when [response.json()] has settled. *)
Definition loadSearchIndex_afterJson (settled : Completion JsonValue)
  : M (Outcome (option (list IndexedDocument.t))) :=
  tryCatchFinally
    (data <- settle settled ;;
     match data with
     | JsonArray data =>
         assign (set_searchIndex (Some (preprocessSearchData data))) ;;;
         index <- get searchIndex ;;
         ret (Returned index)
     | JsonOther => throw TypeError
     end)
    loadSearchIndex_catch loadSearchIndex_finally.

(** The [try] block of [handleSearch] after its [await]. *)
Definition handleSearch_afterLoad (query : jsstring)
    (index : option (list IndexedDocument.t)) : M unit :=
  current <- get currentQuery ;;
  match index with
  | None => ret tt
  | Some index =>
      if negb (JSString.eqb current query) then ret tt
      else
        opts <- get options ;;
        record (Searched query) ;;;
        let results := performSearch opts query index in
        cache <- get searchCache ;;
        assign (set_searchCache (<[query := results]> cache)) ;;;
        current <- get currentQuery ;;
        if JSString.eqb current query then displayResults results query
        else ret tt
  end.

(** [handleSearch] when the promise of [loadSearchIndex] has settled. *)
Definition handleSearch_resume (query : jsstring)
    (settled : Completion (option (list IndexedDocument.t))) : M unit :=
  tryCatch
    (index <- settle settled ;;
     handleSearch_afterLoad query index)
    (fun error =>
       consoleWrite (ErrorSearchFailed error) ;;;
       showErrorState).

(** [preloadSearchIndex] when the promise of [loadSearchIndex] has settled. *)
Definition preloadSearchIndex_resume
    (settled : Completion (option (list IndexedDocument.t))) : M unit :=
  tryCatch
    (_ <- settle settled ;; ret tt)
    (fun error => consoleWrite LogPreloadFailed).

Definition resume (caller : Caller)
    (settled : Completion (option (list IndexedDocument.t))) : M unit :=
  match caller with
  | Preload => preloadSearchIndex_resume settled
  | Search query => handleSearch_resume query settled
  end.

(** A piece of the call [call] of [loadSearchIndex] has run: the call stays
    suspended, or it settles and its caller goes on. *)
Definition continue (call : nat) (caller : Caller)
    (piece : M (Outcome (option (list IndexedDocument.t)))) : M unit :=
  fun w =>
    match piece w with
    | (Normal (Suspended on), w') =>
        (Normal tt, set_calls (<[call := (caller, on)]> (calls w')) w')
    | (Normal (Returned value), w') =>
        resume caller (Normal value) (set_calls (delete call (calls w')) w')
    | (Throw error, w') =>
        resume caller (Throw error) (set_calls (delete call (calls w')) w')
    end.

(** [await this.loadSearchIndex()] *)
Definition awaitLoadSearchIndex (caller : Caller) : M unit :=
  fun w =>
    let call := nextCall w in
    continue call caller (loadSearchIndex call) (set_nextCall (S call) w).

Definition preloadSearchIndex : M unit :=
  opts <- get options ;;
  if preload opts then awaitLoadSearchIndex Preload else ret tt.

(** [handleSearch(event)], [value] being [event.target.value]. *)
Definition handleSearch (value : jsstring) : M unit :=
  let query := trim value in
  opts <- get options ;;
  if (length query <? minQueryLength opts)%nat then clearResults
  else
    assign (set_currentQuery query) ;;;
    cache <- get searchCache ;;
    match cache !! query with
    | Some results => displayResults results query
    | None => awaitLoadSearchIndex (Search query)
    end.

Definition destroy : M unit :=
  controller <- get abortController ;;
  match controller with
  | Some call => fun w => (Normal tt, set_aborted (call :: aborted w) w)
  | None => ret tt
  end ;;;
  assign (set_searchCache ∅) ;;;
  assign (set_searchIndex None).

(** ** The events of the page *)

(** A task of the event loop: a rejection that nothing handles is reported. *)
Definition run (task : M unit) (w : World) : World :=
  match task w with
  | (Normal _, w') => w'
  | (Throw error, w') => set_unhandled (unhandled w' ++ [error]) w'
  end.

(** [new EnhancedSearch(options)] in a page whose elements are [input] (by its
    value) and [result] (by what it shows), where they exist. *)
Definition construct (userOptions : UserOptions) (input : option jsstring)
    (result : option View) : World :=
  let widget :=
    {| options := mergeOptions userOptions; searchIndex := None;
       searchCache := ∅; isLoading := false; currentQuery := [];
       abortController := None; inputElement := input;
       resultElement := result |} in
  let w :=
    {| this := widget; calls := ∅; nextCall := 0; aborted := [];
       debounceTimer := false; console := []; effects := []; unhandled := [] |} in
  run ((match input, result with
        | Some _, Some _ => ret tt
        | _, _ => consoleWrite WarnElementsNotFound
        end) ;;;
       preloadSearchIndex) w.

Inductive Event :=
| Input (value : jsstring)      (* the user edits the input *)
| DebounceTimeout               (* the timer of the debounced handler fires *)
| Dismiss                       (* Escape, or a click on the close button *)
| FetchSettled (call : nat) (settled : Completion nat)
| JsonSettled (call : nat) (settled : Completion JsonValue)
| TimerFired (call : nat)       (* the 100 ms timer of a waiting call *)
| Destroy.                      (* [destroy()] *)

(** A fetch, or the reading of its body, ends with [AbortError] exactly when
    its controller was aborted; otherwise it ends well or with the failure
    of its kind. *)
Definition maySettle {A} (w : World) (call : nat) (settled : Completion A)
    (failure : Error -> bool) : bool :=
  match settled with
  | Normal _ => bool_decide (call ∉ aborted w)
  | Throw error =>
      if isAbortError error then bool_decide (call ∈ aborted w)
      else bool_decide (call ∉ aborted w) && failure error
  end.

Definition isNetworkError (error : Error) : bool :=
  match error with NetworkError => true | _ => false end.

Definition isSyntaxError (error : Error) : bool :=
  match error with SyntaxError => true | _ => false end.

Definition step (event : Event) (w : World) : option World :=
  match event with
  | Input value =>
      match inputElement (this w) with
      | Some _ =>
          Some (set_debounceTimer true
                  (setWidget (set_inputElement (Some value)) w))
      | None => None
      end
  | DebounceTimeout =>
      match inputElement (this w), debounceTimer w with
      | Some value, true =>
          Some (run (handleSearch value) (set_debounceTimer false w))
      | _, _ => None
      end
  | Dismiss =>
      match inputElement (this w) with
      | Some _ => Some (run clearSearch w)
      | None => None
      end
  | FetchSettled call settled =>
      match calls w !! call with
      | Some (caller, AwaitFetch) =>
          if maySettle w call settled isNetworkError then
            Some (run (continue call caller (loadSearchIndex_afterFetch settled)) w)
          else None
      | _ => None
      end
  | JsonSettled call settled =>
      match calls w !! call with
      | Some (caller, AwaitJson) =>
          if maySettle w call settled isSyntaxError then
            Some (run (continue call caller (loadSearchIndex_afterJson settled)) w)
          else None
      | _ => None
      end
  | TimerFired call =>
      match calls w !! call with
      | Some (caller, AwaitTimer) =>
          Some (run (continue call caller loadSearchIndex_afterTimer) w)
      | _ => None
      end
  | Destroy => Some (run destroy w)
  end.

Fixpoint steps (events : list Event) (w : World) : option World :=
  match events with
  | [] => Some w
  | event :: events' =>
      match step event w with
      | Some w' => steps events' w'
      | None => None
      end
  end.

(** The worlds a widget can come to. *)
Definition reachable (w : World) : Prop :=
  exists userOptions input result events,
    steps events (construct userOptions input result) = Some w.

End Methods.

(** * Notions the properties are stated with *)

Section Notions.
Context {tables : Unicode}.
Local Open Scope float_scope.

(** The test [matchScore > 0] of [performSearch]. *)
Definition matches (keywords : list jsstring) (item : IndexedDocument.t) : bool :=
  0 <? calculateMatchScore item keywords.

(** The result pushed for a document. *)
Definition resultFor (keywords : list jsstring) (item : IndexedDocument.t)
  : ResultItem.t :=
  resultOf item keywords (calculateMatchScore item keywords).

(** Some keyword is in the lower-cased title or content of the document. *)
Definition containsKeyword (keywords : list jsstring) (item : IndexedDocument.t) : bool :=
  existsb (fun keyword =>
             includes (IndexedDocument.titleLower item) keyword
             || includes (IndexedDocument.contentLower item) keyword) keywords.

End Notions.

Definition positiveResult (r : ResultItem.t) : Prop :=
  JSNumber.positive_number (ResultItem.matchScore r).

(** [a] may stand before [b] in a descending order of [matchScore]. *)
Definition descending (a b : ResultItem.t) : Prop :=
  (ResultItem.matchScore b <=? ResultItem.matchScore a)%float = true.

(** The results whose [matchScore] is [v]. *)
Definition scored (v : float) (r : ResultItem.t) : bool :=
  (ResultItem.matchScore r =? v)%float.

(** No match of [<[^>]+>] is left anywhere in [s]. *)
Definition tagFree (s : jsstring) : Prop :=
  forall i : nat, tagAt (skipn i s) = None.

(** The match score as the specification words it: what one token adds to the
    sum, ... *)
Definition documentedTerm (titleLower contentLower : jsstring) (weight : float)
    (sum : float) (token : jsstring) : float :=
  let sum := if includes titleLower token then (sum + 10 * weight)%float else sum in
  let sum := if JSString.eqb titleLower token then (sum + 20)%float else sum in
  let sum := if includes contentLower token then (sum + 1 * weight)%float else sum in
  sum.

(** ... and the sum over the tokens times the coverage, or zero when no token
    matched either field. *)
Definition documentedScore (titleLower contentLower : jsstring) (weight : float)
    (tokens : list jsstring) : float :=
  let titleMatchCount := length (List.filter (includes titleLower) tokens) in
  let contentMatchCount := length (List.filter (includes contentLower) tokens) in
  if (titleMatchCount + contentMatchCount =? 0)%nat then 0%float
  else
    (fold_left (documentedTerm titleLower contentLower weight) tokens 0
     * (number (titleMatchCount + contentMatchCount) / number (length tokens)))%float.

(** ** What the container shows *)

(** What [displayResults(results, query)] writes. *)
Definition rendered (results : list ResultItem.t) (query : jsstring) : View :=
  match results with
  | [] => EmptyState query
  | _ :: _ => ResultList results
  end.

(** The result container after [view] is written to it, where the page has one. *)
Definition written (view : View) (element : option View) : option View :=
  match element with
  | Some _ => Some view
  | None => None
  end.

(** ** The invariant of the widget *)

(** A call that holds the load: it awaits the fetch or its body. *)
Definition loads (on : Await) : bool :=
  match on with
  | AwaitTimer => false
  | AwaitFetch | AwaitJson => true
  end.

Section Invariant.
Context {tables : Unicode}.

(** What holds of the widget whatever the page does. *)
Record consistent (w : World) : Prop := {
  calls_fresh : forall call x, calls w !! call = Some x -> call < nextCall w;
  load_isLoading : forall call caller on,
      calls w !! call = Some (caller, on) -> loads on = true ->
      isLoading (this w) = true;
  load_unique : forall call1 call2 caller1 caller2 on1 on2,
      calls w !! call1 = Some (caller1, on1) -> loads on1 = true ->
      calls w !! call2 = Some (caller2, on2) -> loads on2 = true ->
      call1 = call2;
  isLoading_no_index : isLoading (this w) = true -> searchIndex (this w) = None;
  queries_long : forall call query on,
      calls w !! call = Some (Search query, on) ->
      minQueryLength (options (this w)) <= length query;
  cache_of_index : forall query results,
      searchCache (this w) !! query = Some results ->
      minQueryLength (options (this w)) <= length query /\
      exists index, searchIndex (this w) = Some index /\
                    results = performSearch (options (this w)) query index
}.

End Invariant.

(** The world after [events], or the world itself where they cannot happen. *)
Definition after {tables : Unicode} (events : list Event) (w : World) : World :=
  default w (steps events w).

(** ** Pages and indexes of the examples *)

(** A document that contains ["learn"]. *)
Definition learnDocument (id : nat) : IndexedDocument.t :=
  {| IndexedDocument.id := id;
     IndexedDocument.title := js "Go Basics";
     IndexedDocument.content := js "Learn concurrency";
     IndexedDocument.url := js "/b";
     IndexedDocument.titleLower := js "go basics";
     IndexedDocument.contentLower := js "learn concurrency";
     IndexedDocument.weight := 1 |}.

(** The index of the example of the specification. *)
Definition sampleData : list DocumentRecord.t :=
  [ DocumentRecord.mk (Some (js "Rust Guide"))
      (Some (js "Learn systems programming")) (js "/a");
    DocumentRecord.mk (Some (js "Go Basics"))
      (Some (js "Learn concurrency")) (js "/b") ].

Definition sampleIndex : list IndexedDocument.t :=
  preprocessSearchData (tables := ascii_tables) sampleData.

(** A page with both elements, the widget made with no options: the
    constructor starts the preload, call 0. *)
Definition page : World :=
  construct (tables := ascii_tables) noOptions (Some []) (Some Blank).

(** The options of a widget made with [maxResults: 1]. *)
Definition oneResult : Options :=
  mergeOptions
    {| user_searchPath := None; user_inputId := None; user_resultId := None;
       user_debounceTime := None; user_maxResults := Some 1;
       user_minQueryLength := None; user_preload := None |}.

(** The options of a widget made with [maxResults: 0]. *)
Definition noResult : Options :=
  mergeOptions
    {| user_searchPath := None; user_inputId := None; user_resultId := None;
       user_debounceTime := None; user_maxResults := Some 0;
       user_minQueryLength := None; user_preload := None |}.

(** * The rest of the widget *)

Section MoreMethods.
Context {tables : Unicode}.

(** [handleKeyNavigation(event)], [key] being [event.key]. *)
Definition handleKeyNavigation (key : jsstring) : M unit :=
  if JSString.eqb key (js "Escape") then clearSearch else ret tt.

(** [getEnhancedSearchFile(options)], [path] being [options.path] and
    [options] the other keys of the object, in a page whose elements are
    [input] and [result]: the object handed to the constructor is
    [{ searchPath, inputId: ..., resultId: ..., ...options }]. *)
Definition getEnhancedSearchFile (path : option jsstring) (options : UserOptions)
    (input : option jsstring) (result : option View) : World :=
  let searchPath := orElse path (js "/search.json") in
  construct
    {| user_searchPath := Some (default searchPath (user_searchPath options));
       user_inputId :=
         Some (default (js "local-search-input") (user_inputId options));
       user_resultId :=
         Some (default (js "local-search-result") (user_resultId options));
       user_debounceTime := user_debounceTime options;
       user_maxResults := user_maxResults options;
       user_minQueryLength := user_minQueryLength options;
       user_preload := user_preload options |}
    input result.

End MoreMethods.

(** ** More notions on the widget *)

(** [isLoading] and [abortController] go with the call that holds the load. *)
Definition holdsLoad (w : World) : Prop :=
  if isLoading (this w) then
    exists call caller on,
      abortController (this w) = Some call /\
      calls w !! call = Some (caller, on) /\ loads on = true
  else abortController (this w) = None.

(** The event lets the call [call] of [loadSearchIndex] go on. *)
Definition resumes (call : nat) (event : Event) : bool :=
  match event with
  | FetchSettled c _ | JsonSettled c _ | TimerFired c => (c =? call)%nat
  | Input _ | DebounceTimeout | Dismiss | Destroy => false
  end.

(** What the console gets when a load fails with [error]: the line of
    [loadSearchIndex], then the line of the caller that awaited it. *)
Definition reported (caller : Caller) (error : Error) : list ConsoleLine :=
  [ ErrorLoadFailed error;
    match caller with
    | Preload => LogPreloadFailed
    | Search _ => ErrorSearchFailed error
    end ].

(** On [event], the load the call [call] holds for [caller] fails with
    [error]: the container shows the error state, the loader is reset, the
    index is left as it was, the failure is reported and handled. *)
Definition failsWith {tables : Unicode} (w : World) (call : nat) (caller : Caller)
    (event : Event) (error : Error) : Prop :=
  exists w',
    step event w = Some w' /\
    resultElement (this w') = written ErrorState (resultElement (this w)) /\
    isLoading (this w') = false /\
    abortController (this w') = None /\
    searchIndex (this w') = searchIndex (this w) /\
    calls w' = delete call (calls w) /\
    console w' = console w ++ reported caller error /\
    unhandled w' = unhandled w.

(** ** More pages of the examples *)

(** A page with both elements, the widget made with [preload: false]: the
    constructor fetches nothing. *)
Definition lazyPage : World :=
  construct (tables := ascii_tables)
    {| user_searchPath := None; user_inputId := None; user_resultId := None;
       user_debounceTime := None; user_maxResults := None;
       user_minQueryLength := None; user_preload := Some false |}
    (Some []) (Some Blank).

(** The page of the examples once the preload has brought the index. *)
Definition loadedPage : World :=
  after (tables := ascii_tables)
    [ FetchSettled 0 (Normal 200); JsonSettled 0 (Normal (JsonArray sampleData)) ]
    page.

(** * The menu of the theme: the script that opens and closes it

    The script keeps a flag, [menuClickFlag], and adds or removes classes on
    five nodes of the page: the three child nodes of the menu icon, the
    element [nav] and the element [menu-outer].  The page is the store of
    its elements, each with its class list; the nodes are named by numbers,
    so that two references may name the same node. *)

Module Menu.

(** A [DOMTokenList]: the class names of an element, in order, none twice. *)
Definition ClassList : Type := list jsstring.

Definition contains (classList : ClassList) (token : jsstring) : bool :=
  existsb (JSString.eqb token) classList.

(** The list with [token] appended, unless it is there. *)
Definition withToken (classList : ClassList) (token : jsstring) : ClassList :=
  if contains classList token then classList else classList ++ [token].

(** The list with [token] taken out. *)
Definition withoutToken (classList : ClassList) (token : jsstring) : ClassList :=
  List.filter (fun t => negb (JSString.eqb token t)) classList.

(** How a piece of the script ends: normally, or by an exception, a
    [TypeError] at a property read on [undefined] or [null], or the
    [SyntaxError] or [InvalidCharacterError] of a [DOMTokenList] that is
    given a token it refuses. *)
Inductive Ending :=
| Done
| TypeErrorThrown
| SyntaxErrorThrown
| InvalidCharacterErrorThrown.

(** ASCII white space: tab, line feed, form feed, carriage return, space. *)
Definition isAsciiWhitespace (c : N) : bool :=
  ((c =? 9) || (c =? 10) || (c =? 12) || (c =? 13) || (c =? 32))%N.

(** The check of the token at the head of [add] and [remove]: the empty
    string is a [SyntaxError], a token with ASCII white space an
    [InvalidCharacterError]. *)
Definition validate (token : jsstring) : Ending :=
  match token with
  | [] => SyntaxErrorThrown
  | _ :: _ =>
      if existsb isAsciiWhitespace token then InvalidCharacterErrorThrown else Done
  end.

(** [classList.add(token)]: how it ends, and the list it leaves. *)
Definition add (classList : ClassList) (token : jsstring) : Ending * ClassList :=
  match validate token with
  | Done => (Done, withToken classList token)
  | thrown => (thrown, classList)
  end.

(** [classList.remove(token)] *)
Definition remove (classList : ClassList) (token : jsstring) : Ending * ClassList :=
  match validate token with
  | Done => (Done, withoutToken classList token)
  | thrown => (thrown, classList)
  end.

Record Page := {
  (** the global [isHome] *)
  isHome : bool;
  (** the elements of the page with their class lists; a node that is not
      here, a text node for one, has no [classList] *)
  classLists : gmap nat ClassList;
  (** [document.getElementsByClassName("menu-icon")[0]], by its [childNodes];
      [None] when no element has the class *)
  menuIcon : option (list nat);
  (** [document.getElementById("nav")] *)
  nav : option nat;
  (** [document.getElementById("menu-outer")] *)
  menuOuter : option nat;
  (** [menuOuter.style.backgroundColor], where the script has set it *)
  backgroundColor : option jsstring;
  menuClickFlag : nat;
  (** [menuIcon.onclick] is set *)
  onclickSet : bool;
  (** the listener of [scroll] is registered *)
  scrollListening : bool
}.

Definition set_classLists (v : gmap nat ClassList) (p : Page) : Page :=
  {| isHome := isHome p; classLists := v; menuIcon := menuIcon p; nav := nav p;
     menuOuter := menuOuter p; backgroundColor := backgroundColor p;
     menuClickFlag := menuClickFlag p; onclickSet := onclickSet p;
     scrollListening := scrollListening p |}.

Definition set_menuClickFlag (v : nat) (p : Page) : Page :=
  {| isHome := isHome p; classLists := classLists p; menuIcon := menuIcon p;
     nav := nav p; menuOuter := menuOuter p;
     backgroundColor := backgroundColor p; menuClickFlag := v;
     onclickSet := onclickSet p; scrollListening := scrollListening p |}.

Definition set_backgroundColor (v : option jsstring) (p : Page) : Page :=
  {| isHome := isHome p; classLists := classLists p; menuIcon := menuIcon p;
     nav := nav p; menuOuter := menuOuter p; backgroundColor := v;
     menuClickFlag := menuClickFlag p; onclickSet := onclickSet p;
     scrollListening := scrollListening p |}.

Definition set_onclickSet (v : bool) (p : Page) : Page :=
  {| isHome := isHome p; classLists := classLists p; menuIcon := menuIcon p;
     nav := nav p; menuOuter := menuOuter p;
     backgroundColor := backgroundColor p; menuClickFlag := menuClickFlag p;
     onclickSet := v; scrollListening := scrollListening p |}.

Definition set_scrollListening (v : bool) (p : Page) : Page :=
  {| isHome := isHome p; classLists := classLists p; menuIcon := menuIcon p;
     nav := nav p; menuOuter := menuOuter p;
     backgroundColor := backgroundColor p; menuClickFlag := menuClickFlag p;
     onclickSet := onclickSet p; scrollListening := v |}.

(** A piece of the script on the page; when it throws, what it wrote before
    stays written. *)
Definition Script : Type := Page -> Ending * Page.

Definition andThen (s1 s2 : Script) : Script :=
  fun p =>
    match s1 p with
    | (Done, p') => s2 p'
    | (thrown, p') => (thrown, p')
    end.

Declare Scope menu_scope.
Delimit Scope menu_scope with menu.
Notation "s1 ;;; s2" := (andThen s1 s2)
  (at level 100, right associativity) : menu_scope.
Local Open Scope menu_scope.

(** A method of the class list of [node] has run: the list it leaves is the
    class list of the node, unless it threw. *)
Definition updateClassList (node : nat) (result : Ending * ClassList) : Script :=
  fun p =>
    match result with
    | (Done, classList) =>
        (Done, set_classLists (<[node := classList]> (classLists p)) p)
    | (thrown, _) => (thrown, p)
    end.

(** [modifyClass(obj, className, op)]; [obj] is [None] for [undefined] and
    [null]. *)
Definition modifyClass (obj : option nat) (className : jsstring) (op : nat)
  : Script :=
  fun p =>
    match obj with
    | None => (TypeErrorThrown, p)
    | Some node =>
        match classLists p !! node with
        | None => (TypeErrorThrown, p)
        | Some classList =>
            if (op =? 1)%nat then
              updateClassList node (add classList className) p
            else if contains classList className then
              updateClassList node (remove classList className) p
            else (Done, p)
        end
    end.

Definition newFirstLine : jsstring := js "newFirstLine".
Definition newSecondLine : jsstring := js "newSecondLine".
Definition newThirdLine : jsstring := js "newThirdLine".
Definition newNav : jsstring := js "newNav".
Definition newMenuOuter : jsstring := js "newMenuOuter".
Definition newMenuOuterColor : jsstring := js "newMenuOuterColor".

(** [menuIcon.onclick], [childNodes] being [this.childNodes]. *)
Definition onclick (childNodes : list nat) : Script :=
  fun p =>
    let first := childNodes !! 0%nat in
    let second := childNodes !! 1%nat in
    let third := childNodes !! 2%nat in
    let nav := nav p in
    if (menuClickFlag p =? 0)%nat then
      (modifyClass second newSecondLine 1 ;;;
       modifyClass first newFirstLine 1 ;;;
       modifyClass third newThirdLine 1 ;;;
       modifyClass nav newNav 1 ;;;
       modifyClass (menuOuter p) newMenuOuter 1 ;;;
       fun p => (Done, set_menuClickFlag 1 p)) p
    else
      (modifyClass second newSecondLine 0 ;;;
       modifyClass first newFirstLine 0 ;;;
       modifyClass third newThirdLine 0 ;;;
       modifyClass nav newNav 0 ;;;
       (fun p => (Done, set_menuClickFlag 0 p)) ;;;
       modifyClass (menuOuter p) newMenuOuter 0) p.

(** The listener of [scroll], [scrollY] being [window.scrollY]. *)
Definition onscroll (scrollY : float) : Script :=
  fun p =>
    if isHome p then
      if (0 <? scrollY)%float then modifyClass (menuOuter p) newMenuOuterColor 1 p
      else modifyClass (menuOuter p) newMenuOuterColor 0 p
    else (Done, p).

(** The script as the page loads it, from its first line to its last. *)
Definition main : Script :=
  (fun p => (Done, set_menuClickFlag 0 p)) ;;;
  (fun p =>
     if negb (isHome p) then
       match menuOuter p with
       | Some _ => (Done, set_backgroundColor (Some (js "#191919")) p)
       | None => (TypeErrorThrown, p)
       end
     else (Done, p)) ;;;
  (fun p =>
     match menuIcon p with
     | Some _ => (Done, set_onclickSet true p)
     | None => (TypeErrorThrown, p)
     end) ;;;
  (fun p => (Done, set_scrollListening true p)).

(** The events of the page the script listens to. *)
Inductive Event :=
| Click                       (* a click on the menu icon *)
| Scroll (scrollY : float).   (* the window is scrolled *)

(** An event on the page: the handler runs, where one is set. *)
Definition step (event : Event) (p : Page) : Page :=
  match event with
  | Click =>
      match menuIcon p, onclickSet p with
      | Some childNodes, true => snd (onclick childNodes p)
      | _, _ => p
      end
  | Scroll scrollY =>
      if scrollListening p then snd (onscroll scrollY p) else p
  end.

Definition steps (events : list Event) (p : Page) : Page :=
  fold_left (fun p event => step event p) events p.

(** The class list of a node, empty for a node that has none. *)
Definition classesOf (p : Page) (obj : option nat) : ClassList :=
  match obj with
  | Some node => default ([] : ClassList) (classLists p !! node)
  | None => []
  end.

(** [obj] is an element of the page. *)
Definition isElement (p : Page) (obj : option nat) : Prop :=
  exists node classList, obj = Some node /\ classLists p !! node = Some classList.

(** The five nodes a click writes to, with the class of each. *)
Definition targets (p : Page) (childNodes : list nat)
  : list (option nat * jsstring) :=
  [ (childNodes !! 1%nat, newSecondLine);
    (childNodes !! 0%nat, newFirstLine);
    (childNodes !! 2%nat, newThirdLine);
    (nav p, newNav);
    (menuOuter p, newMenuOuter) ].

(** The class lists after [change] has been applied at each of [targets], in
    order, with the class of the target. *)
Definition alterAll (change : ClassList -> jsstring -> ClassList)
    (targets : list (option nat * jsstring)) (classLists : gmap nat ClassList)
  : gmap nat ClassList :=
  fold_left
    (fun m target =>
       match fst target with
       | Some node => alter (fun classList => change classList (snd target)) node m
       | None => m
       end)
    targets classLists.

(** What [modifyClass] does to a class list, with a class name that passes
    the check. *)
Definition change (op : nat) (classList : ClassList) (className : jsstring)
  : ClassList :=
  if (op =? 1)%nat then withToken classList className
  else withoutToken classList className.

(** The classes of the targets that name [node], in order. *)
Definition classesAt (node : nat) (targets : list (option nat * jsstring))
  : list jsstring :=
  List.map snd
    (List.filter
       (fun target =>
          match fst target with
          | Some node' => (node' =? node)%nat
          | None => false
          end)
       targets).

(** [q] has the nodes of [p]: the same elements, whatever their classes, and
    the same fields apart from the class lists and the flag. *)
Definition sameNodes (p q : Page) : Prop :=
  isHome q = isHome p /\ menuIcon q = menuIcon p /\ nav q = nav p /\
  menuOuter q = menuOuter p /\ onclickSet q = onclickSet p /\
  scrollListening q = scrollListening p /\
  backgroundColor q = backgroundColor p /\
  forall node, classLists q !! node = None <-> classLists p !! node = None.

(** ** Pages of the examples *)

(** A home page whose script has run: the icon has three lines, the nodes 0,
    1 and 2; [nav] is the node 3 and [menu-outer] the node 4. *)
Definition samplePage : Page :=
  {| isHome := true;
     classLists :=
       list_to_map
         [ (0%nat, [js "line"]); (1%nat, [js "line"]); (2%nat, [js "line"]);
           (3%nat, [js "nav"]); (4%nat, [js "menu-outer"; js "fixed"]) ];
     menuIcon := Some [0; 1; 2]%nat;
     nav := Some 3%nat;
     menuOuter := Some 4%nat;
     backgroundColor := None;
     menuClickFlag := 0;
     onclickSet := true;
     scrollListening := true |}.

(** The same page with white space between the lines of the icon: the child
    nodes 5, 6 and 7 are text nodes. *)
Definition spacedPage : Page :=
  {| isHome := true;
     classLists := classLists samplePage;
     menuIcon := Some [5; 0; 6; 1; 7; 2]%nat;
     nav := Some 3%nat;
     menuOuter := Some 4%nat;
     backgroundColor := None;
     menuClickFlag := 0;
     onclickSet := true;
     scrollListening := true |}.

End Menu.

(** * The debounced handler

    [debounce(func, wait)] returns a function that keeps one variable,
    [timeout], and talks to the timers of the host: [setTimeout] registers a
    callback under a new number and returns the number, [clearTimeout]
    drops the callback registered under a number, if there is one, and a
    timer that fires is dropped and its callback runs.  The callbacks the
    function registers are its closures [later], one for each [args]. *)

Module Debounce.

Section Debounced.
Context {Args : Type}.

Record State := {
  (** the variable [timeout]; [None] for [undefined] *)
  timeout : option nat;
  (** the timers of the host that are set, with the [args] of their [later] *)
  timers : gmap nat Args;
  (** the number the next timer of the host gets *)
  nextTimer : nat;
  (** the calls of [func], with their arguments, in order *)
  invoked : list Args
}.

Definition set_timeout (v : option nat) (s : State) : State :=
  {| timeout := v; timers := timers s; nextTimer := nextTimer s;
     invoked := invoked s |}.

Definition set_timers (v : gmap nat Args) (s : State) : State :=
  {| timeout := timeout s; timers := v; nextTimer := nextTimer s;
     invoked := invoked s |}.

(** [clearTimeout(id)] *)
Definition clearTimeout (id : option nat) (s : State) : State :=
  match id with
  | Some id => set_timers (delete id (timers s)) s
  | None => s
  end.

(** [setTimeout(later, wait)], [later] being the closure over [args]: the
    number of the timer, and the state with the timer set. *)
Definition setTimeout (args : Args) (s : State) : nat * State :=
  (nextTimer s,
   {| timeout := timeout s; timers := <[nextTimer s := args]> (timers s);
      nextTimer := S (nextTimer s); invoked := invoked s |}).

(** [func(...args)] *)
Definition func (args : Args) (s : State) : State :=
  {| timeout := timeout s; timers := timers s; nextTimer := nextTimer s;
     invoked := invoked s ++ [args] |}.

(** [later], the closure over [args] *)
Definition later (args : Args) (s : State) : State :=
  let s := clearTimeout (timeout s) s in
  func args s.

(** [executedFunction(...args)] *)
Definition executedFunction (args : Args) (s : State) : State :=
  let s := clearTimeout (timeout s) s in
  let '(id, s) := setTimeout args s in
  set_timeout (Some id) s.

(** What happens to the function and to the timers. *)
Inductive Event :=
| Call (args : Args)    (* the function [debounce] returned is called *)
| Fire (id : nat)       (* the host fires the timer [id] *)
| OtherTimer.           (* other code sets a timer of its own *)

Definition step (event : Event) (s : State) : option State :=
  match event with
  | Call args => Some (executedFunction args s)
  | Fire id =>
      match timers s !! id with
      | Some args => Some (later args (set_timers (delete id (timers s)) s))
      | None => None
      end
  | OtherTimer =>
      Some {| timeout := timeout s; timers := timers s;
              nextTimer := S (nextTimer s); invoked := invoked s |}
  end.

Fixpoint steps (events : list Event) (s : State) : option State :=
  match events with
  | [] => Some s
  | event :: events' =>
      match step event s with
      | Some s' => steps events' s'
      | None => None
      end
  end.

(** [debounce(func, wait)] has returned: [timeout] is [undefined] and no
    timer of the function is set. *)
Definition debounce (firstTimer : nat) : State :=
  {| timeout := None; timers := ∅; nextTimer := firstTimer; invoked := [] |}.

(** The function is called with each of [calls] in turn. *)
Definition burst (calls : list Args) (s : State) : State :=
  fold_left (fun s args => executedFunction args s) calls s.

(** The timers of the function that are set: none, or the one [timeout]
    names; and the host has given out the numbers up to [nextTimer]. *)
Definition oneTimer (s : State) : Prop :=
  (forall id args, timers s !! id = Some args -> timeout s = Some id) /\
  (forall id args, timers s !! id = Some args -> id < nextTimer s).

End Debounced.

Arguments State Args : clear implicits.
Arguments Event Args : clear implicits.

End Debounce.

(** * Tactics *)

(** One step of the loop, on a document that matches or not. *)
Ltac scan_step item :=
  simpl;
  repeat match goal with
  | |- context [PrimFloat.ltb 0 (calculateMatchScore item ?kw)] =>
      change (PrimFloat.ltb 0 (calculateMatchScore item kw)) with (matches kw item)
  end;
  let Hpos := fresh "Hpos" in
  destruct (matches _ item) eqn:Hpos; cbv iota;
  let Hcut := fresh "Hcut" in
  match goal with
  | |- context [Nat.leb ?a ?b] => destruct (Nat.leb_spec0 a b) as [Hcut|Hcut]
  end;
  simpl; rewrite ?Hpos; simpl.

(** The setters unfold when they are applied. *)
Arguments setWidget f w /.
Arguments set_searchIndex v t /.
Arguments set_searchCache v t /.
Arguments set_isLoading v t /.
Arguments set_currentQuery v t /.
Arguments set_abortController v t /.
Arguments set_inputElement v t /.
Arguments set_resultElement v t /.
Arguments set_calls v w /.
Arguments set_nextCall v w /.
Arguments set_aborted v w /.
Arguments set_debounceTimer v w /.
Arguments set_console v w /.
Arguments set_effects v w /.
Arguments set_unhandled v w /.

(** Running a method on a world whose fields are known: reduce, and split on
    the tests the code makes. *)
Ltac js_reduce :=
  cbv beta delta
    [bind ret throw get assign consoleWrite record tryCatch tryCatchFinally
     settle run writeResult showLoadingState showEmptyState showErrorState
     clearResults displayResults clearSearch loadSearchIndex_catch
     loadSearchIndex_finally loadSearchIndex loadSearchIndex_afterTimer
     loadSearchIndex_afterFetch loadSearchIndex_afterJson
     handleSearch_afterLoad handleSearch_resume preloadSearchIndex_resume
     resume continue awaitLoadSearchIndex preloadSearchIndex handleSearch
     destroy] in *;
  cbn -[Nat.ltb Nat.leb performSearch preprocessSearchData trim
        JSString.eqb lookup insert delete elem_of bool_decide] in *.

Ltac js_case :=
  match goal with
  | |- context [if ?c then _ else _] =>
      lazymatch c with
      | context [if _ then _ else _] => fail
      | context [match _ with _ => _ end] => fail
      | _ => let E := fresh "E" in destruct c eqn:E
      end
  | |- context [match ?x with _ => _ end] =>
      lazymatch x with
      | context [if _ then _ else _] => fail
      | context [match _ with _ => _ end] => fail
      | _ => let E := fresh "E" in destruct x eqn:E
      end
  end.

Ltac js_run := js_reduce; repeat (js_case; js_reduce).

Ltac map_cases :=
  repeat match goal with
  | Hl : <[_ := _]> _ !! _ = Some _ |- _ =>
      apply lookup_insert_Some in Hl as [[? ?]|[? ?]]
  | Hl : delete _ _ !! _ = Some _ |- _ =>
      apply lookup_delete_Some in Hl as [? ?]
  | Hl : ∅ !! _ = Some _ |- _ => rewrite lookup_empty in Hl; discriminate
  | Hl : (_ <? _)%nat = false |- _ => apply Nat.ltb_ge in Hl
  | Hl : (_ <? _)%nat = true |- _ => apply Nat.ltb_lt in Hl
  | Hl : loads AwaitTimer = true |- _ => discriminate Hl
  end.

Ltac learn p :=
  let T := type of p in
  lazymatch goal with
  | _ : T |- _ => fail
  | _ => pose proof p
  end.

(** What the invariant of the world before says of the calls and of the
    cache entries at hand. *)
Ltac saturate :=
  repeat match goal with
  | Hf : (forall call x, ?cs !! call = Some x -> call < _),
    Hc : ?cs !! ?c = Some ?x |- _ => learn (Hf c x Hc)
  | Hl : (forall call caller on, ?cs !! call = Some (caller, on) -> loads on = true -> _),
    Hc : ?cs !! ?c = Some (?caller, ?on), Ho : loads ?on = true |- _ =>
      learn (Hl c caller on Hc Ho)
  | Hl : (forall call caller on, ?cs !! call = Some (caller, on) -> loads on = true -> _),
    Hc : ?cs !! ?c = Some (?caller, AwaitFetch) |- _ =>
      learn (Hl c caller AwaitFetch Hc eq_refl)
  | Hl : (forall call caller on, ?cs !! call = Some (caller, on) -> loads on = true -> _),
    Hc : ?cs !! ?c = Some (?caller, AwaitJson) |- _ =>
      learn (Hl c caller AwaitJson Hc eq_refl)
  | Hq : (forall call query on, ?cs !! call = Some (Search query, on) -> _),
    Hc : ?cs !! ?c = Some (Search ?q, ?on) |- _ => learn (Hq c q on Hc)
  | Hk : (forall query results, ?cache !! query = Some results -> _),
    Hc : ?cache !! ?q = Some ?r |- _ => learn (Hk q r Hc)
  | Hi : ?b = true -> _, Hb : ?b = true |- _ => learn (Hi Hb)
  end.

Ltac unique_call :=
  match goal with
  | Hu : (forall call1 call2 caller1 caller2 on1 on2,
             ?cs !! call1 = Some (caller1, on1) -> loads on1 = true ->
             ?cs !! call2 = Some (caller2, on2) -> loads on2 = true -> call1 = call2),
    H1 : ?cs !! ?c1 = Some (?k1, ?o1), H2 : ?cs !! ?c2 = Some (?k2, ?o2)
    |- ?c1 = ?c2 =>
      apply (Hu c1 c2 k1 k2 o1 o2 H1 ltac:(first [assumption|reflexivity])
               H2 ltac:(first [assumption|reflexivity]))
  | Hu : (forall call1 call2 caller1 caller2 on1 on2,
             ?cs !! call1 = Some (caller1, on1) -> loads on1 = true ->
             ?cs !! call2 = Some (caller2, on2) -> loads on2 = true -> call1 = call2),
    H1 : ?cs !! ?c1 = Some (?k1, ?o1), H2 : ?cs !! ?c2 = Some (?k2, ?o2)
    |- _ =>
      lazymatch c1 with
      | c2 => fail
      | _ =>
        assert (c1 = c2)
          by (apply (Hu c1 c2 k1 k2 o1 o2 H1 ltac:(first [assumption|reflexivity])
                       H2 ltac:(first [assumption|reflexivity])));
        congruence
      end
  end.

Ltac consistent_leaf :=
  split; cbn -[Nat.ltb Nat.leb performSearch preprocessSearchData trim
               JSString.eqb lookup insert delete elem_of bool_decide];
  intros; map_cases; simplify_eq; saturate;
  repeat match goal with
  | Hx : _ /\ _ |- _ => destruct Hx
  | Hx : exists _, _ |- _ => destruct Hx
  end;
  simplify_eq;
  first [ discriminate | lia | congruence | unique_call
        | solve [eauto 3]
        | solve [split; [lia|eexists; split; [reflexivity|congruence]]] ].

(** Closed statements about a concrete page are settled by running it. *)
Ltac run_page :=
  repeat match goal with |- _ /\ _ => split end;
  try (vm_compute; reflexivity).

(** A step that happens: which event, on which call. *)
Ltac open_step :=
  repeat match goal with
  | |- context [match ?inp with Some _ => _ | None => _ end] =>
      is_var inp; destruct inp
  | |- context [if ?deb then _ else _] => is_var deb; destruct deb
  | |- context [?cs !! ?c] =>
      is_var cs; let E := fresh "Ecall" in
      destruct (cs !! c) as [[? []]|] eqn:E
  | |- context [maySettle ?a ?b ?c ?d] => destruct (maySettle a b c d)
  end;
  try discriminate;
  let E := fresh in intros E; injection E as <-.

(** The call that holds the load after a step: the call just made, the call
    that held it before, or that call gone on to read the body. *)
Ltac holder_leaf :=
  cbn -[Nat.ltb Nat.leb performSearch preprocessSearchData trim
        JSString.eqb lookup insert delete elem_of bool_decide];
  try reflexivity; try assumption;
  first
    [ eexists _, _, _; split; [reflexivity|]; split; [apply lookup_insert_eq|reflexivity]
    | match goal with
      | Hh : exists _, _ |- _ =>
          let c := fresh "c" in let k := fresh "k" in let o := fresh "o" in
          let Hc := fresh "Hc" in let Ho := fresh "Ho" in let Ha := fresh "Ha" in
          destruct Hh as (c & k & o & Ha & Hc & Ho);
          exists c, k, o; split; [exact Ha|]; split; [|exact Ho];
          repeat first
            [ rewrite lookup_insert_ne
            | rewrite lookup_delete_ne ];
          first [ exact Hc
                | intros <-;
                  match goal with
                  | Hf : forall call x, _ !! call = Some x -> call < _ |- _ =>
                      pose proof (Hf _ _ Hc); lia
                  end
                | intros <-; rewrite Hc in *; simplify_eq; discriminate Ho
                | intros <-; congruence ]
      end
    | match goal with
      | Hh : exists _, _, Hu : forall call1 call2 caller1 caller2 on1 on2, _,
        He : ?cs !! ?call = Some (_, AwaitFetch)
        |- context [<[?call := _]> ?cs] =>
          let c := fresh "c" in let k := fresh "k" in let o := fresh "o" in
          let Hc := fresh "Hc" in let Ho := fresh "Ho" in let Ha := fresh "Ha" in
          destruct Hh as (c & k & o & Ha & Hc & Ho);
          pose proof (Hu c call _ _ _ _ Hc Ho He eq_refl); subst c;
          eexists _, _, _; split; [exact Ha|];
          split; [apply lookup_insert_eq|reflexivity]
      end ].

(** * Numbers: the order of positive values *)

(** Facts on binary64 values that the order of the results rests on, from the
    specification of the primitive operations ([FloatAxioms], [SpecFloat]). *)
Module JSNumberFacts.
Import JSNumber.
Local Open Scope Z_scope.

Lemma digits2_pos_bounds (p : positive) :
  2 ^ (Zpos (digits2_pos p) - 1) <= Zpos p < 2 ^ Zpos (digits2_pos p).
Proof.
  induction p as [p IH|p IH|]; simpl digits2_pos.
  - rewrite Pos2Z.inj_succ.
    replace (Z.succ (Zpos (digits2_pos p)) - 1) with (Z.succ (Zpos (digits2_pos p) - 1)) by lia.
    rewrite !Z.pow_succ_r by lia. lia.
  - rewrite Pos2Z.inj_succ.
    replace (Z.succ (Zpos (digits2_pos p)) - 1) with (Z.succ (Zpos (digits2_pos p) - 1)) by lia.
    rewrite !Z.pow_succ_r by lia. lia.
  - simpl. lia.
Qed.

Lemma shr_1_m (r : shr_record) :
  0 <= shr_m r -> shr_m (shr_1 r) = shr_m r / 2 /\ 0 <= shr_m (shr_1 r).
Proof.
  destruct r as [m r s]; simpl. intros Hm.
  destruct m as [|[p|p|]|p]; simpl; try lia; (split; [|lia]).
  - reflexivity.
  - rewrite Pos2Z.inj_xI. apply Z.div_unique with 1; lia.
  - rewrite Pos2Z.inj_xO. apply Z.div_unique with 0; lia.
  - reflexivity.
Qed.

Lemma pow2_xO (n : positive) : 2 ^ Zpos n~0 = 2 ^ Zpos n * 2 ^ Zpos n.
Proof. rewrite <- Z.pow_add_r by lia. f_equal. lia. Qed.

Lemma pow2_xI (n : positive) : 2 ^ Zpos n~1 = 2 * (2 ^ Zpos n * 2 ^ Zpos n).
Proof.
  rewrite <- Z.pow_add_r, <- Z.pow_succ_r by lia. f_equal. lia.
Qed.

Lemma shr_iter_m (n : positive) : forall r : shr_record,
  0 <= shr_m r ->
  shr_m (SpecFloat.iter_pos shr_1 n r) = shr_m r / 2 ^ Zpos n /\
  0 <= shr_m (SpecFloat.iter_pos shr_1 n r).
Proof.
  induction n as [n IH|n IH|]; intros r Hr; simpl SpecFloat.iter_pos.
  - destruct (shr_1_m r Hr) as [E1 P1].
    destruct (IH _ P1) as [E2 P2]. destruct (IH _ P2) as [E3 P3].
    split; [|exact P3]. rewrite E3, E2, E1.
    assert (0 < 2 ^ Zpos n) by (apply Z.pow_pos_nonneg; lia).
    rewrite !Z.div_div by lia. f_equal. rewrite pow2_xI. lia.
  - destruct (IH _ Hr) as [E2 P2]. destruct (IH _ P2) as [E3 P3].
    split; [|exact P3]. rewrite E3, E2.
    assert (0 < 2 ^ Zpos n) by (apply Z.pow_pos_nonneg; lia).
    rewrite !Z.div_div by lia. f_equal. rewrite pow2_xO. lia.
  - destruct (shr_1_m r Hr) as [E1 P1]. split; [|exact P1].
    rewrite E1. reflexivity.
Qed.

Lemma shr_record_of_loc_m m l : shr_m (shr_record_of_loc m l) = m.
Proof. destruct l as [|[]]; reflexivity. Qed.

Lemma shr_fexp_positive (p : positive) (e : Z) (l : location) :
  emin <= e ->
  0 < shr_m (fst (shr_fexp prec emax (Zpos p) e l)) /\
  emin <= snd (shr_fexp prec emax (Zpos p) e l).
Proof.
  intros He. unfold shr_fexp, shr. simpl Zdigits2.
  pose proof (digits2_pos_bounds p) as [Hlo _].
  set (d := Zpos (digits2_pos p)) in *.
  destruct (fexp prec emax (d + e) - e) as [|n|n] eqn:Hn; simpl fst; simpl snd;
    rewrite ?shr_record_of_loc_m; try lia.
  assert (Hn' : Zpos n = d - prec).
  { unfold fexp, SpecFloat.emin in *. cbv [prec emax] in *. lia. }
  destruct (shr_iter_m n (shr_record_of_loc (Zpos p) l)) as [E _].
  { rewrite shr_record_of_loc_m. lia. }
  rewrite E, shr_record_of_loc_m. split; [|lia].
  apply Z.div_str_pos. split; [apply Z.pow_pos_nonneg; lia|].
  etransitivity; [|exact Hlo].
  apply Z.pow_le_mono_r; [lia|]. cbv [prec] in *. lia.
Qed.

Lemma round_nearest_even_positive m l : 0 < m -> 0 < round_nearest_even m l.
Proof.
  intros Hm. unfold round_nearest_even.
  destruct l as [|[]]; try lia. destruct (Z.even m); lia.
Qed.

Lemma binary_round_aux_positive (p : positive) (e : Z) (l : location) :
  emin <= e -> SFpositive (binary_round_aux prec emax false (Zpos p) e l).
Proof.
  intros He. unfold binary_round_aux.
  destruct (shr_fexp_positive p e l He) as [Hm1 He1].
  destruct (shr_fexp prec emax (Zpos p) e l) as [mrs1 e1]. simpl in Hm1, He1.
  pose proof (round_nearest_even_positive _ (loc_of_shr_record mrs1) Hm1) as Hm2.
  destruct (round_nearest_even (shr_m mrs1) (loc_of_shr_record mrs1)) as [|p2|p2];
    try lia.
  destruct (shr_fexp_positive p2 e1 loc_Exact He1) as [Hm3 _].
  destruct (shr_fexp prec emax (Zpos p2) e1 loc_Exact) as [mrs2 e2]. simpl in Hm3.
  destruct (shr_m mrs2) as [|p3|p3]; try lia.
  destruct (e2 <=? emax - prec); exact I.
Qed.

Lemma binary_round_positive (p : positive) (e : Z) :
  emin <= e -> SFpositive (binary_round prec emax false p e).
Proof.
  intros He. unfold binary_round, shl_align.
  destruct (fexp prec emax (Zpos (digits2_pos p) + e) - e) eqn:Hd;
    apply binary_round_aux_positive; try exact He.
  unfold fexp, SpecFloat.emin. lia.
Qed.

Lemma binary_round_negative (p : positive) (e : Z) :
  SFltb (S754_zero false) (binary_round prec emax true p e) = false.
Proof.
  unfold binary_round, binary_round_aux.
  destruct (shl_align _ _ _) as [mz ez].
  destruct (shr_fexp prec emax (Zpos mz) ez loc_Exact) as [mrs1 e1].
  destruct (shr_fexp prec emax _ e1 loc_Exact) as [mrs2 e2].
  destruct (shr_m mrs2); try reflexivity.
  destruct (e2 <=? emax - prec); reflexivity.
Qed.

Lemma SFltb_zero_positive r : SFpositive r -> SFltb (S754_zero false) r = true.
Proof. destruct r as [| [] | | [] ? ?]; simpl; intros []; reflexivity. Qed.

Lemma SFltb_zero_positive_inv r : SFltb (S754_zero false) r = true -> SFpositive r.
Proof. destruct r as [| [] | | [] ? ?]; simpl; try discriminate; intros _; exact I. Qed.

(** Alignment of a mantissa on a smaller exponent multiplies it by a power of two. *)
Lemma shl_align_fst (m : positive) (e ez : Z) :
  ez <= e -> Zpos (fst (shl_align m e ez)) = Zpos m * 2 ^ (e - ez).
Proof.
  intros Hle. unfold shl_align.
  destruct (ez - e) as [|d|d] eqn:Hd; simpl fst; try lia.
  - replace (e - ez) with 0 by lia. simpl. lia.
  - replace (e - ez) with (Zpos d) by lia.
    change (Pos.iter xO m d) with (shift_pos d m).
    rewrite Zpower.shift_pos_correct. rewrite Z.mul_comm. reflexivity.
Qed.

(** What validity of a finite binary64 value says about its mantissa and exponent. *)
Lemma bounded_inv (m : positive) (e : Z) :
  bounded prec emax m e = true ->
  emin <= e /\ Zpos (digits2_pos m) <= prec /\
  (emin < e -> Zpos (digits2_pos m) = prec).
Proof.
  unfold bounded, canonical_mantissa, fexp, SpecFloat.emin.
  intros H. apply andb_prop in H as [H _]. apply Z.eqb_eq in H.
  cbv [prec emax] in *. lia.
Qed.

Lemma mantissa_lt_of_exponent_lt (ma mb : positive) (ea eb : Z) :
  bounded prec emax ma ea = true -> bounded prec emax mb eb = true ->
  ea < eb -> Zpos ma < Zpos mb * 2 ^ (eb - ea).
Proof.
  intros Ha Hb Hlt.
  apply bounded_inv in Ha as (Hea & Hda & _).
  apply bounded_inv in Hb as (_ & _ & Hdb). specialize (Hdb ltac:(lia)).
  pose proof (digits2_pos_bounds ma) as [_ Hma].
  pose proof (digits2_pos_bounds mb) as [Hmb _].
  rewrite Hdb in Hmb.
  assert (Zpos ma < 2 ^ prec).
  { eapply Z.lt_le_trans; [exact Hma|]. apply Z.pow_le_mono_r; lia. }
  assert (2 ^ 1 <= 2 ^ (eb - ea)) by (apply Z.pow_le_mono_r; lia).
  assert (2 ^ prec = 2 ^ (prec - 1) * 2 ^ 1) by reflexivity.
  nia.
Qed.

Lemma SFsub_sign (ma mb : positive) (ea eb : Z) :
  bounded prec emax ma ea = true -> bounded prec emax mb eb = true ->
  SFltb (S754_zero false)
        (SF64sub (S754_finite false mb eb) (S754_finite false ma ea))
  = SFltb (S754_finite false ma ea) (S754_finite false mb eb).
Proof.
  intros Ha Hb.
  pose proof (bounded_inv _ _ Ha) as (Hea & _).
  pose proof (bounded_inv _ _ Hb) as (Heb & _).
  unfold SF64sub, SFsub, SFltb, SFcompare, cond_Zopp.
  rewrite !shl_align_fst by lia.
  set (ez := Z.min eb ea).
  assert (Hez : emin <= ez) by (unfold ez; lia).
  destruct (Z.compare_spec ea eb) as [Heq|Hlt|Hgt].
  - subst eb. unfold ez. rewrite Z.min_id, Z.sub_diag. simpl (2 ^ 0).
    rewrite !Z.mul_1_r.
    change (Pos.compare_cont Eq ma mb) with (Pos.compare ma mb).
    destruct (Pos.compare_spec ma mb) as [E|L|G].
    + subst. rewrite Z.sub_diag. reflexivity.
    + destruct (Zpos mb - Zpos ma) as [|d|d] eqn:Hd; try lia.
      simpl. apply SFltb_zero_positive, binary_round_positive. lia.
    + destruct (Zpos mb - Zpos ma) as [|d|d] eqn:Hd; try lia.
      simpl. apply binary_round_negative.
  - pose proof (mantissa_lt_of_exponent_lt _ _ _ _ Ha Hb Hlt).
    replace ez with ea by (unfold ez; lia).
    rewrite Z.sub_diag. simpl (2 ^ 0). rewrite Z.mul_1_r.
    destruct (Zpos mb * 2 ^ (eb - ea) - Zpos ma) as [|d|d] eqn:Hd; try lia.
    simpl. apply SFltb_zero_positive, binary_round_positive. lia.
  - pose proof (mantissa_lt_of_exponent_lt _ _ _ _ Hb Ha Hgt).
    replace ez with eb by (unfold ez; lia).
    rewrite Z.sub_diag. simpl (2 ^ 0). rewrite Z.mul_1_r.
    destruct (Zpos mb - Zpos ma * 2 ^ (ea - eb)) as [|d|d] eqn:Hd; try lia.
    simpl. apply binary_round_negative.
Qed.

Lemma SFcompare_key (a b : spec_float) :
  SFpositive a -> SFpositive b ->
  valid_binary a = true -> valid_binary b = true ->
  (SFcompare a b = Some Lt /\ key_lt (SFkey a) (SFkey b)) \/
  (SFcompare a b = Some Eq /\ a = b) \/
  (SFcompare a b = Some Gt /\ key_lt (SFkey b) (SFkey a)).
Proof.
  destruct a as [| [] | | [] ma ea]; try (intros []; fail);
  destruct b as [| [] | | [] mb eb]; try (intros _ []; fail);
  intros _ _ Va Vb; simpl in Va, Vb; unfold key_lt; simpl.
  - right; left. split; reflexivity.
  - right; right. split; [reflexivity|].
    apply andb_prop in Vb as [_ Vb]. apply Z.leb_le in Vb.
    cbv [prec emax] in *. lia.
  - left. split; [reflexivity|].
    apply andb_prop in Va as [_ Va]. apply Z.leb_le in Va.
    cbv [prec emax] in *. lia.
  - change (Pos.compare_cont Eq ma mb) with (Pos.compare ma mb).
    destruct (Z.compare_spec ea eb) as [E|L|G].
    + subst eb. destruct (Pos.compare_spec ma mb) as [E|L|G].
      * subst. right; left. split; reflexivity.
      * left. split; [reflexivity|]. lia.
      * right; right. split; [reflexivity|]. lia.
    + left. split; [reflexivity|]. lia.
    + right; right. split; [reflexivity|]. lia.
Qed.

(** ** Exponents of sums, products and quotients of positive values *)

Lemma SFabove_positive low r : SFabove low r -> SFpositive r.
Proof. destruct r as [| [] | | [] ? ?]; simpl; tauto. Qed.

Lemma SFbetween_above low high r : SFbetween low high r -> SFabove low r.
Proof. destruct r as [| [] | | [] ? ?]; simpl; tauto. Qed.

Lemma digits2_pos_lt (p : positive) (D : Z) :
  Zpos p < 2 ^ D -> 0 <= D -> Zpos (digits2_pos p) <= D.
Proof.
  intros Hp HD. pose proof (digits2_pos_bounds p) as [Hlo _].
  assert (H : 2 ^ (Zpos (digits2_pos p) - 1) < 2 ^ D) by lia.
  apply Z.pow_lt_mono_r_iff in H; lia.
Qed.

Lemma digits2_pos_le (p q : positive) :
  Zpos p <= Zpos q -> Zpos (digits2_pos p) <= Zpos (digits2_pos q).
Proof.
  intros Hle. pose proof (digits2_pos_bounds q) as [_ Hhi].
  apply digits2_pos_lt; lia.
Qed.

Lemma fexp_le (a b : Z) : a <= b -> fexp prec emax a <= fexp prec emax b.
Proof. unfold fexp. lia. Qed.

(** what [shr_fexp] does to a positive mantissa *)
Lemma shr_fexp_bounds (p : positive) (e : Z) (l : location) :
  emin <= e ->
  let r := shr_fexp prec emax (Zpos p) e l in
  0 < shr_m (fst r) <= Zpos p /\
  e <= snd r <= Z.max e (fexp prec emax (Zpos (digits2_pos p) + e)) /\
  emin <= snd r.
Proof.
  intros He r. subst r.
  destruct (shr_fexp_positive p e l He) as [Hpos Hemin].
  split; [split; [exact Hpos|]|split; [|exact Hemin]]; clear Hpos Hemin;
    unfold shr_fexp, shr; simpl Zdigits2;
    destruct (fexp prec emax (Zpos (digits2_pos p) + e) - e) as [|n|n] eqn:Hn;
    simpl fst; simpl snd; rewrite ?shr_record_of_loc_m; try lia.
  destruct (shr_iter_m n (shr_record_of_loc (Zpos p) l)) as [E _].
  { rewrite shr_record_of_loc_m. lia. }
  rewrite E, shr_record_of_loc_m.
  pose proof (Z.pow_pos_nonneg 2 (Zpos n) ltac:(lia) ltac:(lia)) as Hpow.
  apply Z.div_le_upper_bound; [exact Hpow|]. nia.
Qed.

Lemma round_nearest_even_le m l : round_nearest_even m l <= m + 1.
Proof.
  unfold round_nearest_even. destruct l as [|[]]; try lia. destruct (Z.even m); lia.
Qed.

Lemma binary_round_aux_above (p : positive) (e : Z) (l : location) (low : Z) :
  emin <= e -> low <= e ->
  SFabove low (binary_round_aux prec emax false (Zpos p) e l).
Proof.
  intros He Hlow. unfold binary_round_aux.
  destruct (shr_fexp_bounds p e l He) as ([Hm1 _] & [He1 _] & Hmin1).
  destruct (shr_fexp prec emax (Zpos p) e l) as [mrs1 e1]. simpl in Hm1, He1, Hmin1.
  pose proof (round_nearest_even_positive _ (loc_of_shr_record mrs1) Hm1) as Hm2.
  destruct (round_nearest_even (shr_m mrs1) (loc_of_shr_record mrs1)) as [|p2|p2];
    try lia.
  destruct (shr_fexp_bounds p2 e1 loc_Exact Hmin1) as ([Hm3 _] & [He2 _] & _).
  destruct (shr_fexp prec emax (Zpos p2) e1 loc_Exact) as [mrs2 e2]. simpl in Hm3, He2.
  destruct (shr_m mrs2) as [|p3|p3]; try lia.
  destruct (e2 <=? emax - prec); simpl; [lia|exact I].
Qed.

Lemma binary_round_aux_between (p : positive) (e : Z) (l : location) (D E : Z) :
  emin <= e <= E -> Zpos (digits2_pos p) <= D -> prec <= D ->
  E + 2 * D - 105 <= emax - prec ->
  SFbetween e (E + 2 * D - 105) (binary_round_aux prec emax false (Zpos p) e l).
Proof.
  intros [He HE] Hd HD Hhi. unfold binary_round_aux.
  destruct (shr_fexp_bounds p e l He) as ([Hm1 Hm1'] & [He1 He1'] & Hmin1).
  destruct (shr_fexp prec emax (Zpos p) e l) as [mrs1 e1].
  simpl in Hm1, Hm1', He1, He1', Hmin1.
  pose proof (round_nearest_even_positive _ (loc_of_shr_record mrs1) Hm1) as Hm2.
  pose proof (round_nearest_even_le (shr_m mrs1) (loc_of_shr_record mrs1)) as Hm2'.
  destruct (round_nearest_even (shr_m mrs1) (loc_of_shr_record mrs1)) as [|p2|p2];
    try lia.
  destruct (shr_fexp_bounds p2 e1 loc_Exact Hmin1) as ([Hm3 _] & [He2 He2'] & _).
  destruct (shr_fexp prec emax (Zpos p2) e1 loc_Exact) as [mrs2 e2].
  simpl in Hm3, He2, He2'.
  assert (Hd2 : Zpos (digits2_pos p2) <= D + 1).
  { apply digits2_pos_lt; [|unfold prec in *; lia].
    pose proof (digits2_pos_bounds p) as [_ Hp].
    assert (Hpow : 2 ^ Zpos (digits2_pos p) <= 2 ^ D)
      by (apply Z.pow_le_mono_r; lia).
    rewrite Z.pow_add_r by (unfold prec in *; lia). lia. }
  assert (Hb1 : e1 <= E + D - 53).
  { unfold fexp, SpecFloat.emin in *. cbv [prec emax] in *. lia. }
  assert (Hb2 : e2 <= E + 2 * D - 105).
  { unfold fexp, SpecFloat.emin in *. cbv [prec emax] in *. lia. }
  destruct (shr_m mrs2) as [|p3|p3]; try lia.
  destruct (Z.leb_spec e2 (emax - prec)); simpl; lia.
Qed.

Lemma bounded_canonical (m : positive) (e : Z) :
  bounded prec emax m e = true ->
  fexp prec emax (Zpos (digits2_pos m) + e) = e.
Proof.
  unfold bounded, canonical_mantissa. intros H.
  apply andb_true_iff in H as [H _]. now apply Z.eqb_eq in H.
Qed.

(** Adding a positive value to zero or to a positive value. *)
Lemma SFadd_above (low : Z) (x y : spec_float) :
  valid_binary x = true -> valid_binary y = true ->
  x = S754_zero false \/ SFabove low x ->
  SFabove low y ->
  SFabove low (SF64add x y).
Proof.
  intros Vx Vy Hx Hy.
  destruct y as [| [] | | [] my ey]; try (destruct Hy; fail).
  - destruct Hx as [->|Hx]; [exact I|].
    destruct x as [| [] | | [] mx ex]; try (destruct Hx; fail); exact I.
  - destruct Hx as [->|Hx]; [exact Hy|].
    destruct x as [| [] | | [] mx ex]; try (destruct Hx; fail); [exact I|].
    simpl in Hx, Hy, Vx, Vy.
    unfold SF64add, SFadd. cbv zeta. unfold cond_Zopp.
    set (ez := Z.min ex ey).
    pose proof (shl_align_fst mx ex ez ltac:(lia)) as Ea.
    pose proof (shl_align_fst my ey ez ltac:(lia)) as Eb.
    set (a := fst (shl_align mx ex ez)) in *.
    set (b := fst (shl_align my ey ez)) in *.
    change (Zpos a + Zpos b) with (Zpos (a + b)).
    unfold binary_normalize, binary_round.
    destruct (bounded_inv mx ex Vx) as (Hminx & _ & _).
    destruct (bounded_inv my ey Vy) as (Hminy & _ & _).
    assert (Hcanon : ez <= fexp prec emax (Zpos (digits2_pos (a + b)) + ez)).
    { destruct (Z.le_ge_cases ex ey) as [Hle|Hge].
      - assert (Eez : ez = ex) by (subst ez; lia).
        rewrite Eez in *. replace (ex - ex) with 0 in Ea by lia.
        rewrite <- (bounded_canonical mx ex Vx) at 1.
        apply fexp_le.
        assert (Zpos (digits2_pos mx) <= Zpos (digits2_pos (a + b)))
          by (apply digits2_pos_le; lia).
        lia.
      - assert (Eez : ez = ey) by (subst ez; lia).
        rewrite Eez in *. replace (ey - ey) with 0 in Eb by lia.
        rewrite <- (bounded_canonical my ey Vy) at 1.
        apply fexp_le.
        assert (Zpos (digits2_pos my) <= Zpos (digits2_pos (a + b)))
          by (apply digits2_pos_le; lia).
        lia. }
    unfold shl_align.
    destruct (fexp prec emax (Zpos (digits2_pos (a + b)) + ez) - ez) eqn:Hd; try lia;
      apply binary_round_aux_above; subst ez; lia.
Qed.

Lemma SFmul_positive (lx ly : Z) (x y : spec_float) :
  SFabove lx x -> SFabove ly y -> emin <= lx + ly ->
  SFpositive (SF64mul x y).
Proof.
  intros Hx Hy Hmin.
  destruct x as [| [] | | [] mx ex]; try (destruct Hx; fail);
  destruct y as [| [] | | [] my ey]; try (destruct Hy; fail); try exact I.
  simpl in Hx, Hy. unfold SF64mul, SFmul. simpl xorb.
  apply binary_round_aux_positive. lia.
Qed.

Lemma SFdiv_above (lo hi : Z) (mx my : positive) (ex ey : Z) :
  bounded prec emax mx ex = true -> bounded prec emax my ey = true ->
  lo <= ex <= hi -> lo <= ey <= hi -> emin <= lo - hi - 105 ->
  SFabove (lo - hi - 105)
    (SF64div (S754_finite false mx ex) (S754_finite false my ey)).
Proof.
  intros Vx Vy Hex Hey Hmin.
  destruct (bounded_inv mx ex Vx) as (_ & Hdx & _).
  destruct (bounded_inv my ey Vy) as (_ & Hdy & _).
  pose proof (digits2_pos_bounds mx) as [Hlox _].
  pose proof (digits2_pos_bounds my) as [_ Hhiy].
  unfold SF64div, SFdiv, SFdiv_core_binary. simpl Zdigits2. simpl xorb. cbv zeta.
  set (d1 := Zpos (digits2_pos mx)) in *. set (d2 := Zpos (digits2_pos my)) in *.
  assert (Hd1 : 1 <= d1) by (subst d1; lia).
  assert (Hd2 : 1 <= d2) by (subst d2; lia).
  set (e' := Z.min (fexp prec emax (d1 + ex - (d2 + ey))) (ex - ey)).
  assert (Hfexp : fexp prec emax (d1 + ex - (d2 + ey)) = d1 + ex - (d2 + ey) - prec).
  { unfold fexp, SpecFloat.emin in *. cbv [prec emax] in *. lia. }
  assert (He' : lo - hi - 105 <= e') by (subst e'; cbv [prec] in *; lia).
  assert (Hs : prec - d1 + d2 <= ex - ey - e') by (subst e'; lia).
  destruct (ex - ey - e') as [|s|s] eqn:Es; cbv [prec] in *; try lia.
  rewrite Z.shiftl_mul_pow2 by lia.
  assert (Hbig : Zpos my <= Zpos mx * 2 ^ Zpos s).
  { assert (H1 : 2 ^ (53 - d1 + d2) <= 2 ^ Zpos s) by (apply Z.pow_le_mono_r; lia).
    assert (H2 : 2 ^ (d1 - 1) * 2 ^ (53 - d1 + d2) = 2 ^ (52 + d2)).
    { rewrite <- Z.pow_add_r by lia. f_equal. lia. }
    assert (H3 : 2 ^ d2 <= 2 ^ (52 + d2)) by (apply Z.pow_le_mono_r; lia).
    assert (H4 : 0 < 2 ^ (53 - d1 + d2)) by (apply Z.pow_pos_nonneg; lia).
    nia. }
  destruct (Z.div_eucl (Zpos mx * 2 ^ Zpos s) (Zpos my)) as [q r] eqn:Ediv.
  assert (Hq : q = (Zpos mx * 2 ^ Zpos s) / Zpos my)
    by (unfold Z.div; now rewrite Ediv).
  assert (Hqpos : 0 < q) by (rewrite Hq; apply Z.div_str_pos; lia).
  destruct q as [|q|q]; try lia.
  apply binary_round_aux_above; unfold emin, SpecFloat.emin in *; cbv [prec emax] in *; lia.
Qed.

(** The Number of a positive integer below 2^63. *)
Lemma binary_normalize_between (n : Z) :
  0 < n < 2 ^ 63 ->
  SFbetween (-52) 21 (binary_normalize prec emax n 0 false).
Proof.
  intros [Hpos Hlt]. destruct n as [|p|p]; try lia.
  unfold binary_normalize, binary_round, shl_align.
  pose proof (digits2_pos_bounds p) as [Hlo Hhi].
  assert (Hd : Zpos (digits2_pos p) <= 63) by (apply digits2_pos_lt; lia).
  set (d := Zpos (digits2_pos p)) in *.
  assert (Hfexp : fexp prec emax (d + 0) = d - 53).
  { unfold fexp, SpecFloat.emin. cbv [prec emax]. lia. }
  rewrite Hfexp.
  destruct (d - 53 - 0) as [|k|k] eqn:Ek.
  - assert (H := binary_round_aux_between p 0 loc_Exact 63 0).
    unfold SpecFloat.emin in H. cbv [prec emax] in H.
    specialize (H ltac:(lia) ltac:(subst d; lia) ltac:(lia) ltac:(lia)).
    destruct (binary_round_aux _ _ _ _ _ _) as [| | |[] m e]; simpl in *; lia.
  - assert (H := binary_round_aux_between p 0 loc_Exact 63 0).
    unfold SpecFloat.emin in H. cbv [prec emax] in H.
    specialize (H ltac:(lia) ltac:(subst d; lia) ltac:(lia) ltac:(lia)).
    destruct (binary_round_aux _ _ _ _ _ _) as [| | |[] m e]; simpl in *; lia.
  - change (Pos.iter xO p k) with (shift_pos k p).
    assert (Eshift : Zpos (shift_pos k p) = Zpos p * 2 ^ Zpos k)
      by (rewrite Zpower.shift_pos_correct; lia).
    assert (Hk : Zpos k = 53 - d) by lia.
    assert (Hshift : Zpos (digits2_pos (shift_pos k p)) <= 63).
    { apply digits2_pos_lt; [|lia]. rewrite Eshift.
      assert (H1 : 2 ^ d * 2 ^ Zpos k = 2 ^ 53)
        by (rewrite <- Z.pow_add_r by lia; f_equal; lia).
      assert (H2 : 0 < 2 ^ Zpos k) by (apply Z.pow_pos_nonneg; lia).
      assert (H3 : (2 ^ 53 < 2 ^ 63)) by (apply Z.pow_lt_mono_r; lia).
      nia. }
    assert (H := binary_round_aux_between (shift_pos k p) (d - 53) loc_Exact 63 0).
    unfold SpecFloat.emin in H. cbv [prec emax] in H.
    specialize (H ltac:(lia) Hshift ltac:(lia) ltac:(lia)).
    destruct (binary_round_aux _ _ _ _ _ _) as [| | |[] m e]; simpl in *; lia.
Qed.

Local Open Scope float_scope.

Lemma positive_number_SF (x : float) :
  positive_number x <-> SFpositive (Prim2SF x).
Proof.
  unfold positive_number. rewrite FloatAxioms.ltb_spec.
  change (Prim2SF 0) with (S754_zero false).
  split; [apply SFltb_zero_positive_inv|apply SFltb_zero_positive].
Qed.

(** The sign of a difference of two positive numbers is the sign of their
    comparison: the comparator [b - a] of a sort orders them as [<] does. *)
Lemma sub_sign (a b : float) :
  positive_number a -> positive_number b -> (0 <? b - a) = (a <? b).
Proof.
  intros Ha Hb. apply positive_number_SF in Ha, Hb.
  rewrite !FloatAxioms.ltb_spec, FloatAxioms.sub_spec. change (Prim2SF 0) with (S754_zero false).
  pose proof (Prim2SF_valid a) as Va. pose proof (Prim2SF_valid b) as Vb.
  destruct (Prim2SF a) as [| [] | | [] ma ea]; try (destruct Ha; fail);
  destruct (Prim2SF b) as [| [] | | [] mb eb]; try (destruct Hb; fail);
    try reflexivity.
  apply SFsub_sign; assumption.
Qed.

Lemma compare_positive (a b : float) :
  positive_number a -> positive_number b ->
  ((a <? b) = true /\ (a <=? b) = true /\ (b <? a) = false /\ (b <=? a) = false) \/
  (a = b /\ (a <? b) = false /\ (a <=? b) = true) \/
  ((b <? a) = true /\ (b <=? a) = true /\ (a <? b) = false /\ (a <=? b) = false).
Proof.
  intros Ha Hb. apply positive_number_SF in Ha, Hb.
  rewrite !FloatAxioms.ltb_spec, !FloatAxioms.leb_spec. unfold SFltb, SFleb.
  pose proof (Prim2SF_valid a) as Va. pose proof (Prim2SF_valid b) as Vb.
  destruct (SFcompare_key _ _ Ha Hb Va Vb) as [[E K]|[[E K]|[E K]]];
  destruct (SFcompare_key _ _ Hb Ha Vb Va) as [[E' K']|[[E' K']|[E' K']]];
    rewrite E, E'; unfold key_lt in *;
    try (exfalso; lia); try (exfalso; rewrite K' in K; lia);
    try (exfalso; rewrite K in K'; lia).
  - left. repeat split.
  - right; left. apply Prim2SF_inj in K. repeat split. exact K.
  - right; right. repeat split.
Qed.

Lemma leb_trans_positive (a b c : float) :
  positive_number a -> positive_number b -> positive_number c ->
  (a <=? b) = true -> (b <=? c) = true -> (a <=? c) = true.
Proof.
  intros Ha Hb Hc. pose proof Ha as Ha'. pose proof Hb as Hb'. pose proof Hc as Hc'.
  apply positive_number_SF in Ha, Hb, Hc.
  rewrite !FloatAxioms.leb_spec. unfold SFleb.
  pose proof (Prim2SF_valid a) as Va. pose proof (Prim2SF_valid b) as Vb.
  pose proof (Prim2SF_valid c) as Vc.
  destruct (SFcompare_key _ _ Ha Hb Va Vb) as [[E K]|[[E K]|[E K]]]; rewrite E;
    try discriminate; intros _;
  destruct (SFcompare_key _ _ Hb Hc Vb Vc) as [[E' K']|[[E' K']|[E' K']]]; rewrite E';
    try discriminate; intros _;
  destruct (SFcompare_key _ _ Ha Hc Va Vc) as [[E2 K2]|[[E2 K2]|[E2 K2]]]; rewrite E2;
    try reflexivity; exfalso; unfold key_lt in *;
    try rewrite K in *; try rewrite K' in *; lia.
Qed.

(** On a positive number [=] of JavaScript is equality. *)
Lemma eqb_positive_eq (a v : float) :
  positive_number a -> (a =? v) = true -> a = v.
Proof.
  intros Ha. apply positive_number_SF in Ha.
  rewrite FloatAxioms.eqb_spec. unfold SFeqb. intros E.
  apply Prim2SF_inj.
  pose proof (Prim2SF_valid a) as Va. pose proof (Prim2SF_valid v) as Vv.
  destruct (Prim2SF a) as [| [] | | [] ma ea]; try (destruct Ha; fail);
  destruct (Prim2SF v) as [| [] | | [] mv ev]; simpl in E; try discriminate;
    try reflexivity.
  change (Pos.compare_cont Eq ma mv) with (Pos.compare ma mv) in E.
  destruct (Z.compare_spec ea ev); try discriminate.
  destruct (Pos.compare_spec ma mv); try discriminate.
  subst. reflexivity.
Qed.

Lemma ltb_irrefl_positive (a : float) : positive_number a -> (a <? a) = false.
Proof.
  intros Ha. destruct (compare_positive a a Ha Ha) as [(L & _ & G & _)|[(_ & L & _)|(L & _ & G & _)]];
    congruence.
Qed.

Lemma eqb_refl_positive (a : float) : positive_number a -> (a =? a) = true.
Proof.
  intros Ha. apply positive_number_SF in Ha.
  rewrite FloatAxioms.eqb_spec. unfold SFeqb.
  destruct (Prim2SF a) as [| [] | | [] m e]; try (destruct Ha; fail); simpl;
    [reflexivity|].
  rewrite Z.compare_refl.
  change (Pos.compare_cont Eq m m) with (Pos.compare m m).
  now rewrite Pos.compare_refl.
Qed.

Lemma leb_antisym_positive (a b : float) :
  positive_number a -> positive_number b ->
  (a <=? b) = true -> (b <=? a) = true -> a = b.
Proof.
  intros Ha Hb Hab Hba.
  destruct (compare_positive a b Ha Hb)
    as [(_ & _ & _ & G)|[(E & _)|(_ & _ & _ & G)]]; congruence.
Qed.

Lemma number_between (n : nat) :
  (0 < n)%nat -> (Z.of_nat n < 2 ^ 63)%Z ->
  SFbetween (-52) 21 (Prim2SF (number n)).
Proof.
  intros Hpos Hlt. unfold number.
  rewrite FloatAxioms.of_uint63_spec, Uint63.of_Z_spec.
  rewrite Z.mod_small by (change Uint63.wB with (2 ^ 63)%Z; lia).
  apply binary_normalize_between. lia.
Qed.

Lemma add_above (sum term : float) :
  SFstarted (Prim2SF sum) -> SFabove (-52) (Prim2SF term) ->
  SFabove (-52) (Prim2SF (sum + term)).
Proof.
  intros Hsum Hterm. rewrite FloatAxioms.add_spec.
  apply SFadd_above; try apply Prim2SF_valid; assumption.
Qed.

Lemma coverage_above (matched keywords : nat) :
  (0 < matched)%nat -> (0 < keywords)%nat ->
  (Z.of_nat matched < 2 ^ 63)%Z -> (Z.of_nat keywords < 2 ^ 63)%Z ->
  SFabove (-178) (Prim2SF (number matched / number keywords)).
Proof.
  intros Hm Hk Hmlt Hklt. rewrite FloatAxioms.div_spec.
  pose proof (number_between matched Hm Hmlt) as Bm.
  pose proof (number_between keywords Hk Hklt) as Bk.
  pose proof (Prim2SF_valid (number matched)) as Vm.
  pose proof (Prim2SF_valid (number keywords)) as Vk.
  destruct (Prim2SF (number matched)) as [| | | [] mm em]; try (destruct Bm; fail).
  destruct (Prim2SF (number keywords)) as [| | | [] mk ek]; try (destruct Bk; fail).
  simpl in Bm, Bk, Vm, Vk.
  apply (SFdiv_above (-52) 21 mm mk em ek); try assumption.
  unfold SpecFloat.emin. cbv [prec emax]. lia.
Qed.

Lemma score_positive (sum coverage : float) :
  SFabove (-52) (Prim2SF sum) -> SFabove (-178) (Prim2SF coverage) ->
  positive_number (sum * coverage).
Proof.
  intros Hs Hc. apply positive_number_SF. rewrite FloatAxioms.mul_spec.
  apply (SFmul_positive (-52) (-178)); try assumption.
  unfold SpecFloat.emin. cbv [prec emax]. lia.
Qed.

End JSNumberFacts.

(** * Strings: equality and inclusion *)

Module JSStringFacts.

Lemma eqb_eq (s t : jsstring) : JSString.eqb s t = true <-> s = t.
Proof.
  revert t. induction s as [|a s IH]; intros [|b t]; simpl;
    try (split; [discriminate|congruence]); try tauto.
  rewrite andb_true_iff, N.eqb_eq, IH. split; [intros []|intros [=]]; subst; auto.
Qed.

Lemma startsWith_refl (s : jsstring) : startsWith s s = true.
Proof. induction s as [|a s IH]; simpl; [reflexivity|]. now rewrite N.eqb_refl. Qed.

Lemma includes_refl (s : jsstring) : includes s s = true.
Proof. destruct s; simpl; [reflexivity|]. now rewrite N.eqb_refl, startsWith_refl. Qed.

Lemma eqb_refl (s : jsstring) : JSString.eqb s s = true.
Proof. now apply eqb_eq. Qed.

Lemma eqb_neq (s t : jsstring) : s <> t -> JSString.eqb s t = false.
Proof.
  intros Hne. destruct (JSString.eqb s t) eqn:E; [|reflexivity].
  apply eqb_eq in E. contradiction.
Qed.

End JSStringFacts.

(** * The functions at work *)

Example weight_of_a_long_article :
  calculateWeight
    (DocumentRecord.mk (Some (js "A title of twenty chars"))
       (Some (repeat 97%N 1001)) (js "/a")) = 1.6%float.
Proof. vm_compute. reflexivity. Qed.

Example keywords_of_a_query :
  keywordsOf (tables := ascii_tables) (js " Rust-Guide  for  you ")
  = [js "rust"; js "guide"; js "for"; js "you"].
Proof. reflexivity. Qed.

Example strip_a_paragraph :
  stripTags (js "<p>Learn <b>systems</b> programming</p> <> 1 < 2 > 3")
  = js "Learn systems programming <> 1  3".
Proof. reflexivity. Qed.

Example highlight_a_keyword :
  highlightKeywords (tables := ascii_tables) (js "Learn C++ (intro)") [js "c++"; js "(intro)"]
  = js "Learn " ++ markOpen ++ js "C++" ++ markClose ++ js " "
    ++ markOpen ++ js "(intro)" ++ markClose.
Proof. reflexivity. Qed.

Example excerpt_around_the_first_keyword :
  getHighlightedExcerpt (tables := ascii_tables)
    (preprocessItem (tables := ascii_tables) 0
       (DocumentRecord.mk (Some (js "Go Basics"))
          (Some (repeat 120%N 60 ++ js " Learn " ++ repeat 121%N 200)) (js "/b")))
    [js "learn"] 150
  = js "..." ++ repeat 120%N 49 ++ js " " ++ markOpen ++ js "Learn" ++ markClose
    ++ js " " ++ repeat 121%N 94 ++ js "...".  
Proof. vm_compute. reflexivity. Qed.

(** * The query processor: facts *)
Section SearchFacts.
Context {tables : Unicode}.
Local Open Scope float_scope.
Import JSNumber.

Lemma scannedDocuments_prefix options keywords searchIndex count :
  exists beyond, searchIndex = scannedDocuments options keywords searchIndex count ++ beyond.
Proof.
  revert count. induction searchIndex as [|item rest IH]; intros count; simpl.
  - exists []. reflexivity.
  - destruct (_ <=? _)%nat.
    + exists rest. reflexivity.
    + destruct (IH (if 0 <? calculateMatchScore item keywords then S count else count))
        as [beyond E].
      exists beyond. simpl. f_equal. exact E.
Qed.

Lemma scanLoop_scanned options keywords searchIndex results :
  scanLoop options keywords searchIndex results
  = results ++ List.map (resultFor keywords)
      (List.filter (matches keywords)
         (scannedDocuments options keywords searchIndex (length results))).
Proof.
  revert results. induction searchIndex as [|item rest IH]; intros results.
  - simpl. now rewrite app_nil_r.
  - simpl.
    change (0 <? calculateMatchScore item keywords) with (matches keywords item).
    change (resultOf item keywords (calculateMatchScore item keywords))
      with (resultFor keywords item).
    destruct (matches keywords item) eqn:Hpos.
    + rewrite length_app, Nat.add_1_r.
      destruct (_ <=? _)%nat; simpl; rewrite Hpos; simpl; [reflexivity|].
      rewrite IH, length_app, Nat.add_1_r, <- app_assoc. reflexivity.
    + destruct (_ <=? _)%nat; simpl; rewrite Hpos; simpl.
      * now rewrite app_nil_r.
      * apply IH.
Qed.

Lemma scanned_count_bound options keywords searchIndex count :
  (count < maxResults options * 2)%nat ->
  (count + length (List.filter (matches keywords)
                     (scannedDocuments options keywords searchIndex count))
   <= maxResults options * 2)%nat.
Proof.
  revert count. induction searchIndex as [|item rest IH]; intros count Hlt.
  - simpl. lia.
  - scan_step item; try lia.
    + specialize (IH (S count) ltac:(lia)). lia.
    + apply IH. lia.
Qed.

(** When the loop leaves documents unread, the results have reached the
    cutoff. *)
Lemma scanned_cutoff options keywords searchIndex count beyond :
  (count < maxResults options * 2)%nat ->
  searchIndex = scannedDocuments options keywords searchIndex count ++ beyond ->
  beyond <> [] ->
  (count + length (List.filter (matches keywords)
                     (scannedDocuments options keywords searchIndex count))
   = maxResults options * 2)%nat.
Proof.
  revert count. induction searchIndex as [|item rest IH]; intros count Hlt.
  - simpl. intros E Hb. symmetry in E. simpl in E. congruence.
  - scan_step item; try lia; intros [= E] Hb.
    + specialize (IH (S count) ltac:(lia) E Hb). lia.
    + apply IH; assumption.
Qed.

(** The loop goes on as long as the results are below the cutoff. *)
Lemma scanned_below_cutoff options keywords searchIndex count k :
  (count < maxResults options * 2)%nat ->
  (k < length (scannedDocuments options keywords searchIndex count))%nat ->
  (count + length (List.filter (matches keywords)
                     (firstn k (scannedDocuments options keywords searchIndex count)))
   < maxResults options * 2)%nat.
Proof.
  revert count k. induction searchIndex as [|item rest IH]; intros count k Hlt.
  - simpl. lia.
  - destruct k as [|k]; [simpl; lia|].
    scan_step item; try lia; intros Hk.
    + specialize (IH (S count) k ltac:(lia) ltac:(lia)). lia.
    + apply IH; lia.
Qed.

(** What comes after the document that reached the cutoff is not read. *)
Lemma scanned_independent options keywords searchIndex count beyond other :
  searchIndex = scannedDocuments options keywords searchIndex count ++ beyond ->
  beyond <> [] ->
  scannedDocuments options keywords
    (scannedDocuments options keywords searchIndex count ++ other) count
  = scannedDocuments options keywords searchIndex count.
Proof.
  revert count. induction searchIndex as [|item rest IH]; intros count; simpl.
  - intros E Hb. symmetry in E. simpl in E. congruence.
  - destruct (_ <=? _)%nat eqn:Hcut; simpl; rewrite Hcut.
    + reflexivity.
    + intros [= E] Hb. f_equal. apply IH; assumption.
Qed.

End SearchFacts.

Section SortFacts.
Local Open Scope float_scope.
Import JSNumber JSNumberFacts.

Lemma compareFn_sign (x y : ResultItem.t) :
  positiveResult x -> positiveResult y ->
  (0 <? compareFn x y) = (ResultItem.matchScore x <? ResultItem.matchScore y).
Proof. intros Hx Hy. apply sub_sign; assumption. Qed.

Lemma insertSorted_Forall (P : ResultItem.t -> Prop) x l :
  P x -> Forall P l -> Forall P (insertSorted compareFn x l).
Proof.
  intros Hx Hl. induction Hl as [|y l Hy Hl IH]; simpl.
  - constructor; [exact Hx|constructor].
  - destruct (0 <? compareFn x y); repeat constructor; assumption.
Qed.

Lemma sort_Forall (P : ResultItem.t -> Prop) l :
  Forall P l -> Forall P (sort compareFn l).
Proof.
  induction 1 as [|x l Hx Hl IH]; simpl; [constructor|].
  apply insertSorted_Forall; assumption.
Qed.

Lemma insertSorted_length x (l : list ResultItem.t) :
  length (insertSorted compareFn x l) = S (length l).
Proof.
  induction l as [|y l IH]; simpl; [reflexivity|].
  destruct (0 <? compareFn x y); simpl; [now rewrite IH|reflexivity].
Qed.

Lemma sort_length (l : list ResultItem.t) : length (sort compareFn l) = length l.
Proof.
  induction l as [|x l IH]; simpl; [reflexivity|].
  now rewrite insertSorted_length, IH.
Qed.

Lemma insertSorted_sorted x l :
  positiveResult x -> Forall positiveResult l ->
  StronglySorted descending l ->
  StronglySorted descending (insertSorted compareFn x l).
Proof.
  intros Hx Hpos Hs. induction Hs as [|y l Hs IH Hy]; simpl.
  - repeat constructor.
  - apply Forall_cons_iff in Hpos as [Hpy Hpl].
    rewrite compareFn_sign by assumption.
    destruct (compare_positive _ _ Hx Hpy) as [(L & Le & _)|[(E & L & Le)|(G & Ge & L & _)]];
      rewrite L.
    + constructor; [apply IH; assumption|].
      apply insertSorted_Forall; assumption.
    + constructor; [constructor; assumption|].
      constructor; [unfold descending; rewrite E in Le |- *; exact Le|].
      rewrite Forall_forall in *. intros z Hz. unfold descending in *.
      rewrite E. apply Hy, Hz.
    + constructor; [constructor; assumption|].
      constructor; [exact Ge|].
      rewrite Forall_forall in *. intros z Hz. unfold descending in *.
      eapply leb_trans_positive; [apply Hpl, Hz|exact Hpy|exact Hx|apply Hy, Hz|exact Ge].
Qed.

Lemma sort_sorted l :
  Forall positiveResult l -> StronglySorted descending (sort compareFn l).
Proof.
  induction 1 as [|x l Hx Hl IH]; simpl; [constructor|].
  apply insertSorted_sorted; [assumption|apply sort_Forall; assumption|assumption].
Qed.

Lemma insertSorted_scored v x l :
  positiveResult x -> Forall positiveResult l ->
  List.filter (scored v) (insertSorted compareFn x l)
  = List.filter (scored v) (x :: l).
Proof.
  intros Hx Hpos. induction Hpos as [|y l Hy Hl IH]; [reflexivity|].
  simpl insertSorted. rewrite compareFn_sign by assumption.
  destruct (ResultItem.matchScore x <? ResultItem.matchScore y) eqn:L; [|reflexivity].
  simpl. simpl in IH. rewrite IH.
  destruct (scored v x) eqn:Ex; [|reflexivity].
  destruct (scored v y) eqn:Ey; [|reflexivity].
  exfalso. unfold scored in Ex, Ey.
  apply eqb_positive_eq in Ex, Ey; try assumption.
  rewrite Ex, <- Ey in L. rewrite ltb_irrefl_positive in L by assumption.
  discriminate.
Qed.

(** The sort is stable: the results of one score keep their order. *)
Lemma sort_scored v l :
  Forall positiveResult l ->
  List.filter (scored v) (sort compareFn l) = List.filter (scored v) l.
Proof.
  induction 1 as [|x l Hx Hl IH]; [reflexivity|].
  simpl sort. rewrite insertSorted_scored; [|assumption|apply sort_Forall; assumption].
  simpl. now rewrite IH.
Qed.

Lemma StronglySorted_firstn {A} (R : A -> A -> Prop) n l :
  StronglySorted R l -> StronglySorted R (firstn n l).
Proof.
  intros Hs. revert n. induction Hs as [|x l Hs IH Hx]; intros [|n]; simpl;
    try constructor; [apply IH|].
  apply Forall_take, Hx.
Qed.

(** A descending arrangement that keeps the results of each score in their
    order is unique: whatever stable sort the engine runs, it returns the
    list [sort] returns. *)
Lemma sorted_stable_unique (l1 : list ResultItem.t) : forall l2 : list ResultItem.t,
  Forall positiveResult l1 -> Forall positiveResult l2 ->
  StronglySorted descending l1 -> StronglySorted descending l2 ->
  (forall v, List.filter (scored v) l1 = List.filter (scored v) l2) ->
  l1 = l2.
Proof.
  assert (Hhead : forall x l y l',
             Forall positiveResult (x :: l) -> Forall positiveResult (y :: l') ->
             StronglySorted descending (y :: l') ->
             (forall v, List.filter (scored v) (x :: l) = List.filter (scored v) (y :: l')) ->
             descending y x).
  { intros x l y l' Hp1 Hp2 Hs2 Hf.
    apply Forall_cons_iff in Hp1 as [Hx _]. apply Forall_cons_iff in Hp2 as [Hy _].
    assert (Hin : In x (y :: l')).
    { specialize (Hf (ResultItem.matchScore x)).
      assert (Hi : In x (List.filter (scored (ResultItem.matchScore x)) (y :: l'))).
      { rewrite <- Hf. simpl. unfold scored at 1.
        rewrite (eqb_refl_positive _ Hx). now left. }
      apply filter_In in Hi as [Hi _]. exact Hi. }
    destruct Hin as [->|Hin].
    - unfold descending.
      destruct (compare_positive _ _ Hy Hy) as [(L & _ & G & _)|[(_ & _ & Le)|(L & _ & G & _)]];
        congruence.
    - apply StronglySorted_inv in Hs2 as [_ Hall].
      rewrite List.Forall_forall in Hall. exact (Hall x Hin). }
  induction l1 as [|x l1 IH]; intros l2 Hp1 Hp2 Hs1 Hs2 Hf.
  - destruct l2 as [|y l2]; [reflexivity|].
    apply Forall_cons_iff in Hp2 as [Hy _].
    specialize (Hf (ResultItem.matchScore y)). simpl in Hf.
    unfold scored at 1 in Hf. rewrite (eqb_refl_positive _ Hy) in Hf. discriminate.
  - destruct l2 as [|y l2].
    { apply Forall_cons_iff in Hp1 as [Hx _].
      specialize (Hf (ResultItem.matchScore x)). simpl in Hf.
      unfold scored at 1 in Hf. rewrite (eqb_refl_positive _ Hx) in Hf. discriminate. }
    pose proof (Hhead x l1 y l2 Hp1 Hp2 Hs2 Hf) as Hyx.
    pose proof (Hhead y l2 x l1 Hp2 Hp1 Hs1 (fun v => eq_sym (Hf v))) as Hxy.
    pose proof Hp1 as Hp1'. pose proof Hp2 as Hp2'.
    apply Forall_cons_iff in Hp1' as [Hx Hp1']. apply Forall_cons_iff in Hp2' as [Hy Hp2'].
    assert (Escore : ResultItem.matchScore x = ResultItem.matchScore y)
      by (apply leb_antisym_positive; assumption).
    assert (Exy : x = y).
    { assert (Hsx : scored (ResultItem.matchScore x) x = true)
        by (unfold scored; now apply eqb_refl_positive).
      assert (Hsy : scored (ResultItem.matchScore x) y = true)
        by (unfold scored; rewrite <- Escore; now apply eqb_refl_positive).
      specialize (Hf (ResultItem.matchScore x)). cbn [List.filter] in Hf.
      rewrite Hsx, Hsy in Hf. congruence. }
    subst y. f_equal.
    apply IH; try assumption.
    + apply StronglySorted_inv in Hs1 as [Hs1 _]. exact Hs1.
    + apply StronglySorted_inv in Hs2 as [Hs2 _]. exact Hs2.
    + intros v. specialize (Hf v). simpl in Hf.
      destruct (scored v x); congruence.
Qed.

End SortFacts.

Section ScoreFacts.
Context {tables : Unicode}.
Local Open Scope float_scope.

Lemma scoreStep_documented (item : IndexedDocument.t) (keywords : list jsstring) :
  forall (score : float) (titleMatches contentMatches : nat),
    fold_left (scoreStep item) keywords (score, titleMatches, contentMatches)
    = (fold_left
         (documentedTerm (IndexedDocument.titleLower item)
            (IndexedDocument.contentLower item) (IndexedDocument.weight item))
         keywords score,
       (titleMatches
        + length (List.filter (includes (IndexedDocument.titleLower item)) keywords))%nat,
       (contentMatches
        + length (List.filter (includes (IndexedDocument.contentLower item)) keywords))%nat).
Proof.
  induction keywords as [|keyword keywords IH]; intros score tm cm.
  - simpl. now rewrite !Nat.add_0_r.
  - cbn [fold_left List.filter].
    assert (E : scoreStep item (score, tm, cm) keyword
                = (documentedTerm (IndexedDocument.titleLower item)
                     (IndexedDocument.contentLower item)
                     (IndexedDocument.weight item) score keyword,
                   if includes (IndexedDocument.titleLower item) keyword
                   then S tm else tm,
                   if includes (IndexedDocument.contentLower item) keyword
                   then S cm else cm)).
    { unfold scoreStep, documentedTerm.
      destruct (includes (IndexedDocument.titleLower item) keyword) eqn:Ht;
      destruct (JSString.eqb (IndexedDocument.titleLower item) keyword) eqn:Ee;
      destruct (includes (IndexedDocument.contentLower item) keyword) eqn:Hc;
        try reflexivity;
        apply JSStringFacts.eqb_eq in Ee; rewrite <- Ee, JSStringFacts.includes_refl in Ht;
        discriminate. }
    rewrite E, IH.
    destruct (includes (IndexedDocument.titleLower item) keyword);
    destruct (includes (IndexedDocument.contentLower item) keyword);
      simpl length; f_equal; try (f_equal; lia); lia.
Qed.

Lemma calculateMatchScore_documented (item : IndexedDocument.t)
    (keywords : list jsstring) :
  calculateMatchScore item keywords
  = documentedScore (IndexedDocument.titleLower item)
      (IndexedDocument.contentLower item) (IndexedDocument.weight item) keywords.
Proof.
  unfold calculateMatchScore, documentedScore.
  rewrite scoreStep_documented. simpl.
  set (tm := length (List.filter _ keywords)).
  set (cm := length (List.filter _ keywords)).
  destruct tm, cm; reflexivity.
Qed.

End ScoreFacts.

Section HighlightFacts.
Local Open Scope N_scope.



End HighlightFacts.

Section IndexFacts.
Local Open Scope N_scope.

Lemma tagTail_without_gt (s : jsstring) (n : nat) :
  ~ In 62 s -> tagTail s n = None.
Proof.
  revert n. induction s as [|c s IH]; intros n Hnot; simpl; [reflexivity|].
  destruct (N.eqb_spec c 62) as [->|Hc]; [exfalso; apply Hnot; now left|].
  apply IH. intros Hin. apply Hnot. now right.
Qed.

Lemma tagTail_none_inv (s : jsstring) (n : nat) :
  tagTail s (S n) = None -> ~ In 62 s.
Proof.
  revert n. induction s as [|c s IH]; intros n; simpl; [tauto|].
  destruct (N.eqb_spec c 62) as [->|Hc]; [discriminate|].
  intros E [Hin|Hin]; [congruence|]. exact (IH _ E Hin).
Qed.

Lemma replaceFrom_In (c : N) (s : jsstring) (skip : nat) :
  In c (replaceFrom tagAt (fun _ => []) s skip) -> In c s.
Proof.
  revert skip. induction s as [|c0 s IH]; intros skip.
  - simpl. destruct skip; simpl; tauto.
  - cbn [replaceFrom]. destruct skip as [|k].
    + destruct (tagAt (c0 :: s)) as [[|k]|]; simpl; intros Hin.
      * destruct Hin as [->|Hin]; [now left|right; eapply IH, Hin].
      * right. eapply IH, Hin.
      * destruct Hin as [->|Hin]; [now left|right; eapply IH, Hin].
    + intros Hin. right. eapply IH, Hin.
Qed.

Lemma tagFree_nil : tagFree [].
Proof. intros i. now rewrite skipn_nil. Qed.

Lemma tagFree_cons (c : N) (s : jsstring) :
  tagAt (c :: s) = None -> tagFree s -> tagFree (c :: s).
Proof. intros Hc Hs [|i]; simpl; [exact Hc|apply Hs]. Qed.

Lemma tagAt_positive (s : jsstring) : tagAt s <> Some 0%nat.
Proof.
  destruct s as [|c s]; simpl; [discriminate|].
  destruct (c =? 60); [|discriminate]. destruct (tagTail s 0); discriminate.
Qed.

Lemma replaceFrom_tagFree (s : jsstring) (skip : nat) :
  tagFree (replaceFrom tagAt (fun _ => []) s skip).
Proof.
  revert skip. induction s as [|c s IH]; intros skip.
  - simpl. destruct skip; apply tagFree_nil.
  - cbn [replaceFrom]. destruct skip as [|k]; [|apply IH].
    destruct (tagAt (c :: s)) as [[|k]|] eqn:Hc.
    + exfalso. exact (tagAt_positive _ Hc).
    + simpl. apply IH.
    + apply tagFree_cons; [|apply IH].
      simpl in Hc |- *. destruct (c =? 60); [|reflexivity].
      destruct (tagTail s 0) eqn:Ht; [discriminate|]. clear Hc.
      destruct s as [|c1 s]; [reflexivity|].
      simpl in Ht. cbn [replaceFrom].
      destruct (N.eqb_spec c1 62) as [->|Hc1].
      * simpl. reflexivity.
      * apply tagTail_none_inv in Ht.
        rewrite tagTail_without_gt; [reflexivity|].
        intros Hin.
        assert (Hin' : In 62 (c1 :: s)).
        { apply (replaceFrom_In 62 (c1 :: s) 0). exact Hin. }
        destruct Hin' as [E|Hin']; [congruence|]. exact (Ht Hin').
Qed.

(** Stripping leaves no tag behind, and only code units of the input. *)
Lemma stripTags_tagFree (s : jsstring) : tagFree (stripTags s).
Proof. apply replaceFrom_tagFree. Qed.

Lemma stripTags_In (c : N) (s : jsstring) : In c (stripTags s) -> In c s.
Proof. apply replaceFrom_In. Qed.

End IndexFacts.

Section PreprocessFacts.
Context {tables : Unicode}.

Lemma preprocessSearchData_lookup (data : list DocumentRecord.t) (i : nat) :
  preprocessSearchData data !! i = preprocessItem i <$> data !! i.
Proof. unfold preprocessSearchData. apply list_lookup_imap. Qed.

End PreprocessFacts.

Section ResultFacts.
Context {tables : Unicode}.
Local Open Scope float_scope.

Lemma found_positive options keywords searchIndex :
  Forall positiveResult (scanLoop options keywords searchIndex []).
Proof.
  rewrite scanLoop_scanned. simpl. apply List.Forall_forall. intros r Hr.
  apply in_map_iff in Hr as (item & <- & Hitem).
  apply filter_In in Hitem as [_ Hpos]. exact Hpos.
Qed.

Lemma found_from_index options keywords searchIndex r :
  In r (scanLoop options keywords searchIndex []) ->
  In (ResultItem.item r) searchIndex /\ r = resultFor keywords (ResultItem.item r) /\
  matches keywords (ResultItem.item r) = true.
Proof.
  rewrite scanLoop_scanned. simpl. intros Hr.
  apply in_map_iff in Hr as (item & <- & Hitem).
  apply filter_In in Hitem as [Hin Hpos]. simpl.
  destruct (scannedDocuments_prefix options keywords searchIndex 0) as [beyond E].
  repeat split; [|exact Hpos].
  rewrite E. apply in_or_app. now left.
Qed.

Lemma sort_In (r : ResultItem.t) (l : list ResultItem.t) :
  In r (sort compareFn l) -> In r l.
Proof.
  intros Hr.
  assert (Hall : Forall (fun x => In x l) (sort compareFn l)).
  { apply sort_Forall, List.Forall_forall. auto. }
  rewrite List.Forall_forall in Hall. exact (Hall r Hr).
Qed.

Lemma performSearch_In options query searchIndex r :
  In r (performSearch options query searchIndex) ->
  In r (scanLoop options (keywordsOf query) searchIndex []).
Proof.
  unfold performSearch. intros Hr. apply sort_In.
  rewrite <- (firstn_skipn (maxResults options) (sort compareFn _)).
  apply in_or_app. now left.
Qed.

End ResultFacts.

(** * The widget: facts *)

Section InvariantFacts.
Context {tables : Unicode}.

Lemma step_consistent (event : Event) (w w' : World) :
  consistent w -> step event w = Some w' -> consistent w'.
Proof.
  intros [Hfresh Hload Huniq Hidx Hlong Hcache].
  destruct w as [[opts idx cache loading cur ctl inp res] cs next ab deb con eff unh].
  simpl in *.
  destruct event as [value| | |call settled|call settled|call|]; simpl.
  - destruct inp; intros [= <-]. split; simpl; eauto.
  - destruct inp as [value|]; [|discriminate]. destruct deb; [|discriminate].
    intros [= <-]. js_run; consistent_leaf.
  - destruct inp as [value|]; [|discriminate].
    intros [= <-]. js_run; consistent_leaf.
  - destruct (cs !! call) as [[caller []]|] eqn:Ecall; try discriminate.
    destruct (maySettle _ _ _ _); [|discriminate].
    intros [= <-]. js_run; consistent_leaf.
  - destruct (cs !! call) as [[caller []]|] eqn:Ecall; try discriminate.
    destruct (maySettle _ _ _ _); [|discriminate].
    intros [= <-]. js_run; consistent_leaf.
  - destruct (cs !! call) as [[caller []]|] eqn:Ecall; try discriminate.
    intros [= <-]. js_run; consistent_leaf.
  - intros [= <-]. js_run; consistent_leaf.
Qed.

End InvariantFacts.

Section Reachable.
Context {tables : Unicode}.

Lemma construct_consistent userOptions input result :
  consistent (construct userOptions input result).
Proof. unfold construct. js_run; consistent_leaf. Qed.

Lemma steps_consistent (events : list Event) : forall w w' : World,
  consistent w -> steps events w = Some w' -> consistent w'.
Proof.
  induction events as [|event events IH]; intros w w' Hw; simpl.
  - intros [= <-]. exact Hw.
  - destruct (step event w) as [w1|] eqn:E; [|discriminate].
    apply IH. eapply step_consistent; eassumption.
Qed.

Lemma reachable_consistent (w : World) : reachable w -> consistent w.
Proof.
  intros (userOptions & input & result & events & Hsteps).
  eapply steps_consistent; [apply construct_consistent|exact Hsteps].
Qed.

Lemma steps_app (events1 events2 : list Event) (w : World) :
  steps (events1 ++ events2) w
  = match steps events1 w with
    | Some w' => steps events2 w'
    | None => None
    end.
Proof.
  revert w. induction events1 as [|event events1 IH]; intros w; simpl; [reflexivity|].
  destruct (step event w); [apply IH|reflexivity].
Qed.

Lemma reachable_steps (events : list Event) (w w' : World) :
  reachable w -> steps events w = Some w' -> reachable w'.
Proof.
  intros (userOptions & input & result & events0 & Hsteps) Hw'.
  exists userOptions, input, result, (events0 ++ events).
  now rewrite steps_app, Hsteps.
Qed.

(** The options are those of the constructor for good. *)
Lemma step_options (event : Event) (w w' : World) :
  step event w = Some w' -> options (this w') = options (this w).
Proof.
  destruct w as [[opts idx cache loading cur ctl inp res] cs next ab deb con eff unh].
  destruct event as [value| | |call settled|call settled|call|]; simpl.
  - destruct inp; intros [= <-]; reflexivity.
  - destruct inp as [value|]; [|discriminate]. destruct deb; [|discriminate].
    intros [= <-]. js_run; reflexivity.
  - destruct inp as [value|]; [|discriminate].
    intros [= <-]. js_run; reflexivity.
  - destruct (cs !! call) as [[caller []]|] eqn:Ecall; try discriminate.
    destruct (maySettle _ _ _ _); [|discriminate].
    intros [= <-]. js_run; reflexivity.
  - destruct (cs !! call) as [[caller []]|] eqn:Ecall; try discriminate.
    destruct (maySettle _ _ _ _); [|discriminate].
    intros [= <-]. js_run; reflexivity.
  - destruct (cs !! call) as [[caller []]|] eqn:Ecall; try discriminate.
    intros [= <-]. js_run; reflexivity.
  - intros [= <-]. js_run; reflexivity.
Qed.

(** Short of [destroy], an entry of the cache stays as it is. *)
Lemma step_cache_stable (event : Event) (w w' : World) query results :
  consistent w -> event <> Destroy -> step event w = Some w' ->
  searchCache (this w) !! query = Some results ->
  searchCache (this w') !! query = Some results.
Proof.
  intros [Hfresh Hload Huniq Hidx Hlong Hcache] Hevent.
  destruct w as [[opts idx cache loading cur ctl inp res] cs next ab deb con eff unh].
  simpl in *.
  assert (Hleaf : forall query' (index : list IndexedDocument.t),
             idx = Some index -> cache !! query = Some results ->
             <[query' := performSearch opts query' index]> cache !! query
             = Some results).
  { intros query' index -> Hq. rewrite lookup_insert. case_decide; [|exact Hq].
    subst query'. destruct (Hcache _ _ Hq) as (_ & index' & [= <-] & ->).
    reflexivity. }
  destruct event as [value| | |call settled|call settled|call|]; simpl;
    [| | | | | |congruence].
  - destruct inp; intros [= <-]; simpl; auto.
  - destruct inp as [value|]; [|discriminate]. destruct deb; [|discriminate].
    intros [= <-]. js_run; intros Hq; try assumption; try congruence;
      match goal with Hp : performSearch _ _ _ = _ |- _ => rewrite <- Hp end;
      apply Hleaf; auto.
  - destruct inp as [value|]; [|discriminate].
    intros [= <-]. js_run; intros Hq; assumption.
  - destruct (cs !! call) as [[caller []]|] eqn:Ecall; try discriminate.
    destruct (maySettle _ _ _ _); [|discriminate].
    intros [= <-]. js_run; intros Hq; try assumption; try congruence.
  - destruct (cs !! call) as [[caller []]|] eqn:Ecall; try discriminate.
    destruct (maySettle _ _ _ _); [|discriminate].
    intros [= <-]. pose proof (Hload _ _ _ Ecall eq_refl) as Hl.
    pose proof (Hidx Hl) as Hi.
    js_run; intros Hq; try assumption; try congruence;
      destruct (Hcache _ _ Hq) as (_ & index' & ? & _); congruence.
  - destruct (cs !! call) as [[caller []]|] eqn:Ecall; try discriminate.
    intros [= <-]. js_run; intros Hq; try assumption; try congruence;
      match goal with Hp : performSearch _ _ _ = _ |- _ => rewrite <- Hp end;
      apply Hleaf; auto.
Qed.

Lemma steps_cache_stable (events : list Event) : forall (w w' : World) query results,
  consistent w -> ~ In Destroy events -> steps events w = Some w' ->
  searchCache (this w) !! query = Some results ->
  searchCache (this w') !! query = Some results.
Proof.
  induction events as [|event events IH]; intros w w' query results Hw Hno; simpl.
  - intros [= <-]. auto.
  - destruct (step event w) as [w1|] eqn:E; [|discriminate].
    intros Hsteps Hq. apply (IH w1 w'); auto.
    + eapply step_consistent; eassumption.
    + intros Hin. apply Hno. now right.
    + eapply step_cache_stable; try eassumption.
      intros ->. apply Hno. now left.
Qed.

End Reachable.

Section WidgetFacts.
Context {tables : Unicode}.

(** A query that is no longer the current one when the load settles is
    dropped: nothing is scored, cached or shown. *)
Lemma handleSearch_resume_stale (w : World) (query : jsstring)
    (index : list IndexedDocument.t) :
  currentQuery (this w) <> query ->
  handleSearch_resume query (Normal (Some index)) w = (Normal tt, w).
Proof.
  intros Hne. js_reduce. rewrite (JSStringFacts.eqb_neq _ _ Hne). reflexivity.
Qed.

(** A query that is still the current one is scored, cached and shown, in
    one go. *)
Lemma handleSearch_resume_current (w : World) (index : list IndexedDocument.t) :
  let query := currentQuery (this w) in
  let results := performSearch (options (this w)) query index in
  exists w',
    handleSearch_resume query (Normal (Some index)) w = (Normal tt, w') /\
    searchCache (this w') = <[query := results]> (searchCache (this w)) /\
    effects w' = effects w ++ [Searched query] /\
    resultElement (this w') = written (rendered results query) (resultElement (this w)) /\
    currentQuery (this w') = query /\ unhandled w' = unhandled w.
Proof.
  destruct w as [[opts idx cache loading cur ctl inp res] cs next ab deb con eff unh].
  intros query results. simpl in query, results. subst query.
  js_reduce. rewrite JSStringFacts.eqb_refl. js_reduce. fold results.
  destruct results, res; js_reduce; rewrite JSStringFacts.eqb_refl; js_reduce;
    eexists; repeat split; reflexivity.
Qed.

End WidgetFacts.

Lemma reachable_after {tables : Unicode} userOptions input result events w :
  steps events (construct userOptions input result) = Some w ->
  reachable (after events (construct userOptions input result)).
Proof.
  intros E. unfold after. rewrite E. simpl.
  exists userOptions, input, result, events. exact E.
Qed.

(** * The index and the query processor: the properties *)

(** C3, as the code has it.  Preprocessing keeps the order of the records and
    numbers them by position.  The content of an indexed document is the
    content of the record (empty when missing) with every match of
    [<[^>]+>] removed, and no tag is left in it; its title is the title of
    the record, or ["Untitled"] when that is missing or empty; [contentLower]
    is the lower-cased stripped content.  [titleLower] is the lower-cased
    title of the record: the lower-cased stored title when the record has a
    title, and the lower-casing of the empty string, not of the sentinel,
    when it has none. *)
Theorem preprocessed_document {tables : Unicode} (data : list DocumentRecord.t) (i : nat) :
  preprocessSearchData data !! i = preprocessItem i <$> data !! i /\
  forall item : DocumentRecord.t,
    let doc := preprocessItem i item in
    IndexedDocument.id doc = i /\
    IndexedDocument.content doc
    = stripTags (default [] (DocumentRecord.content item)) /\
    tagFree (IndexedDocument.content doc) /\
    IndexedDocument.title doc
    = match DocumentRecord.title item with
      | Some (c :: title) => c :: title
      | _ => js "Untitled"
      end /\
    IndexedDocument.contentLower doc = toLowerCase (IndexedDocument.content doc) /\
    IndexedDocument.titleLower doc
    = toLowerCase (default [] (DocumentRecord.title item)) /\
    match DocumentRecord.title item with
    | Some (c :: title) =>
        IndexedDocument.titleLower doc = toLowerCase (IndexedDocument.title doc)
    | _ =>
        IndexedDocument.title doc = js "Untitled" /\
        IndexedDocument.titleLower doc = toLowerCase []
    end.
Proof.
  split; [apply preprocessSearchData_lookup|].
  intros item doc. subst doc. unfold preprocessItem. simpl.
  assert (Hc : orElse (DocumentRecord.content item) []
               = default [] (DocumentRecord.content item)).
  { destruct (DocumentRecord.content item) as [[|c s]|]; reflexivity. }
  assert (Ht : orElse (DocumentRecord.title item) []
               = default [] (DocumentRecord.title item)).
  { destruct (DocumentRecord.title item) as [[|c s]|]; reflexivity. }
  rewrite Hc, Ht.
  repeat split; try apply stripTags_tagFree.
  destruct (DocumentRecord.title item) as [[|c s]|]; simpl; auto.
Qed.

(** C3 as stated fails: for a record without a title the stored title is the
    sentinel, and [titleLower] is empty, not the lower-cased sentinel; a
    search of the precomputed field for ["untitled"] finds nothing where
    lower-casing the stored title would. *)
Lemma untitled_titleLower_is_empty :
  let item := DocumentRecord.mk None (Some (js "<p>Hello</p>")) (js "/a") in
  let doc := preprocessItem (tables := ascii_tables) 0 item in
  IndexedDocument.title doc = js "Untitled" /\
  IndexedDocument.titleLower doc = [] /\
  toLowerCase (Unicode := ascii_tables) (IndexedDocument.title doc) = js "untitled" /\
  IndexedDocument.titleLower doc
  <> toLowerCase (Unicode := ascii_tables) (IndexedDocument.title doc) /\
  includes (toLowerCase (Unicode := ascii_tables) (IndexedDocument.title doc))
    (js "untitled") = true /\
  includes (IndexedDocument.titleLower doc) (js "untitled") = false.
Proof. repeat split; try reflexivity. discriminate. Qed.

(** C1, as the code has it.  The score of a document is the documented
    formula, for every token list.  Every result [performSearch] returns
    stands for a document of the index, carries the score of that document,
    and the score is positive.  Among the documents the loop reads, a result
    is pushed for exactly those whose score is positive; a document the loop
    does not reach, or one sorted past [maxResults], has no result whatever
    its score. *)
Theorem match_score_of_results {tables : Unicode} (options : Options) (query : jsstring)
    (searchIndex : list IndexedDocument.t) :
  let keywords := keywordsOf query in
  (forall (item : IndexedDocument.t) (tokens : list jsstring),
      calculateMatchScore item tokens
      = documentedScore (IndexedDocument.titleLower item)
          (IndexedDocument.contentLower item) (IndexedDocument.weight item) tokens) /\
  (forall r : ResultItem.t,
      In r (performSearch options query searchIndex) ->
      In (ResultItem.item r) searchIndex /\
      r = resultFor keywords (ResultItem.item r) /\
      (0 <? ResultItem.matchScore r)%float = true /\
      ResultItem.matchScore r
      = documentedScore (IndexedDocument.titleLower (ResultItem.item r))
          (IndexedDocument.contentLower (ResultItem.item r))
          (IndexedDocument.weight (ResultItem.item r)) keywords) /\
  (forall item : IndexedDocument.t,
      In item (scannedDocuments options keywords searchIndex 0) ->
      (In (resultFor keywords item) (scanLoop options keywords searchIndex [])
       <-> (0 <? calculateMatchScore item keywords)%float = true)).
Proof.
  intros keywords. split; [|split].
  - intros item tokens. apply calculateMatchScore_documented.
  - intros r Hr. apply performSearch_In, found_from_index in Hr as (Hin & Er & Hpos).
    fold keywords in Er, Hpos.
    repeat split; try assumption.
    + rewrite Er. exact Hpos.
    + rewrite Er at 1. simpl. apply calculateMatchScore_documented.
  - intros item Hitem. rewrite scanLoop_scanned. simpl. split.
    + intros Hr. apply in_map_iff in Hr as (item' & E & Hin).
      apply filter_In in Hin as [_ Hpos].
      apply (f_equal ResultItem.item) in E. simpl in E. subst item'. exact Hpos.
    + intros Hpos. apply in_map, filter_In. split; assumption.
Qed.

(** C1 as stated fails.  With the default options, in an index of 101
    documents that all contain the query, the last document has a positive
    score and no result is made for it: the loop stops at the hundredth
    result. *)
Lemma positive_document_without_result :
  let searchIndex := List.map learnDocument (seq 0 101) in
  let keywords := keywordsOf (tables := ascii_tables) (js "learn") in
  keywords <> [] /\
  In (learnDocument 100) searchIndex /\
  (0 <? calculateMatchScore (learnDocument 100) keywords)%float = true /\
  ~ In (learnDocument 100)
      (List.map ResultItem.item
         (scanLoop (tables := ascii_tables) defaultOptions keywords searchIndex [])) /\
  ~ In (learnDocument 100)
      (List.map ResultItem.item
         (performSearch (tables := ascii_tables) defaultOptions (js "learn") searchIndex)).
Proof.
  intros searchIndex keywords.
  assert (Hfound :
    List.map (fun r => IndexedDocument.id (ResultItem.item r))
      (scanLoop (tables := ascii_tables) defaultOptions keywords searchIndex [])
    = seq 0 100) by (vm_compute; reflexivity).
  assert (Hreturned :
    List.map (fun r => IndexedDocument.id (ResultItem.item r))
      (performSearch (tables := ascii_tables) defaultOptions (js "learn") searchIndex)
    = seq 0 50) by (vm_compute; reflexivity).
  split; [discriminate|]. split; [|split; [|split]].
  - apply in_map_iff. exists 100%nat. split; [reflexivity|]. apply in_seq. lia.
  - vm_compute. reflexivity.
  - intros Hin. apply (in_map IndexedDocument.id) in Hin.
    rewrite map_map, Hfound in Hin. apply in_seq in Hin. simpl in Hin. lia.
  - intros Hin. apply (in_map IndexedDocument.id) in Hin.
    rewrite map_map, Hreturned in Hin. apply in_seq in Hin. simpl in Hin. lia.
Qed.

(** C4.  The results of [performSearch] are in descending order of
    [matchScore]; the results of any one score stand in the order in which
    the loop found them, which is the order of the index (the sort is stable,
    and the truncation keeps a prefix); and there are at most [maxResults]
    of them. *)
Theorem results_sorted_stable_truncated {tables : Unicode} (options : Options)
    (query : jsstring) (searchIndex : list IndexedDocument.t) :
  let keywords := keywordsOf query in
  let found := scanLoop options keywords searchIndex [] in
  let results := performSearch options query searchIndex in
  StronglySorted descending results /\
  (exists scanned beyond,
      searchIndex = scanned ++ beyond /\
      found = List.map (resultFor keywords) (List.filter (matches keywords) scanned)) /\
  (forall v : float, exists later,
      List.filter (scored v) found = List.filter (scored v) results ++ later) /\
  length results <= maxResults options.
Proof.
  intros keywords found results.
  pose proof (found_positive options keywords searchIndex) as Hpos.
  fold found in Hpos.
  split; [|split; [|split]].
  - apply StronglySorted_firstn, sort_sorted, Hpos.
  - destruct (scannedDocuments_prefix options keywords searchIndex 0) as [beyond E].
    exists (scannedDocuments options keywords searchIndex 0), beyond.
    split; [exact E|]. unfold found. now rewrite scanLoop_scanned.
  - intros v. exists (List.filter (scored v) (skipn (maxResults options) (sort compareFn found))).
    unfold results, performSearch. fold keywords. fold found.
    rewrite <- List.filter_app, firstn_skipn. symmetry. apply sort_scored, Hpos.
  - unfold results, performSearch. rewrite length_firstn. lia.
Qed.

(** C5, as the code has it.  The loop of [performSearch] reads a prefix of the
    index and nothing beyond it, and the results it accumulates are those of
    the positive documents of that prefix; what stands after the prefix
    changes neither the documents scored nor the results.  With [maxResults]
    at least one, the results are at most [2 * maxResults]; the loop leaves
    documents unread only when that number is reached, and it goes on as
    long as it is not.  With [maxResults] zero, the loop still reads the
    first document before it tests the cutoff and reads no other: when that
    document matches, one result is accumulated, more than [2 * maxResults]. *)
Theorem scan_stops_at_cutoff {tables : Unicode} (options : Options) (query : jsstring)
    (searchIndex : list IndexedDocument.t) :
  let keywords := keywordsOf query in
  let scanned := scannedDocuments options keywords searchIndex 0 in
  let found := scanLoop options keywords searchIndex [] in
  exists beyond : list IndexedDocument.t,
    searchIndex = scanned ++ beyond /\
    found = List.map (resultFor keywords) (List.filter (matches keywords) scanned) /\
    (1 <= maxResults options ->
     length found <= 2 * maxResults options /\
     (beyond <> [] -> length found = 2 * maxResults options) /\
     (forall k, k < length scanned ->
        length (List.filter (matches keywords) (firstn k scanned))
        < 2 * maxResults options)) /\
    (maxResults options = 0 ->
     scanned = firstn 1 searchIndex /\
     length found <= 1 /\
     (forall item rest, searchIndex = item :: rest ->
        matches keywords item = true -> length found = 1)) /\
    (beyond <> [] ->
     forall other : list IndexedDocument.t,
       scannedDocuments options keywords (scanned ++ other) 0 = scanned /\
       scanLoop options keywords (scanned ++ other) [] = found).
Proof.
  intros keywords scanned found.
  destruct (scannedDocuments_prefix options keywords searchIndex 0) as [beyond E].
  fold scanned in E. exists beyond.
  assert (Hfound : found
    = List.map (resultFor keywords) (List.filter (matches keywords) scanned)).
  { unfold found. now rewrite scanLoop_scanned. }
  split; [exact E|]. split; [exact Hfound|].
  split; [|split].
  - intros Hmax. rewrite Hfound, length_map. split; [|split].
    + pose proof (scanned_count_bound options keywords searchIndex 0 ltac:(lia)) as Hb.
      fold scanned in Hb. lia.
    + intros Hbeyond.
      pose proof (scanned_cutoff options keywords searchIndex 0 beyond ltac:(lia) E Hbeyond)
        as Hc.
      fold scanned in Hc. lia.
    + intros k Hk.
      pose proof (scanned_below_cutoff options keywords searchIndex 0 k ltac:(lia) Hk)
        as Hc.
      fold scanned in Hc. lia.
  - intros Hzero.
    assert (Hfirst : scanned = firstn 1 searchIndex).
    { unfold scanned. destruct searchIndex as [|item rest]; [reflexivity|].
      simpl. rewrite Hzero. reflexivity. }
    split; [exact Hfirst|]. rewrite Hfound, length_map, Hfirst. split.
    + destruct searchIndex as [|item rest]; simpl; [lia|].
      destruct (matches keywords item); simpl; lia.
    + intros item rest -> Hitem. simpl. now rewrite Hitem.
  - intros Hbeyond other.
    pose proof (scanned_independent options keywords searchIndex 0 beyond other E Hbeyond)
      as Hi.
    fold scanned in Hi. split; [exact Hi|].
    rewrite scanLoop_scanned. simpl. rewrite Hi. symmetry. exact Hfound.
Qed.

(** C8.  When the fetch of a load answers with a status outside 200..299, the
    load fails with the HTTP error; the result container, where the page has
    one, shows the error state; the load is over ([isLoading] is false, the
    call is gone); and nothing is left unhandled, whoever awaited the load,
    the preload of the constructor or a search. *)
Theorem http_error_shows_error_state {tables : Unicode} (w : World) (call : nat)
    (caller : Caller) (status : nat) :
  calls w !! call = Some (caller, AwaitFetch) ->
  call ∉ aborted w ->
  ok status = false ->
  fst (loadSearchIndex_afterFetch (Normal status) w) = Throw (HttpError status) /\
  exists w',
    step (FetchSettled call (Normal status)) w = Some w' /\
    resultElement (this w') = written ErrorState (resultElement (this w)) /\
    unhandled w' = unhandled w /\
    isLoading (this w') = false /\
    abortController (this w') = None /\
    calls w' = delete call (calls w) /\
    In (ErrorLoadFailed (HttpError status)) (console w').
Proof.
  intros Hcall Hab Hok.
  destruct w as [[opts idx cache loading cur ctl inp res] cs next ab deb con eff unh].
  simpl in *. rewrite Hcall. rewrite (bool_decide_eq_true_2 _ Hab).
  split.
  - js_reduce. rewrite Hok. js_reduce. destruct res; reflexivity.
  - js_reduce. rewrite Hok.
    destruct caller, res; js_reduce; eexists; (split; [reflexivity|]);
      repeat split;
      apply in_or_app; left; apply in_or_app; right; now left.
Qed.

(** C9, as the code has it.  When a load that was aborted settles, at the
    fetch or at the reading of the body, whichever the load awaited when it
    was aborted, it resolves to [null] and nothing is thrown or left
    unhandled; [isLoading] and [abortController] are reset, so that the next
    call of [loadSearchIndex] fetches again; the console gets the line of the
    cancellation and no error.  The result container is left as it was: it
    keeps showing the loading state if that is what it showed. *)
Theorem aborted_load_resolves_to_null {tables : Unicode} (w : World) (call : nat)
    (caller : Caller) (on : Await) :
  reachable w ->
  calls w !! call = Some (caller, on) ->
  loads on = true ->
  call ∈ aborted w ->
  let piece :=
    match on with
    | AwaitJson => loadSearchIndex_afterJson (Throw AbortError)
    | _ => loadSearchIndex_afterFetch (Throw AbortError)
    end in
  let event :=
    match on with
    | AwaitJson => JsonSettled call (Throw AbortError)
    | _ => FetchSettled call (Throw AbortError)
    end in
  fst (piece w) = Normal (Returned None) /\
  exists w',
    step event w = Some w' /\
    isLoading (this w') = false /\
    abortController (this w') = None /\
    calls w' = delete call (calls w) /\
    unhandled w' = unhandled w /\
    console w' = console w ++ [LogLoadingCancelled] /\
    resultElement (this w') = resultElement (this w) /\
    forall call' : nat,
      exists w'',
        loadSearchIndex call' w' = (Normal (Suspended AwaitFetch), w'') /\
        effects w'' = effects w' ++ [Fetched call'] /\
        isLoading (this w'') = true /\
        abortController (this w'') = Some call'.
Proof.
  intros Hreach Hcall Hloads Hab.
  destruct (reachable_consistent w Hreach) as [_ Hload _ Hidx _ _].
  pose proof (Hidx (Hload _ _ _ Hcall Hloads)) as Hnone.
  destruct w as [[opts idx cache loading cur ctl inp res] cs next ab deb con eff unh].
  simpl in *. subst idx.
  destruct on; [discriminate Hloads| |];
    cbv zeta; cbn [step calls aborted]; rewrite Hcall;
    cbn [maySettle isAbortError aborted]; rewrite (bool_decide_eq_true_2 _ Hab);
    (split; [reflexivity|]);
    destruct caller; js_reduce; eexists; (split; [reflexivity|]);
      repeat split; intros call'; destruct res; js_reduce;
      eexists; repeat split; reflexivity.
Qed.

(** C10, as the code has it.  When the load a search awaited has settled with
    an index, the query is compared with the current one before anything
    else.  A query that is no longer current is dropped: the world is left as
    it is, nothing scored, nothing cached, nothing shown.  A query that is
    still current is scored, its results are cached under it and shown; the
    test after the caching always passes. *)
Theorem search_after_load_checks_query_first {tables : Unicode} (w : World)
    (query : jsstring) (index : list IndexedDocument.t) :
  (currentQuery (this w) <> query ->
   handleSearch_resume query (Normal (Some index)) w = (Normal tt, w)) /\
  (currentQuery (this w) = query ->
   let results := performSearch (options (this w)) query index in
   exists w',
     handleSearch_resume query (Normal (Some index)) w = (Normal tt, w') /\
     searchCache (this w') = <[query := results]> (searchCache (this w)) /\
     effects w' = effects w ++ [Searched query] /\
     resultElement (this w')
     = written (rendered results query) (resultElement (this w))).
Proof.
  split.
  - apply handleSearch_resume_stale.
  - intros <-. intros results.
    destruct (handleSearch_resume_current w index) as (w' & E & Hc & He & Hr & _).
    exists w'. auto.
Qed.

(** C6, as the code has it.  Once the results of a query are in the cache,
    where the issuance that searched for it put them, and as long as the
    widget is not destroyed, issuing the same trimmed query again shows
    exactly those results, taken from the cache under the query as it was
    typed and trimmed: [performSearch] is not called, nothing is fetched, and
    the cache is left as it is.  The results are those of scoring the query
    against the index. *)
Theorem cache_hit_repeats_first_results {tables : Unicode} (w w' : World)
    (events : list Event) (value query : jsstring) (results : list ResultItem.t) :
  reachable w ->
  searchCache (this w) !! query = Some results ->
  ~ In Destroy events ->
  steps events w = Some w' ->
  inputElement (this w') = Some value ->
  debounceTimer w' = true ->
  trim value = query ->
  exists w'',
    step DebounceTimeout w' = Some w'' /\
    resultElement (this w'')
    = written (rendered results query) (resultElement (this w')) /\
    effects w'' = effects w' /\
    searchCache (this w'') = searchCache (this w') /\
    searchCache (this w'') !! query = Some results /\
    currentQuery (this w'') = query /\
    exists index,
      searchIndex (this w'') = Some index /\
      results = performSearch (options (this w'')) query index.
Proof.
  intros Hreach Hq Hno Hsteps Hinput Htimer Htrim.
  pose proof (reachable_consistent w Hreach) as Hw.
  pose proof (steps_consistent events w w' Hw Hsteps) as Hw'.
  pose proof (steps_cache_stable events w w' query results Hw Hno Hsteps Hq) as Hq'.
  destruct (cache_of_index w' Hw' query results Hq') as (Hlen & index & Hindex & Hresults).
  destruct w' as [[opts idx cache loading cur ctl inp res] cs next ab deb con eff unh].
  simpl in *. subst inp deb idx.
  assert (Hshort : (length (trim value) <? minQueryLength opts)%nat = false).
  { apply Nat.ltb_ge. now rewrite Htrim. }
  js_reduce. rewrite Hshort. js_reduce. rewrite Htrim, Hq'.
  destruct results, res; js_reduce; eexists; (split; [reflexivity|]);
    repeat split; eauto.
Qed.

(** C7, as the code has it.  In every world the widget can come to, at most
    one call of [loadSearchIndex] holds a fetch; a call made while
    [isLoading] is true does not fetch, it waits on the timer and leaves the
    world as it is; and a waiting call, each time its timer fires, waits on
    while [isLoading] is true and then returns [this.searchIndex] as it finds
    it, which its caller gets; it never throws.  So when the timer fires in
    the world a load has left, a caller that waited gets the index if the
    load succeeded, as the caller that started it, and [null] if the load
    failed, when the caller that started it gets the error. *)
Theorem one_fetch_for_concurrent_calls {tables : Unicode} (w : World) :
  reachable w ->
  (forall call1 call2 caller1 caller2 on1 on2,
      calls w !! call1 = Some (caller1, on1) -> loads on1 = true ->
      calls w !! call2 = Some (caller2, on2) -> loads on2 = true ->
      call1 = call2) /\
  (isLoading (this w) = true ->
   forall call, loadSearchIndex call w = (Normal (Suspended AwaitTimer), w)) /\
  loadSearchIndex_afterTimer w
  = (if isLoading (this w) then (Normal (Suspended AwaitTimer), w)
     else (Normal (Returned (searchIndex (this w))), w)) /\
  (forall call caller,
      calls w !! call = Some (caller, AwaitTimer) ->
      step (TimerFired call) w
      = Some (if isLoading (this w) then w
              else run (resume caller (Normal (searchIndex (this w))))
                     (set_calls (delete call (calls w)) w))) /\
  (forall data, exists w',
      loadSearchIndex_afterJson (Normal (JsonArray data)) w
      = (Normal (Returned (Some (preprocessSearchData data))), w') /\
      loadSearchIndex_afterTimer w'
      = (Normal (Returned (Some (preprocessSearchData data))), w')) /\
  (isLoading (this w) = true ->
   (forall error, isAbortError error = false -> exists w',
       loadSearchIndex_afterFetch (Throw error) w = (Throw error, w') /\
       loadSearchIndex_afterJson (Throw error) w = (Throw error, w') /\
       loadSearchIndex_afterTimer w' = (Normal (Returned None), w')) /\
   (forall status, ok status = false -> exists w',
       loadSearchIndex_afterFetch (Normal status) w = (Throw (HttpError status), w') /\
       loadSearchIndex_afterTimer w' = (Normal (Returned None), w'))).
Proof.
  intros Hreach.
  destruct (reachable_consistent w Hreach) as [_ _ Huniq Hidx _ _].
  destruct w as [[opts idx cache loading cur ctl inp res] cs next ab deb con eff unh].
  simpl in *.
  split; [exact Huniq|]. split; [|split; [|split; [|split]]].
  - intros ->. rewrite (Hidx eq_refl). reflexivity.
  - destruct loading; reflexivity.
  - intros call caller Hcall. rewrite Hcall.
    destruct loading; js_reduce; [|reflexivity].
    now rewrite (insert_id _ _ _ Hcall).
  - intros data. js_reduce. eexists. split; reflexivity.
  - intros ->. rewrite (Hidx eq_refl). split.
    + intros error Herror. js_reduce. rewrite Herror.
      destruct res; js_reduce; eexists; repeat split; reflexivity.
    + intros status Hok. js_reduce. rewrite Hok.
      destruct res; js_reduce; eexists; repeat split; reflexivity.
Qed.
Section Examples.
Local Existing Instance ascii_tables.

Example example_of_the_specification :
  List.map (fun r => (IndexedDocument.url (ResultItem.item r), ResultItem.matchScore r))
    (performSearch defaultOptions (js "learn") sampleIndex)
  = [(js "/a", 1%float); (js "/b", 1%float)].
Proof. vm_compute. reflexivity. Qed.

(** C2 fails on the code.  A search for ["learn"] is issued while the index
    loads; the user then shortens the input to ["l"], and the handler of that
    input clears the container but leaves [currentQuery] at ["learn"]; when
    the load is over and the waiting search goes on, it passes the staleness
    test and writes its results under an input that reads ["l"]. *)
Theorem short_input_leaves_stale_results :
  let before :=
    [ Input (js "learn"); DebounceTimeout; Input (js "l"); DebounceTimeout;
      FetchSettled 0 (Normal 200); JsonSettled 0 (Normal (JsonArray sampleData)) ] in
  exists w w',
    steps before page = Some w /\
    inputElement (this w) = Some (js "l") /\
    resultElement (this w) = Some Blank /\
    currentQuery (this w) = js "learn" /\
    calls w !! 1 = Some (Search (js "learn"), AwaitTimer) /\
    step (TimerFired 1) w = Some w' /\
    inputElement (this w') = Some (js "l") /\
    resultElement (this w')
    = Some (ResultList (performSearch defaultOptions (js "learn") sampleIndex)) /\
    length (performSearch defaultOptions (js "learn") sampleIndex) = 2.
Proof.
  intros before. eexists. eexists. run_page.
Qed.

(** The sibling path: after [clearSearch] the same search is dropped. *)
Example dismissal_drops_the_pending_search :
  let events :=
    [ Input (js "learn"); DebounceTimeout; Dismiss;
      FetchSettled 0 (Normal 200); JsonSettled 0 (Normal (JsonArray sampleData));
      TimerFired 1 ] in
  exists w,
    steps events page = Some w /\
    resultElement (this w) = Some Blank /\
    effects w = [Fetched 0].
Proof.
  intros events. eexists. run_page.
Qed.

(** C5 as stated fails.  A widget made with [maxResults: 0] keeps the zero,
    and its cutoff is zero; the loop reads the first document of the example
    of the specification, which matches ["learn"], and accumulates its
    result before it tests the cutoff: one result, more than
    [2 * maxResults], none of which is returned. *)
Lemma result_accumulated_beyond_the_cutoff :
  let keywords := keywordsOf (js "learn") in
  let found := scanLoop noResult keywords sampleIndex [] in
  maxResults noResult = 0 /\
  scannedDocuments noResult keywords sampleIndex 0 = firstn 1 sampleIndex /\
  length found = 1 /\
  ~ length found <= 2 * maxResults noResult /\
  performSearch noResult (js "learn") sampleIndex = [].
Proof.
  intros keywords found.
  assert (Hfound : length found = 1) by (vm_compute; reflexivity).
  split; [reflexivity|]. split; [vm_compute; reflexivity|].
  split; [exact Hfound|]. split; [rewrite Hfound; simpl; lia|].
  vm_compute. reflexivity.
Qed.

(** C6 as stated fails.  ["learn"] is issued twice while the index loads:
    nothing is in the cache at the second issuance, both calls wait for the
    load, and when it is over each of them scores the query. *)
Lemma query_issued_twice_is_scored_twice :
  let issued :=
    [ Input (js "learn"); DebounceTimeout; Input (js "learn"); DebounceTimeout ] in
  let loaded :=
    [ FetchSettled 0 (Normal 200); JsonSettled 0 (Normal (JsonArray sampleData));
      TimerFired 1; TimerFired 2 ] in
  ~ In Destroy (issued ++ loaded) /\
  exists w w',
    steps issued page = Some w /\
    searchCache (this w) !! js "learn" = None /\
    calls w !! 1 = Some (Search (js "learn"), AwaitTimer) /\
    calls w !! 2 = Some (Search (js "learn"), AwaitTimer) /\
    steps loaded w = Some w' /\
    effects w' = [Fetched 0; Searched (js "learn"); Searched (js "learn")].
Proof.
  intros issued loaded. split.
  - intros Hin. repeat (destruct Hin as [Hin|Hin]; [discriminate Hin|]). exact Hin.
  - eexists. eexists. run_page.
Qed.

(** C7 as stated fails on a failed load.  The preload starts the load and a
    search waits for it; the server answers 500.  The call that started the
    load is rejected with the HTTP error, and the preload reports it; the
    waiting call returns [null], and the search that awaited it ends without
    a word. *)
Lemma waiting_call_misses_the_failure :
  exists w w',
    steps [Input (js "learn"); DebounceTimeout] page = Some w /\
    calls w !! 0 = Some (Preload, AwaitFetch) /\
    calls w !! 1 = Some (Search (js "learn"), AwaitTimer) /\
    fst (loadSearchIndex_afterFetch (Normal 500) w) = Throw (HttpError 500) /\
    fst (loadSearchIndex_afterTimer (snd (loadSearchIndex_afterFetch (Normal 500) w)))
    = Normal (Returned None) /\
    Throw (HttpError 500) <> Normal (Returned (@None (list IndexedDocument.t))) /\
    steps [FetchSettled 0 (Normal 500); TimerFired 1] w = Some w' /\
    console w' = [ErrorLoadFailed (HttpError 500); LogPreloadFailed] /\
    map_to_list (calls w') = [].
Proof.
  eexists. eexists. run_page. discriminate.
Qed.

(** What a waiting call finds depends on what ran before its timer fired.
    After a load that succeeded and a [destroy()], it returns [null]. *)
Example waiting_call_after_destroy :
  let events :=
    [ Input (js "learn"); DebounceTimeout;
      FetchSettled 0 (Normal 200); JsonSettled 0 (Normal (JsonArray sampleData));
      Destroy ] in
  exists w,
    steps events page = Some w /\
    calls w !! 1 = Some (Search (js "learn"), AwaitTimer) /\
    fst (loadSearchIndex_afterTimer w) = Normal (Returned None).
Proof.
  intros events. eexists. run_page.
Qed.

(** After a load that failed and a new load that succeeded, it returns the
    index of the new load. *)
Example waiting_call_after_a_new_load :
  let events :=
    [ Input (js "learn"); DebounceTimeout; FetchSettled 0 (Normal 500);
      Input (js "rust"); DebounceTimeout;
      FetchSettled 2 (Normal 200); JsonSettled 2 (Normal (JsonArray sampleData)) ] in
  exists w,
    steps events page = Some w /\
    calls w !! 1 = Some (Search (js "learn"), AwaitTimer) /\
    fst (loadSearchIndex_afterTimer w) = Normal (Returned (Some sampleIndex)).
Proof.
  intros events. eexists. run_page.
Qed.

(** C9 as stated fails on the loading state.  The widget is destroyed while
    the preload fetches; the fetch settles with [AbortError]; the load is over
    and nothing is pending, and the result container still shows the loading
    state. *)
Lemma aborted_load_leaves_loading_state :
  exists w,
    steps [Destroy; FetchSettled 0 (Throw AbortError)] page = Some w /\
    isLoading (this w) = false /\
    map_to_list (calls w) = [] /\
    debounceTimer w = false /\
    resultElement (this w) = Some LoadingState.
Proof.
  eexists. run_page.
Qed.

(** C10 as stated fails.  The query ["rust"] waits for the load and is
    replaced by ["learn"] before the load is over; when its call returns it
    is dropped, neither scored nor cached; typed again, it is scored then. *)
Lemma stale_query_is_not_cached :
  let events :=
    [ Input (js "rust"); DebounceTimeout; Input (js "learn"); DebounceTimeout;
      FetchSettled 0 (Normal 200); JsonSettled 0 (Normal (JsonArray sampleData));
      TimerFired 1 ] in
  exists w w',
    steps events page = Some w /\
    searchCache (this w) !! js "rust" = None /\
    effects w = [Fetched 0] /\
    steps [Input (js "rust"); DebounceTimeout] w = Some w' /\
    effects w' = [Fetched 0; Searched (js "rust")].
Proof.
  intros events. eexists. eexists. run_page.
Qed.

(** The cutoff at work: with [maxResults] at one, the loop reads two of three
    matching documents. *)
Lemma scan_stops_at_cutoff_witness :
  let searchIndex := List.map learnDocument (seq 0 3) in
  let keywords := keywordsOf (js "learn") in
  let scanned := scannedDocuments oneResult keywords searchIndex 0 in
  let found := scanLoop oneResult keywords searchIndex [] in
  1 <= maxResults oneResult /\
  scanned = List.map learnDocument (seq 0 2) /\
  length found = 2 /\
  exists beyond : list IndexedDocument.t,
    searchIndex = scanned ++ beyond /\
    found = List.map (resultFor keywords) (List.filter (matches keywords) scanned) /\
    length found <= 2 * maxResults oneResult /\
    (beyond <> [] -> length found = 2 * maxResults oneResult) /\
    (forall k, k < length scanned ->
       length (List.filter (matches keywords) (firstn k scanned))
       < 2 * maxResults oneResult) /\
    (beyond <> [] ->
     forall other : list IndexedDocument.t,
       scannedDocuments oneResult keywords (scanned ++ other) 0 = scanned /\
       scanLoop oneResult keywords (scanned ++ other) [] = found).
Proof.
  assert (Hmax : 1 <= maxResults oneResult) by (simpl; lia).
  split; [exact Hmax|]. split; [reflexivity|]. split; [reflexivity|].
  destruct (scan_stops_at_cutoff oneResult (js "learn")
              (List.map learnDocument (seq 0 3)))
    as (beyond & E & Hfound & Hcut & _ & Hother).
  destruct (Hcut Hmax) as (Hbound & Hreached & Hbelow).
  exists beyond. repeat split; try assumption; apply Hother; assumption.
Defined.

(** The server answers the preload with 500: the container shows the error
    state and nothing is left unhandled. *)
Lemma http_error_shows_error_state_witness :
  calls page !! 0 = Some (Preload, AwaitFetch) /\
  (0 ∉ aborted page) /\
  ok 500 = false /\
  exists w',
    step (FetchSettled 0 (Normal 500)) page = Some w' /\
    resultElement (this w') = Some ErrorState /\
    unhandled w' = [] /\
    isLoading (this w') = false.
Proof.
  assert (H1 : calls page !! 0 = Some (Preload, AwaitFetch))
    by (vm_compute; reflexivity).
  assert (H2 : 0 ∉ aborted page) by (vm_compute; apply not_elem_of_nil).
  assert (H3 : ok 500 = false) by reflexivity.
  split; [exact H1|]. split; [exact H2|]. split; [exact H3|].
  destruct (http_error_shows_error_state page 0 Preload 500 H1 H2 H3)
    as (_ & w' & Hstep & Hview & Hunhandled & Hloading & _).
  exists w'. split; [exact Hstep|]. split; [exact Hview|].
  split; [exact Hunhandled|exact Hloading].
Defined.

(** The widget is destroyed while the preload fetches, or while it reads
    the body: the load settles to [null], and a new call would fetch again. *)
Lemma aborted_load_resolves_to_null_witness :
  let w := after [Destroy] page in
  let v := after [FetchSettled 0 (Normal 200); Destroy] page in
  calls w !! 0 = Some (Preload, AwaitFetch) /\
  (0 ∈ aborted w) /\
  calls v !! 0 = Some (Preload, AwaitJson) /\
  (0 ∈ aborted v) /\
  (exists w',
    step (FetchSettled 0 (Throw AbortError)) w = Some w' /\
    isLoading (this w') = false /\
    abortController (this w') = None /\
    unhandled w' = [] /\
    resultElement (this w') = Some LoadingState /\
    fst (loadSearchIndex 1 w') = Normal (Suspended AwaitFetch)) /\
  (exists v',
    step (JsonSettled 0 (Throw AbortError)) v = Some v' /\
    isLoading (this v') = false /\
    abortController (this v') = None /\
    unhandled v' = [] /\
    resultElement (this v') = Some LoadingState /\
    fst (loadSearchIndex 1 v') = Normal (Suspended AwaitFetch)).
Proof.
  intros w v.
  assert (H0 : reachable w)
    by (eapply reachable_after; vm_compute; reflexivity).
  assert (H1 : calls w !! 0 = Some (Preload, AwaitFetch))
    by (vm_compute; reflexivity).
  assert (H2 : 0 ∈ aborted w) by (vm_compute; apply list_elem_of_here).
  assert (G0 : reachable v)
    by (eapply reachable_after; vm_compute; reflexivity).
  assert (G1 : calls v !! 0 = Some (Preload, AwaitJson))
    by (vm_compute; reflexivity).
  assert (G2 : 0 ∈ aborted v) by (vm_compute; apply list_elem_of_here).
  split; [exact H1|]. split; [exact H2|]. split; [exact G1|]. split; [exact G2|].
  split.
  - destruct (aborted_load_resolves_to_null w 0 Preload AwaitFetch H0 H1 eq_refl H2)
      as (_ & w' & Hstep & Hloading & Hcontroller & _ & Hunhandled & _ & Hview & Hretry).
    exists w'. split; [exact Hstep|]. split; [exact Hloading|].
    split; [exact Hcontroller|]. split; [exact Hunhandled|].
    split; [exact Hview|].
    destruct (Hretry 1) as (w'' & -> & _). reflexivity.
  - destruct (aborted_load_resolves_to_null v 0 Preload AwaitJson G0 G1 eq_refl G2)
      as (_ & v' & Hstep & Hloading & Hcontroller & _ & Hunhandled & _ & Hview & Hretry).
    exists v'. split; [exact Hstep|]. split; [exact Hloading|].
    split; [exact Hcontroller|]. split; [exact Hunhandled|].
    split; [exact Hview|].
    destruct (Hretry 1) as (v'' & -> & _). reflexivity.
Defined.

(** A search waits while the preload fetches: a further call does not fetch,
    and the timer of the waiting call leaves the world as it is. *)
Lemma one_fetch_for_concurrent_calls_witness :
  let w := after [Input (js "learn"); DebounceTimeout] page in
  isLoading (this w) = true /\
  loadSearchIndex 2 w = (Normal (Suspended AwaitTimer), w) /\
  step (TimerFired 1) w = Some w.
Proof.
  intros w.
  assert (H0 : reachable w)
    by (eapply reachable_after; vm_compute; reflexivity).
  assert (H1 : isLoading (this w) = true) by (vm_compute; reflexivity).
  assert (H2 : calls w !! 1 = Some (Search (js "learn"), AwaitTimer))
    by (vm_compute; reflexivity).
  split; [exact H1|].
  destruct (one_fetch_for_concurrent_calls w H0) as (_ & Hwait & _ & Hpoll & _).
  split; [exact (Hwait H1 2)|].
  rewrite (Hpoll 1 _ H2), H1. reflexivity.
Defined.

(** ["learn"] is searched once the index is loaded; typed again, after
    another input, it is shown from the cache. *)
Lemma cache_hit_repeats_first_results_witness :
  let w :=
    after [ FetchSettled 0 (Normal 200); JsonSettled 0 (Normal (JsonArray sampleData));
            Input (js "learn"); DebounceTimeout ] page in
  let w' := after [Input (js "lear"); Input (js " learn ")] w in
  let results := performSearch defaultOptions (js "learn") sampleIndex in
  searchCache (this w) !! js "learn" = Some results /\
  effects w' = [Fetched 0; Searched (js "learn")] /\
  exists w'',
    step DebounceTimeout w' = Some w'' /\
    resultElement (this w'') = Some (ResultList results) /\
    effects w'' = [Fetched 0; Searched (js "learn")].
Proof.
  intros w w' results.
  assert (H0 : reachable w)
    by (eapply reachable_after; vm_compute; reflexivity).
  assert (H1 : searchCache (this w) !! js "learn" = Some results)
    by (vm_compute; reflexivity).
  assert (H2 : ~ In Destroy [Input (js "lear"); Input (js " learn ")])
    by (intros [E|[E|[]]]; discriminate).
  assert (H3 : steps [Input (js "lear"); Input (js " learn ")] w = Some w')
    by (vm_compute; reflexivity).
  assert (H4 : inputElement (this w') = Some (js " learn "))
    by (vm_compute; reflexivity).
  assert (H5 : debounceTimer w' = true) by (vm_compute; reflexivity).
  assert (H6 : trim (js " learn ") = js "learn") by (vm_compute; reflexivity).
  assert (H7 : effects w' = [Fetched 0; Searched (js "learn")])
    by (vm_compute; reflexivity).
  split; [exact H1|]. split; [exact H7|].
  destruct (cache_hit_repeats_first_results w w' _ _ _ results H0 H1 H2 H3 H4 H5 H6)
    as (w'' & Hstep & Hview & Heffects & _).
  exists w''. split; [exact Hstep|]. split.
  - rewrite Hview. vm_compute. reflexivity.
  - rewrite Heffects. exact H7.
Defined.

End Examples.

(** * The query processor: further properties *)

Section KeywordFacts.
Context {tables : Unicode}.
Local Open Scope float_scope.


Lemma splitRuns_concat (sep : N -> bool) (s : jsstring) : forall cur inRun,
  concat (splitRuns sep s cur inRun)
  = rev cur ++ List.filter (fun c => negb (sep c)) s.
Proof.
  induction s as [|c s IH]; intros cur inRun; simpl.
  - now rewrite !app_nil_r.
  - destruct (sep c) eqn:Hc; simpl.
    + destruct inRun; simpl; rewrite IH; reflexivity.
    + rewrite IH. simpl. now rewrite <- app_assoc.
Qed.

Lemma concat_filter_nonempty (l : list jsstring) :
  concat (List.filter (fun k => (0 <? length k)%nat) l) = concat l.
Proof.
  induction l as [|k l IH]; simpl; [reflexivity|].
  destruct k; simpl; [exact IH|]. now rewrite IH.
Qed.

(** A document that matches contains one of the keywords, in its title or in
    its content. *)
Lemma matches_keyword (item : IndexedDocument.t) (keywords : list jsstring) :
  matches keywords item = true ->
  exists keyword, In keyword keywords /\
    (includes (IndexedDocument.titleLower item) keyword = true \/
     includes (IndexedDocument.contentLower item) keyword = true).
Proof.
  unfold matches. rewrite calculateMatchScore_documented. unfold documentedScore.
  set (tl := IndexedDocument.titleLower item).
  set (cl := IndexedDocument.contentLower item).
  destruct (List.filter (includes tl) keywords) as [|k ks] eqn:Et.
  - destruct (List.filter (includes cl) keywords) as [|k ks] eqn:Ec.
    + simpl. discriminate.
    + intros _. exists k.
      assert (Hin : In k (List.filter (includes cl) keywords)) by (rewrite Ec; now left).
      apply filter_In in Hin as [Hin Hk]. auto.
  - intros _. exists k.
    assert (Hin : In k (List.filter (includes tl) keywords)) by (rewrite Et; now left).
    apply filter_In in Hin as [Hin Hk]. auto.
Qed.

Lemma scanLoop_no_keyword (options : Options) (searchIndex : list IndexedDocument.t) :
  scanLoop options [] searchIndex [] = [].
Proof.
  induction searchIndex as [|item rest IH]; [reflexivity|].
  cbn [scanLoop]. change (calculateMatchScore item []) with 0.
  change (0 <? 0) with false. cbv iota.
  destruct (maxResults options * 2 <=? length (@nil ResultItem.t))%nat; [reflexivity|exact IH].
Qed.

Lemma keywordsOf_separators (query : jsstring) :
  Forall (fun c => isSeparator c = true) (toLowerCase query) ->
  keywordsOf query = [].
Proof.
  intros Hsep.
  assert (Hconcat : concat (keywordsOf query) = []).
  { unfold keywordsOf, split. rewrite concat_filter_nonempty, splitRuns_concat.
    simpl. induction Hsep as [|c s Hc Hs IH]; [reflexivity|].
    simpl. now rewrite Hc. }
  destruct (keywordsOf query) as [|keyword keywords] eqn:E; [reflexivity|].
  assert (Hin : In keyword (keywordsOf query)) by (rewrite E; now left).
  unfold keywordsOf in Hin. apply filter_In in Hin as [_ Hlen].
  simpl in Hconcat. apply app_eq_nil in Hconcat as [-> _]. discriminate.
Qed.

End KeywordFacts.

Section ReplaceFacts.

(** Where the expression matches nowhere, [replace] returns the string. *)
Lemma replaceFrom_unmatched (matchAt : jsstring -> option nat)
    (subst : jsstring -> jsstring) (s : jsstring) :
  (forall i : nat, matchAt (skipn i s) = None) ->
  replaceFrom matchAt subst s 0 = s.
Proof.
  induction s as [|c s IH]; intros Hnone.
  - pose proof (Hnone 0%nat) as H0. simpl in *. now rewrite H0.
  - pose proof (Hnone 0%nat) as H0. simpl in H0.
    cbn [replaceFrom]. rewrite H0. f_equal.
    apply IH. intros i. exact (Hnone (S i)).
Qed.

(** A replacement that keeps what it matched keeps the whole string. *)
Lemma replaceFrom_sublist (matchAt : jsstring -> option nat)
    (subst : jsstring -> jsstring) :
  (forall matched, sublist matched (subst matched)) ->
  forall (s : jsstring) (skip : nat),
    sublist (skipn skip s) (replaceFrom matchAt subst s skip).
Proof.
  intros Hsubst. induction s as [|c s IH]; intros skip.
  - rewrite skipn_nil. apply sublist_nil_l.
  - cbn [replaceFrom]. destruct skip as [|k]; [|apply IH].
    simpl skipn. destruct (matchAt (c :: s)) as [[|k]|].
    + apply sublist_inserts_l. constructor. apply (IH 0%nat).
    + rewrite <- (firstn_skipn (S k) (c :: s)) at 1.
      apply sublist_app; [apply Hsubst|]. apply IH.
    + constructor. apply (IH 0%nat).
Qed.

End ReplaceFacts.

Section ExcerptFacts.

(** The loop of [getHighlightedExcerpt] finds the least of the first
    occurrences of the keywords. *)
Lemma firstMatch_fold (contentLower : jsstring) (keywords : list jsstring) :
  forall first : option nat,
    match fold_left (firstMatchStep contentLower) keywords first with
    | None =>
        first = None /\
        forall keyword, In keyword keywords -> indexOf contentLower keyword = None
    | Some i =>
        (first = Some i \/
         exists keyword, In keyword keywords /\ indexOf contentLower keyword = Some i) /\
        (forall j, first = Some j -> i <= j) /\
        (forall keyword j, In keyword keywords ->
           indexOf contentLower keyword = Some j -> i <= j)
    end.
Proof.
  induction keywords as [|keyword keywords IH]; intros first.
  - simpl. destruct first as [i|].
    + split; [now left|]. split; [intros j [= <-]; lia|intros _ _ []].
    + split; [reflexivity|intros _ []].
  - cbn [fold_left]. specialize (IH (firstMatchStep contentLower first keyword)).
    destruct (fold_left _ keywords _) as [i|].
    + destruct IH as (Hfrom & Hfirst & Hrest).
      unfold firstMatchStep in Hfrom, Hfirst.
      destruct (indexOf contentLower keyword) as [index|] eqn:Ek.
      * destruct first as [f|].
        -- destruct (Nat.ltb_spec index f) as [Hlt|Hge].
           ++ pose proof (Hfirst _ eq_refl). split; [|split].
              ** destruct Hfrom as [[= <-]|(k & Hk & Ei)].
                 --- right. exists keyword. split; [now left|exact Ek].
                 --- right. exists k. split; [now right|exact Ei].
              ** intros j [= <-]. lia.
              ** intros k j [<-|Hk] Ej; [|eauto]. rewrite Ek in Ej. injection Ej as <-. assumption.
           ++ pose proof (Hfirst _ eq_refl). split; [|split].
              ** destruct Hfrom as [[= <-]|(k & Hk & Ei)].
                 --- now left.
                 --- right. exists k. split; [now right|exact Ei].
              ** intros j [= <-]. lia.
              ** intros k j [<-|Hk] Ej; [|eauto]. rewrite Ek in Ej. injection Ej as <-. lia.
        -- pose proof (Hfirst _ eq_refl). split; [|split].
           ++ destruct Hfrom as [[= <-]|(k & Hk & Ei)].
              ** right. exists keyword. split; [now left|exact Ek].
              ** right. exists k. split; [now right|exact Ei].
           ++ intros j [=].
           ++ intros k j [<-|Hk] Ej; [|eauto]. rewrite Ek in Ej. injection Ej as <-. assumption.
      * split; [|split].
        -- destruct Hfrom as [->|(k & Hk & Ei)]; [now left|].
           right. exists k. split; [now right|exact Ei].
        -- exact Hfirst.
        -- intros k j [<-|Hk] Ej; [congruence|eauto].
    + destruct IH as (Hfrom & Hrest). unfold firstMatchStep in Hfrom.
      destruct (indexOf contentLower keyword) as [index|] eqn:Ek.
      * destruct first as [f|]; [destruct (index <? f)|]; discriminate.
      * split; [exact Hfrom|]. intros k [<-|Hk]; [exact Ek|auto].
Qed.

Lemma substring_window (s : jsstring) (start maxLength : nat) :
  substring s start (Nat.min (length s) (start + maxLength))
  = firstn maxLength (skipn start s).
Proof.
  unfold substring.
  set (a := Nat.min start (length s)).
  set (b := Nat.min (Nat.min (length s) (start + maxLength)) (length s)).
  destruct (Nat.le_gt_cases start (length s)) as [Hle|Hgt].
  - replace (Nat.min a b) with start by (subst a b; lia).
    destruct (Nat.le_gt_cases (start + maxLength) (length s)).
    + replace (Nat.max a b - start) with maxLength by (subst a b; lia). reflexivity.
    + replace (Nat.max a b - start) with (length s - start) by (subst a b; lia).
      rewrite !firstn_all2; try reflexivity; rewrite length_skipn; lia.
  - replace (Nat.max a b - Nat.min a b) with 0 by (subst a b; lia).
    rewrite (skipn_all2 (n := start)) by lia. now rewrite firstn_nil.
Qed.

Lemma substring_prefix (s : jsstring) (n : nat) : substring s 0 n = firstn n s.
Proof.
  unfold substring.
  replace (Nat.min (Nat.min 0 (length s)) (Nat.min n (length s))) with 0 by lia.
  replace (Nat.max (Nat.min 0 (length s)) (Nat.min n (length s)) - 0)
    with (Nat.min n (length s)) by lia.
  simpl skipn. destruct (Nat.le_gt_cases n (length s)).
  - now rewrite Nat.min_l by lia.
  - rewrite Nat.min_r by lia. rewrite !firstn_all2; try reflexivity; lia.
Qed.

End ExcerptFacts.

Section PermutationFacts.
Context {A : Type} (compare : A -> A -> float).

Lemma insertSorted_Permutation (x : A) (l : list A) :
  Permutation (insertSorted compare x l) (x :: l).
Proof.
  induction l as [|y l IH]; simpl; [reflexivity|].
  destruct (0 <? compare x y)%float; [|reflexivity].
  rewrite IH. apply perm_swap.
Qed.

Lemma sort_Permutation (l : list A) : Permutation (sort compare l) l.
Proof.
  induction l as [|x l IH]; simpl; [reflexivity|].
  rewrite insertSorted_Permutation. now constructor.
Qed.

End PermutationFacts.

Lemma filter_sublist {A} (f : A -> bool) (l : list A) : sublist (List.filter f l) l.
Proof.
  induction l as [|x l IH]; simpl; [constructor|].
  destruct (f x); now constructor.
Qed.

Lemma map_sublist {A B} (f : A -> B) (l1 l2 : list A) :
  sublist l1 l2 -> sublist (List.map f l1) (List.map f l2).
Proof. induction 1; simpl; now constructor. Qed.

Section DistinctFacts.
Context {tables : Unicode}.

Lemma preprocessSearchData_ids (data : list DocumentRecord.t) :
  List.map IndexedDocument.id (preprocessSearchData data) = seq 0 (length data).
Proof.
  unfold preprocessSearchData.
  change (List.map IndexedDocument.id (imap preprocessItem data))
    with (IndexedDocument.id <$> imap preprocessItem data).
  rewrite fmap_imap. 
  assert (E : forall (l : list DocumentRecord.t) n,
             imap (fun i x => n + i) l = seq n (length l)).
  { induction l as [|x l IH]; intros n; simpl; [reflexivity|].
    rewrite Nat.add_0_r. f_equal. rewrite <- IH. apply imap_ext.
    intros i y _. simpl. lia. }
  rewrite <- (E data 0). apply imap_ext. reflexivity.
Qed.

Lemma results_distinct (options : Options) (query : jsstring)
    (searchIndex : list IndexedDocument.t) :
  NoDup (List.map IndexedDocument.id searchIndex) ->
  NoDup (List.map (fun r => IndexedDocument.id (ResultItem.item r))
           (performSearch options query searchIndex)).
Proof.
  intros Hids. unfold performSearch. cbv zeta.
  set (keywords := keywordsOf query).
  set (found := scanLoop options keywords searchIndex []).
  eapply sublist_NoDup; [|apply map_sublist, sublist_take].
  apply NoDup_ListNoDup. eapply Permutation_NoDup.
  { symmetry. apply Permutation_map. apply sort_Permutation. }
  apply NoDup_ListNoDup.
  subst found. rewrite scanLoop_scanned. simpl app.
  rewrite map_map. simpl.
  destruct (scannedDocuments_prefix options keywords searchIndex 0) as [beyond E].
  eapply sublist_NoDup; [exact Hids|].
  rewrite E at 2. rewrite map_app. apply sublist_inserts_r.
  apply map_sublist, filter_sublist.
Qed.

End DistinctFacts.

(** * The widget: further facts *)

(** ** The documents that contain a keyword are found *)

Section CompletenessFacts.
Context {tables : Unicode}.
Import JSNumber JSNumberFacts.
Local Open Scope float_scope.

Lemma calculateWeight_cases (item : DocumentRecord.t) :
  In (calculateWeight item) [1; 1.1; 1.2; 1.3; 1.5; 1.6].
Proof.
  unfold calculateWeight.
  set (contentLength := length (orElse (DocumentRecord.content item) [])).
  destruct (DocumentRecord.title item) as [[|c s]|].
  - destruct (Nat.ltb_spec 500 contentLength), (Nat.ltb_spec 1000 contentLength);
      simpl; try tauto; lia.
  - destruct (10 <? length (c :: s))%nat;
    destruct (Nat.ltb_spec 500 contentLength), (Nat.ltb_spec 1000 contentLength);
      simpl; try tauto; lia.
  - destruct (Nat.ltb_spec 500 contentLength), (Nat.ltb_spec 1000 contentLength);
      simpl; try tauto; lia.
Qed.

Lemma calculateWeight_terms (item : DocumentRecord.t) :
  SFabove (-52) (Prim2SF (10 * calculateWeight item)) /\
  SFabove (-52) (Prim2SF (1 * calculateWeight item)).
Proof.
  pose proof (calculateWeight_cases item) as Hw. simpl in Hw.
  destruct Hw as [<-|[<-|[<-|[<-|[<-|[<-|[]]]]]]];
    split; vm_compute; discriminate.
Qed.

Lemma documentedTerm_started (titleLower contentLower : jsstring) (weight sum : float)
    (token : jsstring) :
  SFabove (-52) (Prim2SF (10 * weight)) -> SFabove (-52) (Prim2SF (1 * weight)) ->
  SFstarted (Prim2SF sum) ->
  let sum' := documentedTerm titleLower contentLower weight sum token in
  SFstarted (Prim2SF sum') /\
  (SFabove (-52) (Prim2SF sum) -> SFabove (-52) (Prim2SF sum')) /\
  (includes titleLower token || includes contentLower token = true ->
   SFabove (-52) (Prim2SF sum')).
Proof.
  intros H10 H1 Hsum. unfold documentedTerm.
  assert (H20 : SFabove (-52) (Prim2SF 20)) by (vm_compute; discriminate).
  destruct (includes titleLower token), (JSString.eqb titleLower token),
    (includes contentLower token); simpl orb; cbv zeta;
    repeat match goal with
    | |- _ /\ _ => split
    | |- SFstarted _ => first [exact Hsum | right]
    | |- SFabove _ (Prim2SF (_ + _)) =>
        apply add_above; [|assumption]
    | |- SFabove _ _ -> _ => intros ?
    | |- _ = true -> _ => intros ?
    | |- SFabove _ (Prim2SF sum) => first [assumption | discriminate]
    end.
Qed.

Lemma documentedSum_above (titleLower contentLower : jsstring) (weight : float)
    (tokens : list jsstring) :
  SFabove (-52) (Prim2SF (10 * weight)) -> SFabove (-52) (Prim2SF (1 * weight)) ->
  forall sum : float,
    SFstarted (Prim2SF sum) ->
    (SFabove (-52) (Prim2SF sum) \/
     exists token, In token tokens /\
       includes titleLower token || includes contentLower token = true) ->
    SFabove (-52)
      (Prim2SF (fold_left (documentedTerm titleLower contentLower weight) tokens sum)).
Proof.
  intros H10 H1. induction tokens as [|token tokens IH]; intros sum Hsum Hsome.
  - simpl. destruct Hsome as [Habove|(token & [] & _)]. exact Habove.
  - cbn [fold_left].
    destruct (documentedTerm_started titleLower contentLower weight sum token H10 H1 Hsum)
      as (Hstarted & Hkeep & Hgain).
    apply IH; [exact Hstarted|].
    destruct Hsome as [Habove|(token' & [<-|Hin] & Htoken)].
    + left. now apply Hkeep.
    + left. now apply Hgain.
    + right. exists token'. split; assumption.
Qed.

Lemma containsKeyword_matches (keywords : list jsstring) (item : IndexedDocument.t) :
  In (IndexedDocument.weight item) [1; 1.1; 1.2; 1.3; 1.5; 1.6] ->
  (Z.of_nat (length keywords) < 2 ^ 32)%Z ->
  containsKeyword keywords item = true -> matches keywords item = true.
Proof.
  intros Hw Hlen Hsome. unfold containsKeyword in Hsome.
  apply existsb_exists in Hsome as (keyword & Hin & Hk).
  unfold matches. rewrite calculateMatchScore_documented. unfold documentedScore.
  set (tl := IndexedDocument.titleLower item) in *.
  set (cl := IndexedDocument.contentLower item) in *.
  set (tm := length (List.filter (includes tl) keywords)).
  set (cm := length (List.filter (includes cl) keywords)).
  assert (Htm : (tm <= length keywords)%nat) by apply List.filter_length_le.
  assert (Hcm : (cm <= length keywords)%nat) by apply List.filter_length_le.
  assert (Hpos : (0 < tm + cm)%nat).
  { apply orb_true_iff in Hk as [Hk|Hk].
    - assert (Hf : In keyword (List.filter (includes tl) keywords))
        by (apply filter_In; split; assumption).
      subst tm. destruct (List.filter (includes tl) keywords); [destruct Hf|simpl; lia].
    - assert (Hf : In keyword (List.filter (includes cl) keywords))
        by (apply filter_In; split; assumption).
      subst cm. destruct (List.filter (includes cl) keywords); [destruct Hf|simpl; lia]. }
  destruct (Nat.eqb_spec (tm + cm) 0) as [E|_]; [lia|].
  assert (Hterms : SFabove (-52) (Prim2SF (10 * IndexedDocument.weight item)) /\
                   SFabove (-52) (Prim2SF (1 * IndexedDocument.weight item))).
  { simpl in Hw. destruct Hw as [<-|[<-|[<-|[<-|[<-|[<-|[]]]]]]];
      split; vm_compute; discriminate. }
  destruct Hterms as [H10 H1].
  apply score_positive.
  - apply documentedSum_above; try assumption.
    + left. reflexivity.
    + right. exists keyword. split; assumption.
  - apply coverage_above; lia.
Qed.

Lemma preprocessSearchData_weight (data : list DocumentRecord.t) (item : IndexedDocument.t) :
  In item (preprocessSearchData data) ->
  In (IndexedDocument.weight item) [1; 1.1; 1.2; 1.3; 1.5; 1.6].
Proof.
  intros Hin. apply list_elem_of_In, list_elem_of_lookup in Hin as [i Hi].
  rewrite preprocessSearchData_lookup in Hi.
  destruct (data !! i) as [record|]; [|discriminate].
  injection Hi as <-. apply calculateWeight_cases.
Qed.

(** On a loaded index the test [matchScore > 0] is the presence of a keyword. *)
Lemma matches_containsKeyword (keywords : list jsstring) (data : list DocumentRecord.t)
    (item : IndexedDocument.t) :
  (Z.of_nat (length keywords) < 2 ^ 32)%Z ->
  In item (preprocessSearchData data) ->
  matches keywords item = containsKeyword keywords item.
Proof.
  intros Hlen Hin.
  destruct (containsKeyword keywords item) eqn:Hc.
  - apply containsKeyword_matches; try assumption.
    now apply preprocessSearchData_weight with data.
  - destruct (matches keywords item) eqn:Hm; [|reflexivity].
    apply matches_keyword in Hm as (keyword & Hk & Hincl).
    assert (Ht : containsKeyword keywords item = true).
    { apply existsb_exists. exists keyword. split; [exact Hk|].
      apply orb_true_iff. exact Hincl. }
    congruence.
Qed.

(** The loop reads the whole index when the documents that match do not
    reach the cutoff. *)
Lemma scanned_everything (options : Options) (keywords : list jsstring)
    (searchIndex : list IndexedDocument.t) :
  (length (List.filter (matches keywords) searchIndex) < maxResults options * 2)%nat ->
  scannedDocuments options keywords searchIndex 0 = searchIndex.
Proof.
  intros Hfew.
  destruct (scannedDocuments_prefix options keywords searchIndex 0) as [beyond E].
  destruct beyond as [|item beyond]; [now rewrite app_nil_r in E|].
  pose proof (scanned_cutoff options keywords searchIndex 0 (item :: beyond)
                ltac:(lia) E ltac:(discriminate)) as Hcut.
  rewrite E in Hfew at 1. rewrite List.filter_app, length_app in Hfew. lia.
Qed.

Lemma performSearch_all (options : Options) (query : jsstring)
    (searchIndex : list IndexedDocument.t) :
  (length (List.filter (matches (keywordsOf query)) searchIndex) <= maxResults options)%nat ->
  Permutation (List.map ResultItem.item (performSearch options query searchIndex))
    (List.filter (matches (keywordsOf query)) searchIndex).
Proof.
  intros Hfew. unfold performSearch.
  destruct (maxResults options) as [|n] eqn:Hmax.
  - simpl. destruct (List.filter _ searchIndex); [reflexivity|simpl in Hfew; lia].
  - rewrite scanLoop_scanned. simpl app.
    rewrite scanned_everything by (rewrite Hmax; lia).
    rewrite firstn_all2
      by (rewrite sort_length, length_map; exact Hfew).
    rewrite (sort_Permutation compareFn), List.map_map. simpl.
    rewrite List.map_id. reflexivity.
Qed.

End CompletenessFacts.

Section MoreWidgetFacts.
Context {tables : Unicode}.

(** No task of the page ends in a rejection that nothing handles. *)
Lemma step_unhandled (event : Event) (w w' : World) :
  step event w = Some w' -> unhandled w' = unhandled w.
Proof.
  destruct w as [[opts idx cache loading cur ctl inp res] cs next ab deb con eff unh].
  destruct event as [value| | |call settled|call settled|call|]; simpl.
  - destruct inp; intros [= <-]; reflexivity.
  - destruct inp as [value|]; [|discriminate]. destruct deb; [|discriminate].
    intros [= <-]. js_run; reflexivity.
  - destruct inp as [value|]; [|discriminate].
    intros [= <-]. js_run; reflexivity.
  - destruct (cs !! call) as [[caller []]|] eqn:Ecall; try discriminate.
    destruct (maySettle _ _ _ _); [|discriminate].
    intros [= <-]. js_run; reflexivity.
  - destruct (cs !! call) as [[caller []]|] eqn:Ecall; try discriminate.
    destruct (maySettle _ _ _ _); [|discriminate].
    intros [= <-]. js_run; reflexivity.
  - destruct (cs !! call) as [[caller []]|] eqn:Ecall; try discriminate.
    intros [= <-]. js_run; reflexivity.
  - intros [= <-]. js_run; reflexivity.
Qed.

Lemma construct_unhandled userOptions input result :
  unhandled (construct userOptions input result) = [].
Proof. unfold construct. js_run; reflexivity. Qed.

Lemma step_holdsLoad (event : Event) (w w' : World) :
  consistent w -> holdsLoad w -> step event w = Some w' -> holdsLoad w'.
Proof.
  intros [Hfresh Hload Huniq Hidx Hlong Hcache] Hheld.
  destruct w as [[opts idx cache loading cur ctl inp res] cs next ab deb con eff unh].
  unfold holdsLoad in *. simpl in *.
  destruct loading; [|subst ctl];
  destruct event as [value| | |call settled|call settled|call|]; simpl;
  open_step; js_run; holder_leaf.
Qed.

Lemma construct_holdsLoad userOptions input result :
  holdsLoad (construct userOptions input result).
Proof.
  unfold construct, holdsLoad. js_run; try reflexivity;
    eexists _, _, _; (split; [reflexivity|]); split;
    first [apply lookup_insert_eq|reflexivity].
Qed.

Lemma reachable_holdsLoad (w : World) : reachable w -> holdsLoad w.
Proof.
  intros (userOptions & input & result & events & Hsteps).
  pose proof (construct_consistent userOptions input result) as Hc.
  pose proof (construct_holdsLoad userOptions input result) as Hh.
  revert Hsteps Hc Hh. generalize (construct userOptions input result).
  induction events as [|event events IH]; intros w0; simpl.
  - now intros [= <-].
  - destruct (step event w0) as [w1|] eqn:E; [|discriminate].
    intros Hsteps Hc Hh. apply (IH w1 Hsteps).
    + eapply step_consistent; eassumption.
    + eapply step_holdsLoad; eassumption.
Qed.

End MoreWidgetFacts.

(** * The menu: facts *)

(** ** The debounced handler *)

Module DebounceFacts.
Import Debounce.

Section Facts.
Context {Args : Type}.
Implicit Types (s : State Args) (args : Args).

Lemma oneTimer_debounce (firstTimer : nat) : oneTimer (debounce (Args := Args) firstTimer).
Proof. split; intros id args H; simpl in H; now rewrite lookup_empty in H. Qed.

Lemma executedFunction_timers s args :
  oneTimer s ->
  timers (executedFunction args s) = {[nextTimer s := args]} /\
  timeout (executedFunction args s) = Some (nextTimer s) /\
  nextTimer (executedFunction args s) = S (nextTimer s) /\
  invoked (executedFunction args s) = invoked s.
Proof.
  intros [Hone Hlt]. unfold executedFunction, clearTimeout, setTimeout.
  assert (Hempty : forall m : gmap nat Args,
            (forall id a, m !! id = Some a -> False) -> <[nextTimer s := args]> m = {[nextTimer s := args]}).
  { intros m Hm. apply map_eq. intros i.
    destruct (decide (nextTimer s = i)) as [<-|Hne].
    - now rewrite lookup_insert_eq, lookup_singleton_eq.
    - rewrite lookup_insert_ne, lookup_singleton_ne by exact Hne.
      destruct (m !! i) as [a|] eqn:E; [destruct (Hm i a E)|reflexivity]. }
  destruct (timeout s) as [id|] eqn:Ht; simpl; (split; [|repeat split]).
  - apply Hempty. intros i a Hi.
    destruct (decide (id = i)) as [<-|Hne].
    + now rewrite lookup_delete_eq in Hi.
    + rewrite lookup_delete_ne in Hi by exact Hne.
      specialize (Hone i a Hi). congruence.
  - apply Hempty. intros i a Hi. specialize (Hone i a Hi). congruence.
Qed.

Lemma executedFunction_oneTimer s args : oneTimer s -> oneTimer (executedFunction args s).
Proof.
  intros Hs. destruct (executedFunction_timers s args Hs) as (Et & Eo & En & _).
  split; intros id a Hid; rewrite Et in Hid;
    apply lookup_singleton_Some in Hid as [<- _]; [exact Eo|rewrite En; lia].
Qed.

Lemma step_oneTimer (event : Event Args) s s' :
  oneTimer s -> step event s = Some s' -> oneTimer s'.
Proof.
  intros Hs. destruct event as [args|id|]; simpl.
  - intros [= <-]. now apply executedFunction_oneTimer.
  - destruct (timers s !! id) as [args|] eqn:Hid; [|discriminate]. intros [= <-].
    destruct Hs as [Hone Hlt]. pose proof (Hone id args Hid) as Ht.
    unfold later, clearTimeout. simpl. rewrite Ht. simpl.
    split; intros i a Hi; simpl in Hi;
      destruct (decide (id = i)) as [<-|Hne];
      try (now rewrite !lookup_delete_eq in Hi);
      rewrite !lookup_delete_ne in Hi by exact Hne.
    + specialize (Hone i a Hi). congruence.
    + exact (Hlt i a Hi).
  - intros [= <-]. destruct Hs as [Hone Hlt]. split; simpl; [exact Hone|].
    intros i a Hi. specialize (Hlt i a Hi). lia.
Qed.

Lemma steps_oneTimer (events : list (Event Args)) : forall s s',
  oneTimer s -> steps events s = Some s' -> oneTimer s'.
Proof.
  induction events as [|event events IH]; intros s s' Hs; simpl.
  - now intros [= <-].
  - destruct (step event s) as [s1|] eqn:E; [|discriminate].
    apply IH. exact (step_oneTimer event s s1 Hs E).
Qed.

Lemma burst_oneTimer (calls : list Args) : forall s, oneTimer s -> oneTimer (burst calls s).
Proof.
  induction calls as [|args calls IH]; intros s Hs; simpl; [exact Hs|].
  apply IH. now apply executedFunction_oneTimer.
Qed.

Lemma burst_snoc (calls : list Args) args s :
  burst (calls ++ [args]) s = executedFunction args (burst calls s).
Proof. unfold burst. now rewrite fold_left_app. Qed.

Lemma burst_invoked (calls : list Args) : forall s,
  oneTimer s -> invoked (burst calls s) = invoked s.
Proof.
  induction calls as [|args calls IH]; intros s Hs; simpl; [reflexivity|].
  rewrite IH by now apply executedFunction_oneTimer.
  now destruct (executedFunction_timers s args Hs) as (_ & _ & _ & E).
Qed.

End Facts.
End DebounceFacts.

(** ** The menu *)

Module MenuFacts.
Import Menu.

Lemma contains_In (l : ClassList) (c : jsstring) : contains l c = true <-> In c l.
Proof.
  unfold contains. rewrite existsb_exists. split.
  - intros (t & Ht & E). apply JSStringFacts.eqb_eq in E. now subst.
  - intros Hin. exists c. split; [exact Hin|apply JSStringFacts.eqb_refl].
Qed.

Lemma contains_false (l : ClassList) (c : jsstring) : contains l c = false <-> ~ In c l.
Proof.
  rewrite <- contains_In. destruct (contains l c); split; congruence.
Qed.

Lemma withToken_In (l : ClassList) (c c' : jsstring) : In c' (withToken l c) <-> In c' l \/ c' = c.
Proof.
  unfold withToken. destruct (contains l c) eqn:E.
  - apply contains_In in E. split; [auto|]. intros [H| ->]; assumption.
  - rewrite in_app_iff. simpl. intuition congruence.
Qed.

Lemma withoutToken_In (l : ClassList) (c c' : jsstring) :
  In c' (withoutToken l c) <-> In c' l /\ c' <> c.
Proof.
  unfold withoutToken. rewrite filter_In. split.
  - intros [Hin Hne]. split; [exact Hin|]. intros ->.
    now rewrite JSStringFacts.eqb_refl in Hne.
  - intros [Hin Hne]. split; [exact Hin|].
    rewrite JSStringFacts.eqb_neq; [reflexivity|congruence].
Qed.

Lemma withoutToken_absent (l : ClassList) (c : jsstring) : ~ In c l -> withoutToken l c = l.
Proof.
  unfold withoutToken. induction l as [|t l IH]; intros Hnot; simpl; [reflexivity|].
  rewrite JSStringFacts.eqb_neq by (intros ->; apply Hnot; now left).
  simpl. f_equal. apply IH. intros Hin. apply Hnot. now right.
Qed.

Lemma withToken_absent (l : ClassList) (c : jsstring) : ~ In c l -> withToken l c = l ++ [c].
Proof. intros Hnot. unfold withToken. apply contains_false in Hnot. now rewrite Hnot. Qed.

Lemma fold_withToken (cs : list jsstring) : forall l : ClassList,
  List.NoDup cs -> (forall c, In c cs -> ~ In c l) ->
  fold_left withToken cs l = l ++ cs.
Proof.
  induction cs as [|c cs IH]; intros l Hcs Hl; simpl; [now rewrite app_nil_r|].
  apply NoDup_cons_iff in Hcs as [Hc Hcs].
  rewrite withToken_absent by (apply Hl; now left).
  rewrite IH; [now rewrite <- app_assoc| exact Hcs|].
  intros c' Hc' Hin. apply in_app_iff in Hin as [Hin|[->|[]]].
  - exact (Hl c' (or_intror Hc') Hin).
  - exact (Hc Hc').
Qed.

Lemma withoutToken_app (l1 l2 : ClassList) (c : jsstring) :
  withoutToken (l1 ++ l2) c = withoutToken l1 c ++ withoutToken l2 c.
Proof. unfold withoutToken. apply List.filter_app. Qed.

Lemma fold_withoutToken (cs : list jsstring) : forall l : ClassList,
  List.NoDup cs -> (forall c, In c cs -> ~ In c l) ->
  fold_left withoutToken cs (l ++ cs) = l.
Proof.
  induction cs as [|c cs IH]; intros l Hcs Hl; simpl; [now rewrite app_nil_r|].
  apply NoDup_cons_iff in Hcs as [Hc Hcs].
  rewrite withoutToken_app, (withoutToken_absent l) by (apply Hl; now left).
  simpl. rewrite JSStringFacts.eqb_refl. simpl.
  change (List.filter (fun t => negb (JSString.eqb c t)) cs) with (withoutToken cs c).
  rewrite (withoutToken_absent cs c Hc).
  apply IH; [exact Hcs|]. intros c' Hc'. apply Hl. now right.
Qed.

Lemma alterAll_lookup (change : ClassList -> jsstring -> ClassList)
    (targets : list (option nat * jsstring)) : forall (m : gmap nat ClassList) (node : nat),
  alterAll change targets m !! node
  = (fun l => fold_left change (classesAt node targets) l) <$> m !! node.
Proof.
  unfold alterAll, classesAt.
  induction targets as [|[[n|] c] targets IH]; intros m node; simpl.
  - now destruct (m !! node).
  - rewrite IH. destruct (Nat.eqb_spec n node) as [->|Hne]; simpl.
    + rewrite lookup_alter_eq. now destruct (m !! node).
    + now rewrite lookup_alter_ne.
  - apply IH.
Qed.

Lemma contains_iff (l l' : ClassList) (c : jsstring) :
  (In c l' <-> In c l) -> contains l' c = contains l c.
Proof.
  intros H. destruct (contains l c) eqn:E.
  - apply contains_In, H, contains_In, E.
  - apply contains_false. rewrite H. now apply contains_false.
Qed.

Lemma set_classLists_same (p : Page) : set_classLists (classLists p) p = p.
Proof. now destruct p. Qed.

Lemma modifyClass_alter (p : Page) (obj : option nat) (c : jsstring) (op : nat) :
  validate c = Done ->
  isElement p obj ->
  modifyClass obj c op p
  = (Done, set_classLists (alterAll (change op) [(obj, c)] (classLists p)) p).
Proof.
  intros Hc (node & l & -> & Hl).
  unfold modifyClass, updateClassList, add, remove, alterAll, change. simpl.
  rewrite Hl, Hc.
  assert (E : forall f, alter f node (classLists p)
                        = <[node := f l]> (classLists p)).
  { intros f. apply map_eq. intros i. destruct (decide (node = i)) as [->|Hne].
    - now rewrite lookup_alter_eq, lookup_insert_eq, Hl.
    - now rewrite lookup_alter_ne, lookup_insert_ne. }
  rewrite E. destruct (op =? 1)%nat; [reflexivity|].
  destruct (contains l c) eqn:Ec; [reflexivity|].
  apply contains_false in Ec. rewrite (withoutToken_absent l c Ec).
  rewrite insert_id by exact Hl. now rewrite set_classLists_same.
Qed.

Lemma isElement_alterAll (p : Page) g ts obj :
  isElement p obj -> isElement (set_classLists (alterAll g ts (classLists p)) p) obj.
Proof.
  intros (node & l & -> & Hl). exists node. eexists. split; [reflexivity|].
  simpl. rewrite alterAll_lookup, Hl. reflexivity.
Qed.

Lemma isElement_flag (p : Page) (v : nat) obj :
  isElement p obj -> isElement (set_menuClickFlag v p) obj.
Proof. intros H. exact H. Qed.

Lemma onclick_elements (p : Page) (childNodes : list nat) :
  Forall (fun target => isElement p (fst target)) (targets p childNodes) ->
  onclick childNodes p
  = (Done,
     if (menuClickFlag p =? 0)%nat then
       set_menuClickFlag 1
         (set_classLists (alterAll withToken (targets p childNodes) (classLists p)) p)
     else
       set_menuClickFlag 0
         (set_classLists (alterAll withoutToken (targets p childNodes) (classLists p)) p)).
Proof.
  intros Hall. unfold targets in Hall.
  apply Forall_cons_iff in Hall as [H2 Hall]. apply Forall_cons_iff in Hall as [H1 Hall].
  apply Forall_cons_iff in Hall as [H3 Hall]. apply Forall_cons_iff in Hall as [H4 Hall].
  apply Forall_cons_iff in Hall as [H5 _]. simpl in H1, H2, H3, H4, H5.
  unfold onclick. destruct (menuClickFlag p =? 0)%nat; unfold andThen;
    repeat match goal with
    | |- context [modifyClass ?o ?c ?op ?q] =>
        rewrite (modifyClass_alter q o c op)
          by first [ reflexivity
                   | repeat first [apply isElement_alterAll | apply isElement_flag];
                     assumption ]
    end;
    reflexivity.
Qed.

Lemma fold_withToken_In (cs : list jsstring) : forall (l : ClassList) (c : jsstring),
  In c (fold_left withToken cs l) <-> In c l \/ In c cs.
Proof.
  induction cs as [|c0 cs IH]; intros l c; simpl; [tauto|].
  rewrite IH, withToken_In. intuition congruence.
Qed.

Lemma fold_withoutToken_In (cs : list jsstring) : forall (l : ClassList) (c : jsstring),
  In c (fold_left withoutToken cs l) <-> In c l /\ ~ In c cs.
Proof.
  induction cs as [|c0 cs IH]; intros l c; simpl; [tauto|].
  rewrite IH, withoutToken_In. intuition congruence.
Qed.

Lemma classesAt_In (node : nat) (ts : list (option nat * jsstring)) (c : jsstring) :
  In c (classesAt node ts) <-> In (Some node, c) ts.
Proof.
  unfold classesAt. rewrite in_map_iff. split.
  - intros ([[n|] c'] & E & Hin); simpl in E; subst c';
      apply filter_In in Hin as [Hin Hn]; simpl in Hn; [|discriminate].
    apply Nat.eqb_eq in Hn. now subst.
  - intros Hin. exists (Some node, c). split; [reflexivity|].
    apply filter_In. split; [exact Hin|]. simpl. apply Nat.eqb_refl.
Qed.

Lemma classesAt_NoDup (node : nat) (ts : list (option nat * jsstring)) :
  List.NoDup (List.map snd ts) -> List.NoDup (classesAt node ts).
Proof.
  unfold classesAt. induction ts as [|[obj c] ts IH]; simpl; intros Hnd; [constructor|].
  apply NoDup_cons_iff in Hnd as [Hc Hnd].
  destruct obj as [n|]; [destruct (n =? node)%nat|]; simpl; auto.
  constructor; [|auto]. intros Hin. apply Hc.
  apply in_map_iff in Hin as (t & <- & Ht). apply filter_In in Ht as [Ht _].
  now apply in_map.
Qed.

Lemma targets_NoDup (p : Page) (childNodes : list nat) :
  List.NoDup (List.map snd (targets p childNodes)).
Proof.
  simpl. repeat constructor; simpl; intros H;
    repeat (destruct H as [H|H]; [discriminate H|]); exact H.
Qed.

Lemma step_Click_elements (p : Page) (childNodes : list nat) :
  menuIcon p = Some childNodes -> onclickSet p = true ->
  Forall (fun target => isElement p (fst target)) (targets p childNodes) ->
  step Click p
  = if (menuClickFlag p =? 0)%nat then
      set_menuClickFlag 1
        (set_classLists (alterAll withToken (targets p childNodes) (classLists p)) p)
    else
      set_menuClickFlag 0
        (set_classLists (alterAll withoutToken (targets p childNodes) (classLists p)) p).
Proof.
  intros Hicon Hset Hall. unfold step. rewrite Hicon, Hset.
  now rewrite (onclick_elements p childNodes Hall).
Qed.

Lemma modifyClass_element (p : Page) (node : nat) (l : ClassList) (c : jsstring) (op : nat) :
  validate c = Done ->
  classLists p !! node = Some l ->
  modifyClass (Some node) c op p
  = (Done, set_classLists (<[node := change op l c]> (classLists p)) p).
Proof.
  intros Hc Hl. unfold modifyClass, updateClassList, add, remove, change.
  rewrite Hl, Hc.
  destruct (op =? 1)%nat; [reflexivity|].
  destruct (contains l c) eqn:Ec; [reflexivity|].
  apply contains_false in Ec. rewrite (withoutToken_absent l c Ec).
  rewrite insert_id by exact Hl. now rewrite set_classLists_same.
Qed.

Lemma sameNodes_refl p : sameNodes p p.
Proof. repeat split; auto. Qed.

Lemma sameNodes_trans p q r : sameNodes p q -> sameNodes q r -> sameNodes p r.
Proof.
  intros (A1 & A2 & A3 & A4 & A5 & A6 & A7 & A8) (B1 & B2 & B3 & B4 & B5 & B6 & B7 & B8).
  repeat split; try congruence; intros H; [apply A8, B8, H|apply B8, A8, H].
Qed.

Lemma sameNodes_isElement p q obj : sameNodes p q -> (isElement q obj <-> isElement p obj).
Proof.
  intros (_ & _ & _ & _ & _ & _ & _ & Hdom). unfold isElement. split.
  - intros (node & l & -> & Hl). destruct (classLists p !! node) as [l'|] eqn:E.
    + eauto.
    + apply Hdom in E. congruence.
  - intros (node & l & -> & Hl). destruct (classLists q !! node) as [l'|] eqn:E.
    + eauto.
    + apply Hdom in E. congruence.
Qed.

Lemma modifyClass_cases (obj : option nat) (c : jsstring) (op : nat) (p : Page) :
  validate c = Done ->
  (~ isElement p obj /\ modifyClass obj c op p = (TypeErrorThrown, p)) \/
  (isElement p obj /\ exists q, modifyClass obj c op p = (Done, q) /\
                                 sameNodes p q /\ menuClickFlag q = menuClickFlag p).
Proof.
  intros Hc. unfold modifyClass, updateClassList, add, remove. rewrite Hc.
  destruct obj as [node|].
  - destruct (classLists p !! node) as [l|] eqn:Hl.
    + right. split; [exists node, l; auto|].
      assert (Hs : forall l', sameNodes p (set_classLists (<[node := l']> (classLists p)) p)).
      { intros l'. repeat split; simpl; auto.
        - intros H. destruct (decide (node = node0)) as [->|Hne].
          + rewrite lookup_insert_eq in H. discriminate.
          + now rewrite lookup_insert_ne in H.
        - intros H. destruct (decide (node = node0)) as [->|Hne]; [congruence|].
          now rewrite lookup_insert_ne. }
      destruct (op =? 1)%nat; [eexists; split; [reflexivity|split; [apply Hs|reflexivity]]|].
      destruct (contains l c); eexists; (split; [reflexivity|]); split;
        first [apply Hs|apply sameNodes_refl|reflexivity].
    + left. split; [|reflexivity]. intros (n & l & [= <-] & Hl'). congruence.
  - left. split; [|reflexivity]. intros (n & l & [=] & _).
Qed.

Lemma not_all_elements (p : Page) (ts : list (option nat * jsstring)) t :
  In t ts -> ~ isElement p (fst t) ->
  ~ Forall (fun target => isElement p (fst target)) ts.
Proof.
  intros Hin Hnot Hall. rewrite List.Forall_forall in Hall. exact (Hnot (Hall t Hin)).
Qed.

Lemma onclick_closed (p : Page) (childNodes : list nat) :
  menuClickFlag p = 0 ->
  exists q,
    sameNodes p q /\
    ((onclick childNodes p = (Done, q) /\ menuClickFlag q = 1 /\
      Forall (fun target => isElement p (fst target)) (targets p childNodes)) \/
     (onclick childNodes p = (TypeErrorThrown, q) /\ menuClickFlag q = 0 /\
      ~ Forall (fun target => isElement p (fst target)) (targets p childNodes))).
Proof.
  intros Hflag. unfold onclick. rewrite Hflag. cbn [Nat.eqb]. unfold andThen.
  destruct (modifyClass_cases (childNodes !! 1%nat) newSecondLine 1 p eq_refl)
    as [[Hn E]|[H2 (q1 & E & Hs1 & Hf1)]]; rewrite E.
  { exists p. split; [apply sameNodes_refl|]. right. repeat split; auto.
    apply (not_all_elements p _ (childNodes !! 1%nat, newSecondLine)); [simpl; tauto|exact Hn]. }
  destruct (modifyClass_cases (childNodes !! 0%nat) newFirstLine 1 q1 eq_refl)
    as [[Hn E1]|[H1 (q2 & E1 & Hs2 & Hf2)]]; rewrite E1.
  { exists q1. split; [exact Hs1|]. right. repeat split; [congruence|].
    apply (not_all_elements p _ (childNodes !! 0%nat, newFirstLine)); [simpl; tauto|].
    cbn [fst]. intros Hel. apply Hn. now apply (sameNodes_isElement p q1). }
  pose proof (sameNodes_trans _ _ _ Hs1 Hs2) as Hs12.
  destruct (modifyClass_cases (childNodes !! 2%nat) newThirdLine 1 q2 eq_refl)
    as [[Hn E2]|[H3 (q3 & E2 & Hs3 & Hf3)]]; rewrite E2.
  { exists q2. split; [exact Hs12|]. right. repeat split; [congruence|].
    apply (not_all_elements p _ (childNodes !! 2%nat, newThirdLine)); [simpl; tauto|].
    cbn [fst]. intros Hel. apply Hn. now apply (sameNodes_isElement p q2). }
  pose proof (sameNodes_trans _ _ _ Hs12 Hs3) as Hs13.
  destruct (modifyClass_cases (nav p) newNav 1 q3 eq_refl)
    as [[Hn E3]|[H4 (q4 & E3 & Hs4 & Hf4)]]; rewrite E3.
  { exists q3. split; [exact Hs13|]. right. repeat split; [congruence|].
    apply (not_all_elements p _ (nav p, newNav)); [simpl; tauto|].
    cbn [fst]. intros Hel. apply Hn. now apply (sameNodes_isElement p q3). }
  pose proof (sameNodes_trans _ _ _ Hs13 Hs4) as Hs14.
  destruct (modifyClass_cases (menuOuter p) newMenuOuter 1 q4 eq_refl)
    as [[Hn E4]|[H5 (q5 & E4 & Hs5 & Hf5)]]; rewrite E4.
  { exists q4. split; [exact Hs14|]. right. repeat split; [congruence|].
    apply (not_all_elements p _ (menuOuter p, newMenuOuter)); [simpl; tauto|].
    cbn [fst]. intros Hel. apply Hn. now apply (sameNodes_isElement p q4). }
  pose proof (sameNodes_trans _ _ _ Hs14 Hs5) as Hs15.
  exists (set_menuClickFlag 1 q5). split; [exact Hs15|]. left.
  split; [reflexivity|]. split; [reflexivity|].
  unfold targets. repeat constructor; simpl.
  - exact H2.
  - now apply (sameNodes_isElement p q1).
  - now apply (sameNodes_isElement p q2).
  - now apply (sameNodes_isElement p q3).
  - now apply (sameNodes_isElement p q4).
Qed.

End MenuFacts.

(** * The query processor: what else the code shows *)

Section QueryProperties.
Context {tables : Unicode}.
Local Open Scope float_scope.


(** X2.  Whatever [performSearch] returns stands for a document of the index
    that contains one of the keywords of the query, in its lower-cased title
    or in its lower-cased content. *)
Theorem every_result_contains_a_keyword (options : Options) (query : jsstring)
    (searchIndex : list IndexedDocument.t) (r : ResultItem.t) :
  In r (performSearch options query searchIndex) ->
  In (ResultItem.item r) searchIndex /\
  exists keyword, In keyword (keywordsOf query) /\
    (includes (IndexedDocument.titleLower (ResultItem.item r)) keyword = true \/
     includes (IndexedDocument.contentLower (ResultItem.item r)) keyword = true).
Proof.
  intros Hr. apply performSearch_In in Hr.
  apply found_from_index in Hr as (Hin & _ & Hm).
  split; [exact Hin|]. now apply matches_keyword.
Qed.

(** X3.  A query made of separators only, such as ["--"], which passes the test
    on the length of the query, has no keyword, and the search for it returns
    no result whatever the index holds. *)
Theorem query_of_separators_finds_nothing (options : Options) (query : jsstring)
    (searchIndex : list IndexedDocument.t) :
  Forall (fun c => isSeparator c = true) (toLowerCase query) ->
  keywordsOf query = [] /\ performSearch options query searchIndex = [].
Proof.
  intros Hsep. pose proof (keywordsOf_separators query Hsep) as E.
  split; [exact E|].
  unfold performSearch. rewrite E, scanLoop_no_keyword. simpl.
  now destruct (maxResults options).
Qed.

(** X4.  No document of a loaded index comes twice in the results of a search:
    their [id]s, the positions in the fetched array, are all different. *)
Theorem results_name_distinct_documents (options : Options) (query : jsstring)
    (data : list DocumentRecord.t) :
  NoDup (List.map (fun r => IndexedDocument.id (ResultItem.item r))
           (performSearch options query (preprocessSearchData data))).
Proof.
  apply results_distinct. rewrite preprocessSearchData_ids. apply NoDup_seq.
Qed.

(** X5.  The order of the results does not depend on the sorting algorithm
    of the engine: among results with positive scores, an arrangement that is
    descending by score and keeps the results of each score in the order they
    were found is the list [results.sort(...)] returns. *)
Theorem sort_is_the_stable_sort (found arranged : list ResultItem.t) :
  Forall positiveResult found -> Forall positiveResult arranged ->
  StronglySorted descending arranged ->
  (forall v, List.filter (scored v) arranged = List.filter (scored v) found) ->
  arranged = sort compareFn found.
Proof.
  intros Hfound Harr Hsorted Hstable.
  apply sorted_stable_unique; try assumption.
  - now apply sort_Forall.
  - now apply sort_sorted.
  - intros v. rewrite sort_scored by assumption. apply Hstable.
Qed.

(** X6.  The weight of a record is one of six binary64 values, by the length
    of its title (over 10 code units or not) and of its raw content (over
    1000, over 500, or not): a content over 1000 gets both bonuses; the weight
    is at least 1 and at most 1.6.  A missing or empty title counts as
    short. *)
Theorem calculateWeight_values (item : DocumentRecord.t) :
  let titleLength := length (orElse (DocumentRecord.title item) []) in
  let contentLength := length (orElse (DocumentRecord.content item) []) in
  calculateWeight item
  = (if (10 <? titleLength)%nat then
       if (1000 <? contentLength)%nat then 1.6
       else if (500 <? contentLength)%nat then 1.3 else 1.1
     else
       if (1000 <? contentLength)%nat then 1.5
       else if (500 <? contentLength)%nat then 1.2 else 1) /\
  (1 <=? calculateWeight item) = true /\
  (calculateWeight item <=? 1.6) = true.
Proof.
  intros titleLength contentLength.
  assert (E : calculateWeight item
    = (if (10 <? titleLength)%nat then
       if (1000 <? contentLength)%nat then 1.6
       else if (500 <? contentLength)%nat then 1.3 else 1.1
     else
       if (1000 <? contentLength)%nat then 1.5
       else if (500 <? contentLength)%nat then 1.2 else 1)).
  { unfold calculateWeight. fold contentLength. subst titleLength.
    destruct (DocumentRecord.title item) as [[|c s]|].
    - change (10 <? length (orElse (Some []) []))%nat with false. cbv iota.
      destruct (Nat.ltb_spec 500 contentLength), (Nat.ltb_spec 1000 contentLength);
        try reflexivity; lia.
    - change (orElse (Some (c :: s)) []) with (c :: s).
      destruct (10 <? length (c :: s))%nat;
      destruct (Nat.ltb_spec 500 contentLength), (Nat.ltb_spec 1000 contentLength);
        try reflexivity; lia.
    - change (10 <? length (orElse None []))%nat with false. cbv iota.
      destruct (Nat.ltb_spec 500 contentLength), (Nat.ltb_spec 1000 contentLength);
        try reflexivity; lia. }
  split; [exact E|]. rewrite E.
  destruct (10 <? titleLength)%nat, (1000 <? contentLength)%nat,
    (500 <? contentLength)%nat; split; reflexivity.
Qed.

(** X7.  Stripping the tags leaves a text without tags as it is, so stripping
    twice is stripping once. *)
Theorem stripTags_idempotent (s : jsstring) :
  (tagFree s -> stripTags s = s) /\ stripTags (stripTags s) = stripTags s.
Proof.
  assert (H : forall t, tagFree t -> stripTags t = t).
  { intros t Ht. apply replaceFrom_unmatched. exact Ht. }
  split; [apply H|]. apply H, stripTags_tagFree.
Qed.


(** X9.  [highlightKeywords] only inserts marks: the text is a subsequence of
    the highlighted text; and a text in which no keyword matches anywhere is
    returned as it is. *)
Theorem highlighting_only_inserts_marks (text : jsstring) (keywords : list jsstring) :
  sublist text (highlightKeywords text keywords) /\
  ((forall keyword i, In keyword keywords -> keywordAt keyword (skipn i text) = None) ->
   highlightKeywords text keywords = text).
Proof.
  unfold highlightKeywords. split.
  - revert text. induction keywords as [|keyword keywords IH]; intros text; simpl.
    + reflexivity.
    + etransitivity; [|apply IH].
      apply (replaceFrom_sublist (keywordAt keyword)
               (fun matched => markOpen ++ matched ++ markClose)
               ltac:(intros matched; apply sublist_inserts_l, sublist_inserts_r; reflexivity)
               text 0).
  - revert text. induction keywords as [|keyword keywords IH]; intros text Hnone; simpl.
    + reflexivity.
    + unfold replaceAll. rewrite replaceFrom_unmatched.
      * apply IH. intros k i Hk. apply Hnone. now right.
      * intros i. apply Hnone. now left.
Qed.

(** X10.  The loop of [getHighlightedExcerpt] finds the earliest of the first
    occurrences of the keywords in [contentLower], whatever their order, and
    none when no keyword occurs.  The excerpt of an empty content is empty;
    when no keyword occurs, it is the first [maxLength] code units of the
    content, highlighted, always followed by ["..."], cut or not; otherwise it
    is the window of at most [maxLength] code units that starts 50 code units
    before that occurrence, or at the start, with ["..."] before it when the
    occurrence is past 50 and after it when the content goes on. *)
Theorem excerpt_is_a_window_on_the_earliest_match (item : IndexedDocument.t)
    (keywords : list jsstring) (maxLength : nat) :
  let content := IndexedDocument.content item in
  let contentLower := IndexedDocument.contentLower item in
  let first := fold_left (firstMatchStep contentLower) keywords None in
  (first = None <->
   forall keyword, In keyword keywords -> indexOf contentLower keyword = None) /\
  (forall i, first = Some i ->
     (exists keyword, In keyword keywords /\ indexOf contentLower keyword = Some i) /\
     forall keyword j, In keyword keywords ->
       indexOf contentLower keyword = Some j -> i <= j) /\
  getHighlightedExcerpt item keywords maxLength
  = match content, first with
    | [], _ => []
    | _ :: _, None =>
        highlightKeywords (firstn maxLength content) keywords ++ js "..."
    | _ :: _, Some i =>
        highlightKeywords
          ((if (50 <? i)%nat then js "..." else []) ++
           firstn maxLength (skipn (i - 50) content) ++
           (if (i - 50 + maxLength <? length content)%nat then js "..." else []))
          keywords
    end.
Proof.
  intros content contentLower first.
  pose proof (firstMatch_fold contentLower keywords None) as Hfold.
  fold first in Hfold.
  split; [|split].
  - destruct first as [i|].
    + destruct Hfold as ([[=]|(k & Hk & Ei)] & _). split; [discriminate|].
      intros Hnone. rewrite (Hnone k Hk) in Ei. discriminate.
    + destruct Hfold as (_ & Hnone). split; [intros _; exact Hnone|reflexivity].
  - intros i Ei. rewrite Ei in Hfold.
    destruct Hfold as ([[=]|Hex] & _ & Hmin). split; assumption.
  - unfold getHighlightedExcerpt. fold content contentLower first.
    destruct content as [|c content'] eqn:Ec; [reflexivity|].
    destruct first as [i|].
    + cbv zeta. rewrite substring_window.
      replace (0 <? i - 50)%nat with (50 <? i)%nat
        by (destruct (Nat.ltb_spec 50 i), (Nat.ltb_spec 0 (i - 50)); try reflexivity; lia).
      replace (Nat.min (length (c :: content')) (i - 50 + maxLength)
               <? length (c :: content'))%nat
        with (i - 50 + maxLength <? length (c :: content'))%nat
        by (destruct (Nat.ltb_spec (i - 50 + maxLength) (length (c :: content'))),
              (Nat.ltb_spec (Nat.min (length (c :: content')) (i - 50 + maxLength))
                 (length (c :: content'))); try reflexivity; lia).
      destruct (50 <? i)%nat, (i - 50 + maxLength <? length (c :: content'))%nat;
        rewrite ?app_nil_r; reflexivity.
    + now rewrite substring_prefix.
Qed.

(** X30.  On a loaded index, and for a query of fewer than 2^32 keywords, the
    test [matchScore > 0] passes on the documents that contain one of the
    keywords in the lower-cased title or content, and on no other: the score
    of such a document cannot round to zero.  So when at most [maxResults]
    documents contain a keyword, the search returns them all, each once. *)
Theorem search_returns_the_documents_with_a_keyword (options : Options)
    (query : jsstring) (data : list DocumentRecord.t) :
  let keywords := keywordsOf query in
  let searchIndex := preprocessSearchData data in
  (Z.of_nat (length keywords) < 2 ^ 32)%Z ->
  (forall item, In item searchIndex ->
     matches keywords item = containsKeyword keywords item) /\
  ((length (List.filter (containsKeyword keywords) searchIndex) <= maxResults options)%nat ->
   Permutation (List.map ResultItem.item (performSearch options query searchIndex))
     (List.filter (containsKeyword keywords) searchIndex)).
Proof.
  intros keywords searchIndex Hlen.
  assert (Hsame : forall item, In item searchIndex ->
            matches keywords item = containsKeyword keywords item).
  { intros item Hin. now apply matches_containsKeyword with data. }
  split; [exact Hsame|].
  rewrite <- (List.filter_ext_in _ _ _ Hsame).
  apply performSearch_all.
Qed.

End QueryProperties.

(** * The widget: what else the code shows *)

Section WidgetProperties.
Context {tables : Unicode}.

(** X11.  The constructor merges the options, warns once when the input or the
    result element is missing, and, unless [preload] is [false], starts the
    load at once, elements or not: one fetch, the call 0, with [isLoading] set,
    the controller made and the loading state written to the result
    container; with [preload: false] nothing is fetched or written. *)
Theorem construction_starts_the_preload (userOptions : UserOptions)
    (input : option jsstring) (result : option View) :
  let w := construct userOptions input result in
  options (this w) = mergeOptions userOptions /\
  console w
  = match input, result with
    | Some _, Some _ => []
    | _, _ => [WarnElementsNotFound]
    end /\
  searchIndex (this w) = None /\ searchCache (this w) = ∅ /\
  currentQuery (this w) = [] /\ debounceTimer w = false /\ unhandled w = [] /\
  inputElement (this w) = input /\
  (if preload (mergeOptions userOptions) then
     effects w = [Fetched 0] /\
     calls w = {[ 0 := (Preload, AwaitFetch) ]} /\
     isLoading (this w) = true /\
     abortController (this w) = Some 0 /\
     resultElement (this w) = written LoadingState result
   else
     effects w = [] /\ calls w = ∅ /\
     isLoading (this w) = false /\
     abortController (this w) = None /\
     resultElement (this w) = result).
Proof.
  unfold construct.
  destruct userOptions as [sp ii ri dt mr mq [[]|]], input, result; js_reduce;
    repeat split; reflexivity.
Qed.

(** X12.  [getEnhancedSearchFile] makes the widget with [searchPath] taken
    from [options.searchPath] if given, else from a non-empty [options.path],
    else ["/search.json"]; without a path, or with [searchPath] given, it is
    exactly [new EnhancedSearch(options)]. *)
Theorem getEnhancedSearchFile_is_the_constructor (path : option jsstring)
    (userOptions : UserOptions) (input : option jsstring) (result : option View) :
  let w := getEnhancedSearchFile path userOptions input result in
  searchPath (options (this w))
  = default (orElse path (js "/search.json")) (user_searchPath userOptions) /\
  (orElse path [] = [] \/ user_searchPath userOptions <> None ->
   w = construct userOptions input result).
Proof.
  unfold getEnhancedSearchFile, construct.
  destruct userOptions as [sp ii ri dt mr mq pl]. split.
  - destruct pl as [[]|], input, result; js_reduce; reflexivity.
  - intros Hpath.
    assert (E : mergeOptions
                  {| user_searchPath :=
                       Some (default (orElse path (js "/search.json")) sp);
                     user_inputId := Some (default (js "local-search-input") ii);
                     user_resultId := Some (default (js "local-search-result") ri);
                     user_debounceTime := dt; user_maxResults := mr;
                     user_minQueryLength := mq; user_preload := pl |}
                = mergeOptions
                    {| user_searchPath := sp; user_inputId := ii;
                       user_resultId := ri; user_debounceTime := dt;
                       user_maxResults := mr; user_minQueryLength := mq;
                       user_preload := pl |}).
    { unfold mergeOptions. simpl. f_equal.
      destruct sp as [s|]; [reflexivity|]. simpl.
      destruct Hpath as [Hpath|Hpath]; [|exfalso; apply Hpath; reflexivity].
      destruct path as [[|c p]|]; first [reflexivity|discriminate Hpath]. }
    simpl in E. simpl. rewrite E. reflexivity.
Qed.

(** X14.  When the trimmed value of the input is shorter than [minQueryLength],
    [handleSearch] empties the result container and does nothing else: the
    current query, the cache, the index and the pending calls stay as they
    are, nothing is fetched or scored. *)
Theorem short_query_only_clears_the_container (w : World) (value : jsstring) :
  inputElement (this w) = Some value ->
  debounceTimer w = true ->
  length (trim value) < minQueryLength (options (this w)) ->
  step DebounceTimeout w
  = Some (set_debounceTimer false
            (setWidget
               (fun t => set_resultElement (written Blank (resultElement t)) t) w)).
Proof.
  intros Hinput Htimer Hshort. apply Nat.ltb_lt in Hshort.
  destruct w as [[opts idx cache loading cur ctl inp res] cs next ab deb con eff unh].
  simpl in *. subst inp deb. js_reduce. rewrite Hshort. js_reduce.
  destruct res; reflexivity.
Qed.

(** X15.  A query long enough and not in the cache, entered while no index is
    there, becomes the current query and awaits the load: it starts the fetch
    and shows the loading state when no load is on, and when one is on it
    waits on the timer, fetching and writing nothing. *)
Theorem search_before_the_index_is_loaded (w : World) (value : jsstring) :
  inputElement (this w) = Some value ->
  debounceTimer w = true ->
  minQueryLength (options (this w)) <= length (trim value) ->
  searchCache (this w) !! trim value = None ->
  searchIndex (this w) = None ->
  exists w',
    step DebounceTimeout w = Some w' /\
    currentQuery (this w') = trim value /\
    searchCache (this w') = searchCache (this w) /\
    searchIndex (this w') = None /\
    isLoading (this w') = true /\
    nextCall w' = S (nextCall w) /\
    (if isLoading (this w) then
       calls w' = <[nextCall w := (Search (trim value), AwaitTimer)]> (calls w) /\
       effects w' = effects w /\
       abortController (this w') = abortController (this w) /\
       resultElement (this w') = resultElement (this w)
     else
       calls w' = <[nextCall w := (Search (trim value), AwaitFetch)]> (calls w) /\
       effects w' = effects w ++ [Fetched (nextCall w)] /\
       abortController (this w') = Some (nextCall w) /\
       resultElement (this w') = written LoadingState (resultElement (this w))).
Proof.
  intros Hinput Htimer Hlong Hmiss Hindex. apply Nat.ltb_ge in Hlong.
  destruct w as [[opts idx cache loading cur ctl inp res] cs next ab deb con eff unh].
  simpl in *. subst inp deb idx. js_reduce. rewrite Hlong. js_reduce. rewrite Hmiss.
  destruct loading, res; js_reduce; eexists; repeat split; reflexivity.
Qed.

(** X16.  A query long enough and not in the cache, entered when the index is
    loaded, is scored in the same task: it becomes the current query, its
    results are put in the cache under it and shown, the empty state when
    there is none; nothing is fetched and nothing stays pending. *)
Theorem search_on_a_loaded_index (w : World) (value : jsstring)
    (index : list IndexedDocument.t) :
  inputElement (this w) = Some value ->
  debounceTimer w = true ->
  minQueryLength (options (this w)) <= length (trim value) ->
  searchCache (this w) !! trim value = None ->
  searchIndex (this w) = Some index ->
  let query := trim value in
  let results := performSearch (options (this w)) query index in
  exists w',
    step DebounceTimeout w = Some w' /\
    currentQuery (this w') = query /\
    searchCache (this w') = <[query := results]> (searchCache (this w)) /\
    resultElement (this w') = written (rendered results query) (resultElement (this w)) /\
    effects w' = effects w ++ [Searched query] /\
    calls w' = delete (nextCall w) (calls w) /\
    searchIndex (this w') = Some index /\
    isLoading (this w') = isLoading (this w) /\
    console w' = console w /\ unhandled w' = unhandled w.
Proof.
  intros Hinput Htimer Hlong Hmiss Hindex query results.
  apply Nat.ltb_ge in Hlong.
  destruct w as [[opts idx cache loading cur ctl inp res] cs next ab deb con eff unh].
  simpl in *. subst inp deb idx query. js_reduce. rewrite Hlong. js_reduce.
  rewrite Hmiss. js_reduce. rewrite JSStringFacts.eqb_refl. js_reduce.
  fold results. destruct results, res; js_reduce;
    rewrite JSStringFacts.eqb_refl; js_reduce;
    eexists; repeat split; reflexivity.
Qed.

(** X17.  A search whose query is no longer the current one writes no results:
    whatever event lets its call of [loadSearchIndex] go on, the cache is left
    as it is, nothing is scored, and the result container is left as it is or,
    when the load that call held fails, gets the error state. *)
Theorem stale_search_writes_no_results (w w' : World) (event : Event) (call : nat)
    (query : jsstring) (on : Await) :
  calls w !! call = Some (Search query, on) ->
  currentQuery (this w) <> query ->
  resumes call event = true ->
  step event w = Some w' ->
  searchCache (this w') = searchCache (this w) /\
  effects w' = effects w /\
  currentQuery (this w') = currentQuery (this w) /\
  (resultElement (this w') = resultElement (this w) \/
   resultElement (this w') = written ErrorState (resultElement (this w))).
Proof.
  intros Hcall Hstale Hresumes.
  destruct w as [[opts idx cache loading cur ctl inp res] cs next ab deb con eff unh].
  simpl in *. apply JSStringFacts.eqb_neq in Hstale.
  destruct event as [value| | |c settled|c settled|c|]; try discriminate;
    simpl in Hresumes; apply Nat.eqb_eq in Hresumes; subst c;
    simpl; rewrite Hcall; destruct on; try discriminate;
    try (destruct (maySettle _ _ _ _); [|discriminate]);
    intros [= <-]; js_run; try congruence;
    repeat split; auto; destruct res; auto.
Qed.

(** X18.  Escape, or a click on the close button, empties the input and the
    result container and resets the current query; no other key does
    anything.  It cancels neither the pending calls nor the timer of the
    debounced handler, but with [minQueryLength] at least 1 it makes every
    pending search stale, and the handler, when its timer fires, reads the
    emptied input and only clears the container again. *)
Theorem dismissal_makes_pending_searches_stale (w : World) :
  reachable w ->
  inputElement (this w) <> None ->
  1 <= minQueryLength (options (this w)) ->
  exists w1,
    step Dismiss w = Some w1 /\
    run (handleKeyNavigation (js "Escape")) w = w1 /\
    (forall key, key <> js "Escape" -> run (handleKeyNavigation key) w = w) /\
    inputElement (this w1) = Some [] /\
    resultElement (this w1) = written Blank (resultElement (this w)) /\
    currentQuery (this w1) = [] /\
    searchCache (this w1) = searchCache (this w) /\
    searchIndex (this w1) = searchIndex (this w) /\
    calls w1 = calls w /\
    effects w1 = effects w /\
    debounceTimer w1 = debounceTimer w /\
    (forall call query on,
       calls w1 !! call = Some (Search query, on) -> currentQuery (this w1) <> query) /\
    (debounceTimer w = true ->
     exists w2,
       step DebounceTimeout w1 = Some w2 /\
       this w2 = this w1 /\ calls w2 = calls w /\ effects w2 = effects w).
Proof.
  intros Hreach Hinput Hmin.
  destruct (reachable_consistent w Hreach) as [_ _ _ _ Hlong _].
  destruct w as [[opts idx cache loading cur ctl inp res] cs next ab deb con eff unh].
  simpl in *. destruct inp as [value|]; [|congruence].
  eexists. split; [reflexivity|]. split; [reflexivity|]. split.
  { intros key Hkey. unfold handleKeyNavigation.
    rewrite (JSStringFacts.eqb_neq _ _ Hkey). reflexivity. }
  assert (Hstale : forall call query on,
             cs !! call = Some (Search query, on) -> [] <> query).
  { intros call query on Hc E. subst query.
    pose proof (Hlong _ _ _ Hc). simpl in *. lia. }
  assert (Hs : (length (trim []) <? minQueryLength opts)%nat = true)
    by (apply Nat.ltb_lt; simpl; lia).
  js_reduce. destruct res; js_reduce.
  all: do 8 (split; [reflexivity|]).
  all: split; [exact Hstale|].
  all: intros ->; rewrite Hs; js_reduce; eexists; repeat split; reflexivity.
Qed.

(** X19.  When the fetch fails, when the body is not JSON, or when the JSON is
    not an array of records, the load fails the same way: the error state is
    shown, [isLoading] and the controller are reset, the index stays as it
    was, the console gets the line of the load and the line of the caller, and
    the rejection is handled. *)
Theorem failed_load_is_reported_and_handled (w : World) (call : nat) (caller : Caller) :
  call ∉ aborted w ->
  (calls w !! call = Some (caller, AwaitFetch) ->
   failsWith w call caller (FetchSettled call (Throw NetworkError)) NetworkError) /\
  (calls w !! call = Some (caller, AwaitJson) ->
   failsWith w call caller (JsonSettled call (Throw SyntaxError)) SyntaxError /\
   failsWith w call caller (JsonSettled call (Normal JsonOther)) TypeError).
Proof.
  intros Hab. unfold failsWith, reported.
  destruct w as [[opts idx cache loading cur ctl inp res] cs next ab deb con eff unh].
  simpl in *.
  split; [intros Hcall|intros Hcall; split];
    rewrite Hcall, (bool_decide_eq_true_2 _ Hab);
    destruct caller, res; js_reduce; eexists; (split; [reflexivity|]);
    repeat split; rewrite <- ?app_assoc; reflexivity.
Qed.

(** X20.  When the preload of the constructor succeeds, the index is there and
    the load is over, and the result container still shows the loading state
    that the load wrote: nothing replaces it until an input does. *)
Theorem successful_preload_leaves_the_loading_state (userOptions : UserOptions)
    (input : option jsstring) (view : View) (status : nat)
    (data : list DocumentRecord.t) :
  preload (mergeOptions userOptions) = true ->
  ok status = true ->
  exists w,
    steps [FetchSettled 0 (Normal status); JsonSettled 0 (Normal (JsonArray data))]
      (construct userOptions input (Some view)) = Some w /\
    searchIndex (this w) = Some (preprocessSearchData data) /\
    isLoading (this w) = false /\
    abortController (this w) = None /\
    calls w = ∅ /\
    effects w = [Fetched 0] /\
    unhandled w = [] /\
    resultElement (this w) = Some LoadingState.
Proof.
  intros Hpreload Hok. unfold construct.
  assert (Hnot : bool_decide (0 ∉ @nil nat) = true)
    by (apply bool_decide_eq_true_2, not_elem_of_nil).
  destruct userOptions as [sp ii ri dt mr mq [[]|]]; try discriminate Hpreload;
    destruct input; js_reduce; eexists;
    (split;
     [ rewrite lookup_insert_eq; js_reduce; rewrite Hnot, Hok; js_reduce;
       rewrite lookup_insert_eq; js_reduce; rewrite Hnot; js_reduce; reflexivity |]);
    repeat split; try reflexivity; vm_compute; reflexivity.
Qed.

(** X21.  Whatever the page does, no rejection is left unhandled: every error
    of a load is caught by the caller that awaited it. *)
Theorem no_rejection_is_left_unhandled (w : World) :
  reachable w -> unhandled w = [].
Proof.
  intros (userOptions & input & result & events & Hsteps).
  rewrite <- (construct_unhandled userOptions input result).
  revert Hsteps. generalize (construct userOptions input result).
  induction events as [|event events IH]; intros w0; simpl.
  - now intros [= <-].
  - destruct (step event w0) as [w1|] eqn:E; [|discriminate].
    intros Hsteps. rewrite (IH w1 Hsteps). eapply step_unhandled, E.
Qed.

(** X22.  In every world the widget can come to, [isLoading] is true exactly
    while a call awaits the fetch or its body, [abortController] is the
    controller of that call and of no other, and it is [null] exactly when
    [isLoading] is false: a waiting call never waits on a load that is over,
    and [destroy] aborts exactly the load in flight. *)
Theorem loading_flag_follows_the_fetch (w : World) :
  reachable w ->
  (isLoading (this w) = true <->
   exists call caller on, calls w !! call = Some (caller, on) /\ loads on = true) /\
  (forall call,
     abortController (this w) = Some call <->
     exists caller on, calls w !! call = Some (caller, on) /\ loads on = true) /\
  (isLoading (this w) = false <-> abortController (this w) = None).
Proof.
  intros Hreach.
  pose proof (reachable_holdsLoad w Hreach) as Hheld.
  destruct (reachable_consistent w Hreach) as [_ Hload Huniq _ _ _].
  unfold holdsLoad in Hheld.
  destruct (isLoading (this w)) eqn:El.
  - destruct Hheld as (c & k & o & Ha & Hc & Ho). split; [|split].
    + split; [intros _; eauto|reflexivity].
    + intros call. split.
      * intros E. rewrite Ha in E. injection E as <-. eauto.
      * intros (k' & o' & Hc' & Ho').
        rewrite (Huniq call c k' k o' o Hc' Ho' Hc Ho). exact Ha.
    + rewrite Ha. split; discriminate.
  - split; [|split].
    + split; [discriminate|]. intros (c & k & o & Hc & Ho).
      eapply Hload; eassumption.
    + intros call. rewrite Hheld. split; [discriminate|].
      intros (k & o & Hc & Ho). pose proof (Hload _ _ _ Hc Ho). congruence.
    + split; [intros _; exact Hheld|reflexivity].
Qed.

(** X23.  In every world the widget can come to, an entry of the cache holds
    the results of [performSearch] for its key on the index that is loaded
    now, and its key is at least [minQueryLength] long: [destroy] drops the
    cache with the index, so no entry outlives the index it was scored on. *)
Theorem cached_results_are_those_of_the_index (w : World) (query : jsstring)
    (results : list ResultItem.t) :
  reachable w ->
  searchCache (this w) !! query = Some results ->
  minQueryLength (options (this w)) <= length query /\
  exists index,
    searchIndex (this w) = Some index /\
    results = performSearch (options (this w)) query index.
Proof.
  intros Hreach Hq.
  exact (cache_of_index w (reachable_consistent w Hreach) query results Hq).
Qed.

End WidgetProperties.

(** * The menu: what the script shows *)

Module DebounceProperties.
Import Debounce DebounceFacts.

(** X13.  However the function that [debounce] returns has been called and
    its timers have fired before, at most one of its timers is set; and
    after it is called again, any number of times in a row, exactly one
    timer is set, the one of the last call: the calls themselves do not
    call [func]; that timer is the only one that can fire, it calls [func]
    once, with the arguments of the last call, and leaves no timer set, so
    that [func] is not called again before the function is. *)
Theorem debounce_calls_func_once_with_the_last_arguments {Args : Type}
    (firstTimer : nat) (events : list (Event Args)) (s : State Args)
    (calls : list Args) (last : Args) :
  steps events (debounce firstTimer) = Some s ->
  (forall id id' args args',
      timers s !! id = Some args -> timers s !! id' = Some args' -> id = id') /\
  let s1 := burst (calls ++ [last]) s in
  exists id,
    timers s1 = {[id := last]} /\
    invoked s1 = invoked s /\
    (forall id', id' <> id -> step (Fire id') s1 = None) /\
    exists s2,
      step (Fire id) s1 = Some s2 /\
      invoked s2 = invoked s ++ [last] /\
      timers s2 = ∅ /\
      forall id', step (Fire id') s2 = None.
Proof.
  intros Hsteps.
  pose proof (steps_oneTimer events _ s (oneTimer_debounce firstTimer) Hsteps) as Hs.
  split.
  - intros id id' args args' H1 H2. destruct Hs as [Hone _].
    pose proof (Hone id args H1). pose proof (Hone id' args' H2). congruence.
  - cbv zeta. rewrite burst_snoc.
    pose proof (burst_oneTimer calls s Hs) as Hb.
    destruct (executedFunction_timers (burst calls s) last Hb) as (Et & Eo & En & Ei).
    set (s1 := executedFunction last (burst calls s)) in *.
    exists (nextTimer (burst calls s)).
    split; [exact Et|]. split; [now rewrite Ei, burst_invoked|].
    split.
    + intros id' Hne. cbn [step]. rewrite Et, lookup_singleton_ne by congruence.
      reflexivity.
    + cbn [step]. rewrite Et, lookup_singleton_eq. eexists. split; [reflexivity|].
      unfold later, clearTimeout.
      cbn [timeout set_timers timers func invoked]. rewrite Eo.
      cbn [timeout set_timers timers func invoked].
      rewrite Ei, burst_invoked by exact Hs.
      split; [reflexivity|].
      assert (Hnone : delete (nextTimer (burst calls s))
                        (delete (nextTimer (burst calls s))
                           ({[nextTimer (burst calls s) := last]} : gmap nat Args)) = ∅).
      { now rewrite !delete_singleton_eq, delete_empty. }
      split; [exact Hnone|].
      intros id'. rewrite Hnone, lookup_empty. reflexivity.
Qed.

End DebounceProperties.

Module MenuProperties.
Import Menu MenuFacts.


(** X25.  When the five nodes a click writes to are elements, a click with the
    flag at 0 sets it to 1 and puts on each node its class; a click with
    another flag sets it to 0 and takes the classes off; no other class of any
    node changes, whether or not two of the references name the same node. *)
Theorem click_toggles_the_menu (p : Page) (childNodes : list nat) :
  menuIcon p = Some childNodes ->
  onclickSet p = true ->
  Forall (fun target => isElement p (fst target)) (targets p childNodes) ->
  let opens := (menuClickFlag p =? 0)%nat in
  let p' := step Click p in
  menuClickFlag p' = (if opens then 1 else 0) /\
  Forall (fun target => contains (classesOf p' (fst target)) (snd target) = opens)
    (targets p childNodes) /\
  (forall node className,
     ~ In (Some node, className) (targets p childNodes) ->
     contains (classesOf p' (Some node)) className
     = contains (classesOf p (Some node)) className) /\
  Forall (fun target => isElement p' (fst target)) (targets p' childNodes).
Proof.
  intros Hicon Hset Hall. cbv zeta.
  rewrite (step_Click_elements p childNodes Hicon Hset Hall).
  set (ts := targets p childNodes) in *.
  assert (Hlookup : forall g v node,
            classesOf (set_menuClickFlag v (set_classLists (alterAll g ts (classLists p)) p))
              (Some node)
            = default [] ((fun l => fold_left g (classesAt node ts) l)
                            <$> classLists p !! node)).
  { intros g v node. cbn [classesOf classLists set_menuClickFlag set_classLists].
    now rewrite alterAll_lookup. }
  destruct (menuClickFlag p =? 0)%nat.
  - split; [reflexivity|]. split; [|split].
    + apply List.Forall_forall. intros [obj c] Hin.
      rewrite List.Forall_forall in Hall.
      destruct (Hall _ Hin) as (node & l & E & Hl). simpl in E. subst obj.
      cbn [fst snd]. rewrite Hlookup, Hl. simpl.
      apply contains_In, fold_withToken_In. right. now apply classesAt_In.
    + intros node c Hnot. rewrite Hlookup. unfold classesOf.
      destruct (classLists p !! node) as [l|]; [|reflexivity]. simpl.
      rewrite <- classesAt_In in Hnot.
      destruct (contains l c) eqn:Ec.
      * apply contains_In. apply contains_In in Ec. apply fold_withToken_In. now left.
      * apply contains_false. apply contains_false in Ec. rewrite fold_withToken_In. tauto.
    + eapply Forall_impl; [exact Hall|]. intros t Ht.
      apply isElement_flag, isElement_alterAll, Ht.
  - split; [reflexivity|]. split; [|split].
    + apply List.Forall_forall. intros [obj c] Hin.
      rewrite List.Forall_forall in Hall.
      destruct (Hall _ Hin) as (node & l & E & Hl). simpl in E. subst obj.
      cbn [fst snd]. rewrite Hlookup, Hl. simpl.
      apply contains_false. rewrite fold_withoutToken_In. intros [_ Hnot].
      apply Hnot. now apply classesAt_In.
    + intros node c Hnot. rewrite Hlookup. unfold classesOf.
      destruct (classLists p !! node) as [l|]; [|reflexivity]. simpl.
      rewrite <- classesAt_In in Hnot.
      destruct (contains l c) eqn:Ec.
      * apply contains_In. apply contains_In in Ec. apply fold_withoutToken_In. now split.
      * apply contains_false. apply contains_false in Ec. rewrite fold_withoutToken_In. tauto.
    + eapply Forall_impl; [exact Hall|]. intros t Ht.
      apply isElement_flag, isElement_alterAll, Ht.
Qed.

(** X26.  Opening and closing: from a closed menu whose nodes do not have the
    classes yet, two clicks give back the page exactly as it was. *)
Theorem two_clicks_restore_the_page (p : Page) (childNodes : list nat) :
  menuIcon p = Some childNodes ->
  onclickSet p = true ->
  menuClickFlag p = 0 ->
  Forall (fun target => isElement p (fst target)) (targets p childNodes) ->
  Forall (fun target => contains (classesOf p (fst target)) (snd target) = false)
    (targets p childNodes) ->
  step Click (step Click p) = p.
Proof.
  intros Hicon Hset Hflag Hall Habsent.
  rewrite (step_Click_elements p childNodes Hicon Hset Hall). rewrite Hflag.
  cbn [Nat.eqb].
  set (p1 := set_menuClickFlag 1 _).
  assert (Hall1 : Forall (fun target => isElement p1 (fst target)) (targets p1 childNodes)).
  { eapply Forall_impl; [exact Hall|]. intros t Ht.
    apply isElement_flag, isElement_alterAll, Ht. }
  rewrite (step_Click_elements p1 childNodes Hicon Hset Hall1).
  subst p1. cbn [menuClickFlag set_menuClickFlag Nat.eqb classLists set_classLists].
  change (targets (set_menuClickFlag 1 _) childNodes) with (targets p childNodes).
  assert (E : alterAll withoutToken (targets p childNodes)
                (alterAll withToken (targets p childNodes) (classLists p))
              = classLists p).
  { apply map_eq. intros node. rewrite !alterAll_lookup.
    destruct (classLists p !! node) as [l|] eqn:Hl; [|reflexivity].
    simpl. f_equal.
    assert (Hnot : forall c, In c (classesAt node (targets p childNodes)) -> ~ In c l).
    { intros c Hc. apply classesAt_In in Hc.
      rewrite List.Forall_forall in Habsent. specialize (Habsent _ Hc).
      cbn [classesOf fst snd] in Habsent. rewrite Hl in Habsent.
      now apply contains_false. }
    pose proof (classesAt_NoDup node _ (targets_NoDup p childNodes)) as Hnd.
    rewrite (fold_withToken _ l Hnd Hnot). apply (fold_withoutToken _ l Hnd Hnot). }
  rewrite E. destruct p. simpl in *. now subst.
Qed.

(** X27.  When one of the five nodes is not an element (a text node among the
    first three child nodes of the icon, a missing [nav] or [menu-outer]), a
    click throws a [TypeError] before the flag is set: from a closed menu, the
    flag stays at 0 whatever clicks and scrolls follow. *)
Theorem menu_stays_closed_without_its_elements (p : Page) (childNodes : list nat) :
  menuIcon p = Some childNodes ->
  menuClickFlag p = 0 ->
  ~ Forall (fun target => isElement p (fst target)) (targets p childNodes) ->
  fst (onclick childNodes p) = TypeErrorThrown /\
  forall events, menuClickFlag (steps events p) = 0.
Proof.
  intros Hicon Hflag Hnot. split.
  - destruct (onclick_closed p childNodes Hflag) as (q & _ & [(_ & _ & Hall)|(E & _)]).
    + contradiction.
    + now rewrite E.
  - intros events.
    assert (Hinv : forall q, sameNodes p q -> menuClickFlag q = 0 ->
              sameNodes p (steps events q) /\ menuClickFlag (steps events q) = 0).
    { induction events as [|event events IH]; intros q Hs Hf; [now split|].
      change (steps (event :: events) q) with (steps events (step event q)).
      assert (Hstep : sameNodes p (step event q) /\ menuClickFlag (step event q) = 0).
      { destruct event as [|scrollY]; simpl.
        - pose proof Hs as (A1 & A2 & A3 & A4 & A5 & A6 & A7 & A8).
          rewrite A2, Hicon. destruct (onclickSet q) eqn:Eset; [|now split].
          destruct (onclick_closed q childNodes Hf)
            as (q' & Hs' & [(_ & _ & Hall)|(E & Hf' & _)]).
          + exfalso. apply Hnot. unfold targets in *. rewrite A3, A4 in Hall.
            eapply Forall_impl; [exact Hall|]. intros t Ht.
            apply (sameNodes_isElement p q); [exact Hs|exact Ht].
          + rewrite E. simpl. split; [|exact Hf'].
            eapply sameNodes_trans; [exact Hs|exact Hs'].
        - destruct (scrollListening q); [|now split].
          unfold onscroll. destruct (isHome q); [|now split].
          destruct (0 <? scrollY)%float.
          + destruct (modifyClass_cases (menuOuter q) newMenuOuterColor 1 q eq_refl)
              as [[_ E]|[_ (q' & E & Hs' & Hf')]]; rewrite E; simpl; [now split|].
            split; [eapply sameNodes_trans; eassumption|congruence].
          + destruct (modifyClass_cases (menuOuter q) newMenuOuterColor 0 q eq_refl)
              as [[_ E]|[_ (q' & E & Hs' & Hf')]]; rewrite E; simpl; [now split|].
            split; [eapply sameNodes_trans; eassumption|congruence]. }
      destruct Hstep as [Hs1 Hf1]. exact (IH _ Hs1 Hf1). }
    apply (Hinv p (sameNodes_refl p) Hflag).
Qed.

(** X28.  On the home page a scroll leaves [menu-outer] with the class
    [newMenuOuterColor] exactly when [scrollY] is above 0; on another page it
    changes nothing.  It never touches the flag or any other class. *)
Theorem scroll_colours_the_menu_on_the_home_page (p : Page) (scrollY : float) :
  scrollListening p = true ->
  isElement p (menuOuter p) ->
  let p' := step (Scroll scrollY) p in
  (if isHome p then
     contains (classesOf p' (menuOuter p)) newMenuOuterColor = (0 <? scrollY)%float
   else p' = p) /\
  menuClickFlag p' = menuClickFlag p /\
  forall obj className,
    className <> newMenuOuterColor ->
    contains (classesOf p' obj) className = contains (classesOf p obj) className.
Proof.
  intros Hlisten (node & l & Houter & Hl). cbv zeta. unfold step. rewrite Hlisten.
  unfold onscroll. destruct (isHome p); [|repeat split; reflexivity].
  rewrite Houter.
  assert (Hgen : forall op,
            let p' := snd (modifyClass (Some node) newMenuOuterColor op p) in
            contains (classesOf p' (Some node)) newMenuOuterColor = (op =? 1)%nat /\
            menuClickFlag p' = menuClickFlag p /\
            forall obj className,
              className <> newMenuOuterColor ->
              contains (classesOf p' obj) className = contains (classesOf p obj) className).
  { intros op. cbv zeta. rewrite (modifyClass_element p node l newMenuOuterColor op eq_refl Hl).
    cbn [snd classesOf classLists set_classLists menuClickFlag].
    rewrite lookup_insert_eq. cbn [default from_option id]. unfold change.
    split; [|split; [reflexivity|]].
    - destruct (op =? 1)%nat.
      + apply contains_In, withToken_In. now right.
      + apply contains_false. rewrite withoutToken_In. tauto.
    - intros [node'|] c Hc; [|reflexivity].
      cbn [classesOf classLists set_classLists].
      destruct (decide (node = node')) as [<-|Hne].
      + rewrite lookup_insert_eq, Hl. cbn [default from_option id].
        apply contains_iff. destruct (op =? 1)%nat.
        * rewrite withToken_In. tauto.
        * rewrite withoutToken_In. tauto.
      + now rewrite lookup_insert_ne. }
  destruct (0 <? scrollY)%float; [apply (Hgen 1)|apply (Hgen 0)].
Qed.

(** X29.  The script as it loads: on a page other than the home page it sets
    the background of [menu-outer], and throws when there is no such element;
    it throws when no element has the class [menu-icon]; a throw ends the
    script before the handlers that follow are set, and a page whose script
    has thrown reacts to no click and no scroll. *)
Theorem main_sets_the_handlers (p : Page) :
  let styled :=
    if isHome p then set_menuClickFlag 0 p
    else set_backgroundColor (Some (js "#191919")) (set_menuClickFlag 0 p) in
  main p
  = match isHome p, menuOuter p, menuIcon p with
    | false, None, _ => (TypeErrorThrown, set_menuClickFlag 0 p)
    | _, _, None => (TypeErrorThrown, styled)
    | _, _, Some _ =>
        (Done, set_scrollListening true (set_onclickSet true styled))
    end /\
  (onclickSet p = false -> scrollListening p = false ->
   fst (main p) = TypeErrorThrown ->
   forall events, steps events (snd (main p)) = snd (main p)).
Proof.
  cbv zeta.
  assert (E : main p
    = match isHome p, menuOuter p, menuIcon p with
      | false, None, _ => (TypeErrorThrown, set_menuClickFlag 0 p)
      | _, _, None =>
          (TypeErrorThrown,
           if isHome p then set_menuClickFlag 0 p
           else set_backgroundColor (Some (js "#191919")) (set_menuClickFlag 0 p))
      | _, _, Some _ =>
          (Done,
           set_scrollListening true
             (set_onclickSet true
                (if isHome p then set_menuClickFlag 0 p
                 else set_backgroundColor (Some (js "#191919"))
                        (set_menuClickFlag 0 p))))
      end).
  { unfold main, andThen. destruct p as [h cl mi nv mo bg fl oc sl].
    destruct h, mo, mi; reflexivity. }
  split; [exact E|].
  intros Hclick Hscroll Hthrown events. rewrite E in *.
  assert (Hoff : forall q, onclickSet q = false -> scrollListening q = false ->
                           steps events q = q).
  { induction events as [|event events IH]; intros q H1 H2; [reflexivity|].
    change (steps (event :: events) q) with (steps events (step event q)).
    assert (Es : step event q = q).
    { destruct event; simpl; [rewrite H1; now destruct (menuIcon q)|now rewrite H2]. }
    rewrite Es. now apply IH. }
  destruct (isHome p), (menuOuter p), (menuIcon p); try discriminate Hthrown;
    apply Hoff; assumption.
Qed.

End MenuProperties.

(** * The further properties at work *)

Section MoreExamples.
Local Existing Instance ascii_tables.

(** The results for ["learn"] contain it. *)
Lemma every_result_contains_a_keyword_witness :
  exists r,
    In r (performSearch defaultOptions (js "learn") sampleIndex) /\
    In (ResultItem.item r) sampleIndex /\
    exists keyword,
      In keyword (keywordsOf (js "learn")) /\
      (includes (IndexedDocument.titleLower (ResultItem.item r)) keyword = true \/
       includes (IndexedDocument.contentLower (ResultItem.item r)) keyword = true).
Proof.
  eexists. split.
  - vm_compute. left. reflexivity.
  - apply (every_result_contains_a_keyword defaultOptions (js "learn") sampleIndex).
    vm_compute. left. reflexivity.
Defined.

(** The query ["- -"] is three code units long and finds nothing. *)
Lemma query_of_separators_finds_nothing_witness :
  Forall (fun c => isSeparator c = true) (toLowerCase (js "- -")) /\
  minQueryLength defaultOptions <= length (trim (js "- -")) /\
  performSearch defaultOptions (js "- -") sampleIndex = [].
Proof.
  assert (H : Forall (fun c => isSeparator c = true) (toLowerCase (js "- -")))
    by (repeat constructor).
  split; [exact H|]. split; [vm_compute; lia|].
  exact (proj2 (query_of_separators_finds_nothing defaultOptions (js "- -")
                  sampleIndex H)).
Defined.

(** The two results for ["learn"], of equal scores, stay in the order of the
    index. *)
Lemma sort_is_the_stable_sort_witness :
  let found := scanLoop defaultOptions (keywordsOf (js "learn")) sampleIndex [] in
  Forall positiveResult found /\
  StronglySorted descending found /\
  found = sort compareFn found.
Proof.
  intros found.
  assert (H1 : Forall positiveResult found) by (vm_compute; repeat constructor).
  assert (H2 : StronglySorted descending found) by (vm_compute; repeat constructor).
  split; [exact H1|]. split; [exact H2|].
  exact (sort_is_the_stable_sort found found H1 H1 H2 (fun v => eq_refl)).
Defined.

(** The input ["l"] clears the container and leaves the rest. *)
Lemma short_query_only_clears_the_container_witness :
  let w := after [Input (js "l")] page in
  inputElement (this w) = Some (js "l") /\
  exists w',
    step DebounceTimeout w = Some w' /\
    resultElement (this w') = Some Blank /\
    calls w' = calls w /\ effects w' = [Fetched 0].
Proof.
  intros w.
  assert (H1 : inputElement (this w) = Some (js "l")) by (vm_compute; reflexivity).
  assert (H2 : debounceTimer w = true) by (vm_compute; reflexivity).
  assert (H3 : length (trim (js "l")) < minQueryLength (options (this w)))
    by (vm_compute; lia).
  split; [exact H1|]. eexists.
  split; [exact (short_query_only_clears_the_container w (js "l") H1 H2 H3)|].
  split; [|split]; vm_compute; reflexivity.
Defined.

(** On a widget made with [preload: false], the first search fetches. *)
Lemma search_before_the_index_is_loaded_witness :
  let w := after [Input (js " learn ")] lazyPage in
  effects w = [] /\
  isLoading (this w) = false /\
  exists w',
    step DebounceTimeout w = Some w' /\
    currentQuery (this w') = js "learn" /\
    effects w' = [Fetched 0] /\
    resultElement (this w') = Some LoadingState.
Proof.
  intros w.
  assert (H1 : inputElement (this w) = Some (js " learn ")) by (vm_compute; reflexivity).
  assert (H2 : debounceTimer w = true) by (vm_compute; reflexivity).
  assert (H3 : minQueryLength (options (this w)) <= length (trim (js " learn ")))
    by (vm_compute; lia).
  assert (H4 : searchCache (this w) !! trim (js " learn ") = None)
    by (vm_compute; reflexivity).
  assert (H5 : searchIndex (this w) = None) by (vm_compute; reflexivity).
  split; [vm_compute; reflexivity|]. split; [vm_compute; reflexivity|].
  destruct (search_before_the_index_is_loaded w (js " learn ") H1 H2 H3 H4 H5)
    as (w' & Hstep & Hquery & _ & _ & _ & _ & Hcase).
  exists w'. split; [exact Hstep|]. split; [rewrite Hquery; vm_compute; reflexivity|].
  change (isLoading (this w)) with false in Hcase.
  destruct Hcase as (_ & Heffects & _ & Hview).
  split; [rewrite Heffects; vm_compute; reflexivity|].
  rewrite Hview. vm_compute. reflexivity.
Defined.

(** With the index of the example loaded, ["learn"] is scored at once. *)
Lemma search_on_a_loaded_index_witness :
  let w := after [Input (js " learn ")] loadedPage in
  let results := performSearch defaultOptions (js "learn") sampleIndex in
  exists w',
    step DebounceTimeout w = Some w' /\
    searchCache (this w') !! js "learn" = Some results /\
    resultElement (this w') = Some (ResultList results) /\
    effects w' = [Fetched 0; Searched (js "learn")].
Proof.
  intros w results.
  assert (H1 : inputElement (this w) = Some (js " learn ")) by (vm_compute; reflexivity).
  assert (H2 : debounceTimer w = true) by (vm_compute; reflexivity).
  assert (H3 : minQueryLength (options (this w)) <= length (trim (js " learn ")))
    by (vm_compute; lia).
  assert (H4 : searchCache (this w) !! trim (js " learn ") = None)
    by (vm_compute; reflexivity).
  assert (H5 : searchIndex (this w) = Some sampleIndex) by (vm_compute; reflexivity).
  destruct (search_on_a_loaded_index w (js " learn ") sampleIndex H1 H2 H3 H4 H5)
    as (w' & Hstep & _ & Hcache & Hview & Heffects & _).
  exists w'. split; [exact Hstep|]. split; [|split].
  - rewrite Hcache. vm_compute. reflexivity.
  - rewrite Hview. vm_compute. reflexivity.
  - rewrite Heffects. vm_compute. reflexivity.
Defined.

(** ["rust"] waits for the load and is replaced by ["learn"]: when its call
    goes on, nothing is written. *)
Lemma stale_search_writes_no_results_witness :
  let w :=
    after [ Input (js "rust"); DebounceTimeout; Input (js "learn"); DebounceTimeout;
            FetchSettled 0 (Normal 200);
            JsonSettled 0 (Normal (JsonArray sampleData)) ] page in
  let w' := after [TimerFired 1] w in
  calls w !! 1 = Some (Search (js "rust"), AwaitTimer) /\
  currentQuery (this w) = js "learn" /\
  step (TimerFired 1) w = Some w' /\
  searchCache (this w') = searchCache (this w) /\
  effects w' = effects w.
Proof.
  intros w w'.
  assert (H1 : calls w !! 1 = Some (Search (js "rust"), AwaitTimer))
    by (vm_compute; reflexivity).
  assert (H2 : currentQuery (this w) <> js "rust") by (vm_compute; discriminate).
  assert (H3 : resumes 1 (TimerFired 1) = true) by reflexivity.
  assert (H4 : step (TimerFired 1) w = Some w') by (vm_compute; reflexivity).
  split; [exact H1|]. split; [vm_compute; reflexivity|]. split; [exact H4|].
  destruct (stale_search_writes_no_results w w' (TimerFired 1) 1 (js "rust")
              AwaitTimer H1 H2 H3 H4) as (Hcache & Heffects & _).
  split; [exact Hcache|exact Heffects].
Defined.

(** The close button while ["learn"] waits and ["learning"] is being typed. *)
Lemma dismissal_makes_pending_searches_stale_witness :
  let w := after [Input (js "learn"); DebounceTimeout; Input (js "learning")] page in
  calls w !! 1 = Some (Search (js "learn"), AwaitTimer) /\
  debounceTimer w = true /\
  exists w1 w2,
    step Dismiss w = Some w1 /\
    currentQuery (this w1) = [] /\
    calls w1 !! 1 = Some (Search (js "learn"), AwaitTimer) /\
    step DebounceTimeout w1 = Some w2 /\
    effects w2 = [Fetched 0].
Proof.
  intros w.
  assert (H0 : reachable w) by (eapply reachable_after; vm_compute; reflexivity).
  assert (H1 : inputElement (this w) <> None) by (vm_compute; discriminate).
  assert (H2 : 1 <= minQueryLength (options (this w))) by (vm_compute; lia).
  assert (H3 : debounceTimer w = true) by (vm_compute; reflexivity).
  split; [vm_compute; reflexivity|]. split; [exact H3|].
  destruct (dismissal_makes_pending_searches_stale w H0 H1 H2)
    as (w1 & Hstep & _ & _ & _ & _ & Hquery & _ & _ & Hcalls & _ & _ & _ & Hlater).
  destruct (Hlater H3) as (w2 & Hstep2 & _ & _ & Heffects).
  exists w1, w2. split; [exact Hstep|]. split; [exact Hquery|].
  split; [rewrite Hcalls; vm_compute; reflexivity|]. split; [exact Hstep2|].
  rewrite Heffects. vm_compute. reflexivity.
Defined.

(** The body of the answer to the preload is not JSON. *)
Lemma failed_load_is_reported_and_handled_witness :
  let w := after [FetchSettled 0 (Normal 200)] page in
  (0 ∉ aborted w) /\
  calls w !! 0 = Some (Preload, AwaitJson) /\
  failsWith w 0 Preload (JsonSettled 0 (Throw SyntaxError)) SyntaxError.
Proof.
  intros w.
  assert (H1 : 0 ∉ aborted w) by (vm_compute; apply not_elem_of_nil).
  assert (H2 : calls w !! 0 = Some (Preload, AwaitJson)) by (vm_compute; reflexivity).
  split; [exact H1|]. split; [exact H2|].
  exact (proj1 (proj2 (failed_load_is_reported_and_handled w 0 Preload H1) H2)).
Defined.

(** The page of the examples, its preload answered with the index. *)
Lemma successful_preload_leaves_the_loading_state_witness :
  preload (mergeOptions noOptions) = true /\
  ok 200 = true /\
  exists w,
    steps [ FetchSettled 0 (Normal 200);
            JsonSettled 0 (Normal (JsonArray sampleData)) ] page = Some w /\
    searchIndex (this w) = Some sampleIndex /\
    resultElement (this w) = Some LoadingState.
Proof.
  assert (H1 : preload (mergeOptions noOptions) = true) by reflexivity.
  assert (H2 : ok 200 = true) by reflexivity.
  split; [exact H1|]. split; [exact H2|].
  destruct (successful_preload_leaves_the_loading_state noOptions (Some []) Blank
              200 sampleData H1 H2) as (w & Hsteps & Hindex & _ & _ & _ & _ & _ & Hview).
  exists w. split; [exact Hsteps|]. split; [exact Hindex|exact Hview].
Defined.

(** The server answers 500 while a search waits: both ends are handled. *)
Lemma no_rejection_is_left_unhandled_witness :
  unhandled
    (after [ Input (js "learn"); DebounceTimeout; FetchSettled 0 (Normal 500);
             TimerFired 1 ] page) = [].
Proof.
  apply no_rejection_is_left_unhandled.
  eapply reachable_after. vm_compute. reflexivity.
Defined.

(** While the preload fetches, the call 0 holds the load. *)
Lemma loading_flag_follows_the_fetch_witness :
  isLoading (this page) = true /\
  abortController (this page) = Some 0 /\
  exists caller on, calls page !! 0 = Some (caller, on) /\ loads on = true.
Proof.
  assert (H0 : reachable page)
    by (exists noOptions, (Some []), (Some Blank), []; reflexivity).
  assert (H1 : abortController (this page) = Some 0) by (vm_compute; reflexivity).
  split; [vm_compute; reflexivity|]. split; [exact H1|].
  destruct (loading_flag_follows_the_fetch page H0) as (_ & Hcontroller & _).
  exact (proj1 (Hcontroller 0) H1).
Defined.

(** The entry of ["learn"] is what the index of the example gives. *)
Lemma cached_results_are_those_of_the_index_witness :
  let w :=
    after [ FetchSettled 0 (Normal 200); JsonSettled 0 (Normal (JsonArray sampleData));
            Input (js "learn"); DebounceTimeout ] page in
  exists results index,
    searchCache (this w) !! js "learn" = Some results /\
    searchIndex (this w) = Some index /\
    results = performSearch (options (this w)) (js "learn") index.
Proof.
  intros w.
  assert (H0 : reachable w)
    by (eapply reachable_after; vm_compute; reflexivity).
  assert (H1 : searchCache (this w) !! js "learn"
               = Some (performSearch defaultOptions (js "learn") sampleIndex))
    by (vm_compute; reflexivity).
  destruct (cached_results_are_those_of_the_index w (js "learn") _ H0 H1)
    as (_ & index & Hindex & Hresults).
  eexists. exists index. split; [exact H1|]. split; [exact Hindex|exact Hresults].
Defined.

(** Only the first document of the example contains ["rust"]. *)
Lemma search_returns_the_documents_with_a_keyword_witness :
  let keywords := keywordsOf (js "rust") in
  (forall item, In item sampleIndex ->
     matches keywords item = containsKeyword keywords item) /\
  List.map (fun r => IndexedDocument.id (ResultItem.item r))
    (performSearch defaultOptions (js "rust") sampleIndex) = [0%nat] /\
  Permutation
    (List.map ResultItem.item (performSearch defaultOptions (js "rust") sampleIndex))
    (List.filter (containsKeyword keywords) sampleIndex).
Proof.
  intros keywords.
  assert (Hlen : (Z.of_nat (length (keywordsOf (js "rust"))) < 2 ^ 32)%Z)
    by (vm_compute; reflexivity).
  pose proof (search_returns_the_documents_with_a_keyword defaultOptions (js "rust")
                sampleData) as Hthm.
  cbv zeta in Hthm. specialize (Hthm Hlen). destruct Hthm as [Hsame Hall].
  split; [exact Hsame|]. split; [vm_compute; reflexivity|].
  apply Hall. vm_compute. lia.
Defined.

End MoreExamples.

Module DebounceExamples.
Import Debounce DebounceProperties.

(** Two bursts of calls with a firing between them: the first burst has
    called [func] once, with its last argument, and so does the second. *)
Lemma debounce_calls_func_once_with_the_last_arguments_witness :
  let events := [Call 1; OtherTimer; Call 2; Fire 7] in
  exists s s1,
    steps events (debounce 5) = Some s /\
    invoked s = [2] /\
    s1 = burst ([3; 4] ++ [5]) s /\
    invoked s1 = [2] /\
    exists s2,
      step (Fire 10) s1 = Some s2 /\
      invoked s2 = [2; 5] /\
      step (Fire 8) s1 = None.
Proof.
  intros events.
  assert (H : steps events (debounce 5)
              = Some {| timeout := Some 7; timers := ∅; nextTimer := 8; invoked := [2] |}).
  { vm_compute. reflexivity. }
  eexists. exists (burst ([3; 4] ++ [5]) {| timeout := Some 7; timers := ∅; nextTimer := 8; invoked := [2] |}).
  split; [exact H|]. split; [reflexivity|]. split; [reflexivity|].
  destruct (debounce_calls_func_once_with_the_last_arguments 5 events _ [3; 4] 5 H)
    as (_ & id & Htimers & Hinvoked & Hothers & s2 & Hfire & Hinvoked2 & _).
  split; [exact Hinvoked|].
  assert (Eid : id = 10).
  { assert (Hl : timers (burst ([3; 4] ++ [5])
                   {| timeout := Some 7; timers := ∅; nextTimer := 8; invoked := [2] |}) !! 10
                 = Some 5) by (vm_compute; reflexivity).
    rewrite Htimers in Hl. apply lookup_singleton_Some in Hl. tauto. }
  subst id. exists s2. split; [exact Hfire|]. split; [exact Hinvoked2|].
  apply Hothers. discriminate.
Defined.

End DebounceExamples.

Module MenuExamples.
Import Menu MenuProperties.


Lemma samplePage_elements :
  Forall (fun target => isElement samplePage (fst target))
    (targets samplePage [0; 1; 2]).
Proof.
  repeat constructor; eexists _, _; (split; [reflexivity|]); vm_compute; reflexivity.
Defined.

(** A click opens the menu. *)
Lemma click_toggles_the_menu_witness :
  menuClickFlag (step Click samplePage) = 1 /\
  Forall (fun target =>
            contains (classesOf (step Click samplePage) (fst target)) (snd target)
            = true)
    (targets samplePage [0; 1; 2]).
Proof.
  destruct (click_toggles_the_menu samplePage [0; 1; 2] eq_refl eq_refl
              samplePage_elements) as (Hflag & Hclasses & _).
  split; [exact Hflag|exact Hclasses].
Defined.

(** A second click closes it. *)
Lemma two_clicks_restore_the_page_witness :
  step Click samplePage <> samplePage /\
  step Click (step Click samplePage) = samplePage.
Proof.
  split; [vm_compute; discriminate|].
  apply (two_clicks_restore_the_page samplePage [0; 1; 2] eq_refl eq_refl eq_refl
           samplePage_elements).
  repeat constructor.
Defined.

(** White space between the lines of the icon: the first child node is a
    text node, and the menu never opens. *)
Lemma menu_stays_closed_without_its_elements_witness :
  fst (onclick [5; 0; 6; 1; 7; 2] spacedPage) = TypeErrorThrown /\
  menuClickFlag (steps [Click; Scroll 10; Click; Click] spacedPage) = 0 /\
  classesOf (step Click spacedPage) (Some 0) = [js "line"; newSecondLine].
Proof.
  assert (H : ~ Forall (fun target => isElement spacedPage (fst target))
                (targets spacedPage [5; 0; 6; 1; 7; 2])).
  { intros Hall. apply Forall_cons_iff in Hall as [_ Hall].
    apply Forall_cons_iff in Hall as [(node & l & E & Hl) _].
    injection E as <-. vm_compute in Hl. discriminate Hl. }
  destruct (menu_stays_closed_without_its_elements spacedPage [5; 0; 6; 1; 7; 2]
              eq_refl eq_refl H) as [Hthrown Hflag].
  split; [exact Hthrown|]. split; [apply Hflag|]. vm_compute. reflexivity.
Defined.

(** Scrolling down and back to the top. *)
Lemma scroll_colours_the_menu_on_the_home_page_witness :
  contains (classesOf (step (Scroll 120) samplePage) (Some 4)) newMenuOuterColor = true /\
  step (Scroll 0) (step (Scroll 120) samplePage) = samplePage.
Proof.
  assert (H : isElement samplePage (menuOuter samplePage))
    by (eexists _, _; (split; [reflexivity|]); vm_compute; reflexivity).
  split.
  - exact (proj1 (scroll_colours_the_menu_on_the_home_page samplePage 120
                    eq_refl H)).
  - vm_compute. reflexivity.
Defined.

End MenuExamples.

